(** * progressbar: a shallow embedding of [lib/progressbar.c]

    The development follows the C translation unit function by function.
    The bar is a heap object, the label and the tumbler format are
    borrowed C strings, [stderr] is a growing list of bytes, and the
    calls into libc and termcap ([malloc], [time], [difftime], [tgetent],
    [tgetnum]) read an explicit environment.

    Data layout is the one of the platforms that ship termcap (LP64):
    [int] and [unsigned int] are 32 bits wide, [long], [size_t] and
    [time_t] are 64 bits wide, and [double] is IEEE 754 binary64 stored
    in the same eight bytes as the [long] member of the anonymous union.
    Integer arithmetic wraps; a conversion from [double] to [int] whose
    truncated value does not fit is undefined and modelled as failure. *)

From Stdlib Require Import ZArith Lia List Ascii String Bool.
From Stdlib Require Import Floats.SpecFloat.
From stdpp Require Import gmap.

Local Open Scope Z_scope.

(** ** Machine integers *)

Module Mach.

Definition wrap_signed (w z : Z) : Z :=
  (z + 2 ^ (w - 1)) mod 2 ^ w - 2 ^ (w - 1).

Definition wrap_unsigned (w z : Z) : Z := z mod 2 ^ w.

Definition to_int (z : Z) : Z := wrap_signed 32 z.
Definition to_uint (z : Z) : Z := wrap_unsigned 32 z.
Definition to_long (z : Z) : Z := wrap_signed 64 z.
Definition to_size_t (z : Z) : Z := wrap_unsigned 64 z.

Definition INT_MAX : Z := 2 ^ 31 - 1.
Definition INT_MIN : Z := - 2 ^ 31.

(** [int] arithmetic. *)
Definition iadd (x y : Z) : Z := to_int (x + y).
Definition isub (x y : Z) : Z := to_int (x - y).
Definition imul (x y : Z) : Z := to_int (x * y).
Definition idiv (x y : Z) : Z := to_int (Z.quot x y).

End Mach.

(** ** IEEE 754 binary64

    Values of type [double] are the standard library's [spec_float]; the
    arithmetic is the standard library's specification of the IEEE
    operations at precision 53 and maximal exponent 1024. *)

Module Dbl.

Definition prec : Z := 53.
Definition emax : Z := 1024.

(** The value held by a 64-bit pattern: sign bit, eleven exponent
    bits, fifty-two fraction bits. *)
Definition of_bits (w : Z) : spec_float :=
  let s := Z.testbit w 63 in
  let E := (w / 2 ^ 52) mod 2 ^ 11 in
  let F := w mod 2 ^ 52 in
  if E =? 0 then
    if F =? 0 then S754_zero s else S754_finite s (Z.to_pos F) (-1074)
  else if E =? 2047 then
    if F =? 0 then S754_infinity s else S754_nan
  else S754_finite s (Z.to_pos (F + 2 ^ 52)) (E - 1075).

(** The patterns of the two constants the program stores. *)
Definition bits_zero : Z := 0.
Definition bits_one : Z := 1023 * 2 ^ 52.

Definition zero : spec_float := S754_zero false.
Definition one : spec_float := S754_finite false (Z.to_pos (2 ^ 52)) (-52).

(** Conversion of an integer ([int] or [long]) to [double]. *)
Definition of_Z (z : Z) : spec_float := binary_normalize prec emax z 0 false.

Definition mul : spec_float -> spec_float -> spec_float := SFmul prec emax.
Definition div : spec_float -> spec_float -> spec_float := SFdiv prec emax.
Definition sub : spec_float -> spec_float -> spec_float := SFsub prec emax.

Definition ltb : spec_float -> spec_float -> bool := SFltb.
Definition leb : spec_float -> spec_float -> bool := SFleb.

(** Truncation toward zero, before any range check. *)
Definition trunc (x : spec_float) : option Z :=
  match x with
  | S754_zero _ => Some 0
  | S754_finite s m e =>
      let a := if 0 <=? e then Z.pos m * 2 ^ e else Z.pos m / 2 ^ (- e) in
      Some (if s then - a else a)
  | S754_infinity _ | S754_nan => None
  end.

(** Conversion of a [double] to [int]: defined only when the
    truncated value is representable. *)
Definition to_int (x : spec_float) : option Z :=
  match trunc x with
  | Some z => if (Mach.INT_MIN <=? z) && (z <=? Mach.INT_MAX) then Some z else None
  | None => None
  end.

End Dbl.

(** ** Constants of the translation unit *)

Definition DEFAULT_SCREEN_WIDTH : Z := 80.
Definition MINIMUM_BAR_WIDTH : Z := 10.
Definition ETA_FORMAT : string := "ETA:%2dh%02dm%02ds".
Definition ELAPSED_FORMAT : string := "    %2dh%02dm%02ds".
Definition ETA_FORMAT_LENGTH : Z := 13.
Definition WHITESPACE_LENGTH : Z := 2.
Definition BAR_BORDER_WIDTH : Z := 2.

(** ** Data model *)

(** Addresses; [NULL] is address zero. *)
Definition ptr : Type := Z.
Definition NULL : ptr := 0.

Record format_t : Type := {
  fmt_begin : ascii;
  fmt_fill : ascii;
  fmt_unfilled : ascii;
  fmt_end : ascii
}.

(** [struct _progressbar_t].  The anonymous union of [long value] and
    [double percent] is one 64-bit cell, [slot]; [value] and [percent]
    below are its two readings. *)
Record progressbar : Type := {
  max : Z;
  slot : Z;
  start : Z;
  label : ptr;
  format : format_t;
  tumbler_format : ptr;
  tumbler_length : Z;
  tumbler_pos : Z
}.

Definition value (b : progressbar) : Z := Mach.to_long (slot b).
Definition percent (b : progressbar) : spec_float := Dbl.of_bits (slot b).

Definition set_max (v : Z) (b : progressbar) : progressbar :=
  {| max := v; slot := slot b; start := start b; label := label b;
     format := format b; tumbler_format := tumbler_format b;
     tumbler_length := tumbler_length b; tumbler_pos := tumbler_pos b |}.

Definition set_slot (v : Z) (b : progressbar) : progressbar :=
  {| max := max b; slot := v; start := start b; label := label b;
     format := format b; tumbler_format := tumbler_format b;
     tumbler_length := tumbler_length b; tumbler_pos := tumbler_pos b |}.

Definition set_start (v : Z) (b : progressbar) : progressbar :=
  {| max := max b; slot := slot b; start := v; label := label b;
     format := format b; tumbler_format := tumbler_format b;
     tumbler_length := tumbler_length b; tumbler_pos := tumbler_pos b |}.

Definition set_label (v : ptr) (b : progressbar) : progressbar :=
  {| max := max b; slot := slot b; start := start b; label := v;
     format := format b; tumbler_format := tumbler_format b;
     tumbler_length := tumbler_length b; tumbler_pos := tumbler_pos b |}.

Definition set_format (v : format_t) (b : progressbar) : progressbar :=
  {| max := max b; slot := slot b; start := start b; label := label b;
     format := v; tumbler_format := tumbler_format b;
     tumbler_length := tumbler_length b; tumbler_pos := tumbler_pos b |}.

Definition set_tumbler_format (v : ptr) (b : progressbar) : progressbar :=
  {| max := max b; slot := slot b; start := start b; label := label b;
     format := format b; tumbler_format := v;
     tumbler_length := tumbler_length b; tumbler_pos := tumbler_pos b |}.

Definition set_tumbler_length (v : Z) (b : progressbar) : progressbar :=
  {| max := max b; slot := slot b; start := start b; label := label b;
     format := format b; tumbler_format := tumbler_format b;
     tumbler_length := v; tumbler_pos := tumbler_pos b |}.

Definition set_tumbler_pos (v : Z) (b : progressbar) : progressbar :=
  {| max := max b; slot := slot b; start := start b; label := label b;
     format := format b; tumbler_format := tumbler_format b;
     tumbler_length := tumbler_length b; tumbler_pos := v |}.

(** Stores to the two members of the union. *)
Definition set_value (v : Z) : progressbar -> progressbar :=
  set_slot (Mach.to_size_t v).
Definition set_percent_bits (w : Z) : progressbar -> progressbar :=
  set_slot (Mach.to_size_t w).

(** The world the library runs in.  [heap] holds the bars obtained from
    [malloc]; [strings] holds the caller's NUL-terminated strings, each
    given by the bytes before its terminator; [stderr] is everything
    written so far.  The remaining fields are what the environment
    answers: the [n]-th call of [time] returns [clock n], [malloc]
    succeeds when [malloc_ok] holds and then hands out a block with
    the indeterminate content [junk], and termcap answers
    [tgetent_result] and [tgetnum_co]. *)
Record world : Type := {
  heap : gmap Z progressbar;
  next_block : Z;
  strings : gmap Z string;
  stderr : list ascii;
  clock : nat -> Z;
  ticks : nat;
  malloc_ok : bool;
  junk : progressbar;
  tgetent_result : Z;
  tgetnum_co : Z
}.

Definition with_heap (h : gmap Z progressbar) (w : world) : world :=
  {| heap := h; next_block := next_block w; strings := strings w;
     stderr := stderr w; clock := clock w; ticks := ticks w;
     malloc_ok := malloc_ok w; junk := junk w;
     tgetent_result := tgetent_result w; tgetnum_co := tgetnum_co w |}.

Definition with_next_block (n : Z) (w : world) : world :=
  {| heap := heap w; next_block := n; strings := strings w;
     stderr := stderr w; clock := clock w; ticks := ticks w;
     malloc_ok := malloc_ok w; junk := junk w;
     tgetent_result := tgetent_result w; tgetnum_co := tgetnum_co w |}.

Definition with_stderr (o : list ascii) (w : world) : world :=
  {| heap := heap w; next_block := next_block w; strings := strings w;
     stderr := o; clock := clock w; ticks := ticks w;
     malloc_ok := malloc_ok w; junk := junk w;
     tgetent_result := tgetent_result w; tgetnum_co := tgetnum_co w |}.

Definition with_ticks (n : nat) (w : world) : world :=
  {| heap := heap w; next_block := next_block w; strings := strings w;
     stderr := stderr w; clock := clock w; ticks := n;
     malloc_ok := malloc_ok w; junk := junk w;
     tgetent_result := tgetent_result w; tgetnum_co := tgetnum_co w |}.

(** ** The monad of the embedding

    A computation either yields a value and a new world, or stops:
    [Undefined] when the C program has no defined behaviour there,
    [Aborted] when an [assert] fails. *)

Inductive fault : Type := Undefined | Aborted.

Inductive result (A : Type) : Type :=
| Ok (a : A) (w : world)
| Fault (f : fault).
Arguments Ok {A} a w.
Arguments Fault {A} f.

Definition M (A : Type) : Type := world -> result A.

Definition ret {A} (a : A) : M A := fun w => Ok a w.

Definition bind {A B} (c : M A) (k : A -> M B) : M B :=
  fun w => match c w with
           | Ok a w' => k a w'
           | Fault f => Fault f
           end.

Definition undefined {A} : M A := fun _ => Fault Undefined.
Definition abort {A} : M A := fun _ => Fault Aborted.

Definition defined {A} (o : option A) : M A :=
  match o with Some a => ret a | None => undefined end.

Notation "'do' x <- c ; k" := (bind c (fun x => k))
  (at level 10, x name, c at level 99, k at level 200,
   format "'[v' 'do'  x  <-  c ; '/' k ']'").
Notation "'run' c ; k" := (bind c (fun _ => k))
  (at level 10, c at level 99, k at level 200,
   format "'[v' 'run'  c ; '/' k ']'").

(** ** Primitive effects *)

(** [time(NULL)]. *)
Definition time : M Z :=
  fun w => Ok (clock w (ticks w)) (with_ticks (S (ticks w)) w).

(** [difftime(t1, t0)]: the difference in seconds, as a [double]. *)
Definition difftime (t1 t0 : Z) : spec_float := Dbl.of_Z (t1 - t0).

(** [malloc(sizeof(progressbar))]: [NULL] when memory is exhausted,
    otherwise a fresh block whose content is indeterminate. *)
Definition malloc : M ptr :=
  fun w =>
    if malloc_ok w then
      let p := Z.max 1 (next_block w) in
      Ok p (with_next_block (p + 1) (with_heap (<[p := junk w]> (heap w)) w))
    else Ok NULL w.

(** [free(p)]. *)
Definition free (p : ptr) : M unit :=
  fun w =>
    if p =? NULL then Ok tt w
    else match heap w !! p with
         | Some _ => Ok tt (with_heap (delete p (heap w)) w)
         | None => Fault Undefined
         end.

(** Reading and updating the bar behind a pointer. *)
Definition load (bar : ptr) : M progressbar :=
  fun w => match heap w !! bar with
           | Some b => Ok b w
           | None => Fault Undefined
           end.

Definition store (bar : ptr) (f : progressbar -> progressbar) : M unit :=
  fun w => match heap w !! bar with
           | Some b => Ok tt (with_heap (<[bar := f b]> (heap w)) w)
           | None => Fault Undefined
           end.

(** The C string behind a pointer. *)
Definition load_string (s : ptr) : M string :=
  fun w => match strings w !! s with
           | Some str => Ok str w
           | None => Fault Undefined
           end.

(** [strlen]. *)
Definition strlen (s : string) : Z := Z.of_nat (String.length s).

(** [s[i]]: a byte of the string, or its terminator. *)
Definition char_at (s : string) (i : Z) : option ascii :=
  if (0 <=? i) && (i <? strlen s) then String.get (Z.to_nat i) s
  else if i =? strlen s then Some zero
  else None.

(** [fputc(ch, stderr)]. *)
Definition fputc (ch : ascii) : M unit :=
  fun w => Ok tt (with_stderr (stderr w ++ [ch]) w).

(** [fwrite(s, 1, n, stderr)]: the first [n] bytes of [s]. *)
Definition fwrite (s : string) (n : Z) : M unit :=
  fun w =>
    if n <=? strlen s
    then Ok tt (with_stderr (stderr w ++ firstn (Z.to_nat n) (list_ascii_of_string s)) w)
    else Fault Undefined.

(** *** [fprintf] for the two time formats *)

Definition digit (d : Z) : ascii := ascii_of_nat (48 + Z.to_nat d).

Fixpoint decimal_aux (fuel : nat) (n : Z) (acc : list ascii) : list ascii :=
  match fuel with
  | O => acc
  | S fuel' =>
      let acc' := digit (n mod 10) :: acc in
      if n / 10 =? 0 then acc' else decimal_aux fuel' (n / 10) acc'
  end.

(** The decimal digits of a non-negative [int]. *)
Definition decimal (n : Z) : list ascii := decimal_aux 10 n [].

(** The conversion [%<width>d], with flag [0] when [zero_pad]. *)
Definition conv_d (zero_pad : bool) (width : nat) (n : Z) : list ascii :=
  let sign := if n <? 0 then ["-"%char] else [] in
  let ds := decimal (Z.abs n) in
  let fill := (width - (length sign + length ds))%nat in
  if zero_pad then sign ++ repeat "0"%char fill ++ ds
  else repeat " "%char fill ++ sign ++ ds.

Definition width_of (c : ascii) : nat := (nat_of_ascii c - 48)%nat.

(** The interpreter for the directives that occur in [ETA_FORMAT] and
    [ELAPSED_FORMAT]; every other byte is copied. *)
Fixpoint format_bytes (fmt : list ascii) (args : list Z) : list ascii :=
  match fmt with
  | [] => []
  | c :: rest =>
      if Ascii.eqb c "%" then
        match rest with
        | z :: wd :: rest2 =>
            if Ascii.eqb wd "d" then
              conv_d false (width_of z) (hd 0 args) ++ format_bytes rest2 (tl args)
            else
              match rest2 with
              | d :: rest3 =>
                  if Ascii.eqb z "0" && Ascii.eqb d "d" then
                    conv_d true (width_of wd) (hd 0 args) ++ format_bytes rest3 (tl args)
                  else c :: format_bytes rest args
              | [] => c :: format_bytes rest args
              end
        | _ => c :: format_bytes rest args
        end
      else c :: format_bytes rest args
  end.

(** The string ["\n"]. *)
Definition newline : string := String "010" EmptyString.

Definition fprintf (fmt : string) (args : list Z) : M unit :=
  fun w => Ok tt (with_stderr (stderr w ++ format_bytes (list_ascii_of_string fmt) args) w).

(** ** The functions of [progressbar.c] *)

(** What a function with a pointer result hands to its caller:
    [Return p] after [return p;], [NoReturn] when control reaches the
    closing brace without a [return]. *)
Inductive returned : Type :=
| Return (p : ptr)
| NoReturn.

Record progressbar_time_components : Type := {
  hours : Z;
  minutes : Z;
  seconds : Z
}.

Definition progressbar_update_label (bar : ptr) (label : ptr) : M unit :=
  store bar (set_label label).

Definition progressbar_free (bar : ptr) : M unit :=
  free bar.

Fixpoint write_char_loop (n : nat) (ch : ascii) : M unit :=
  match n with
  | O => ret tt
  | S n' => run fputc ch ; write_char_loop n' ch
  end.

(** [times] is a [size_t]. *)
Definition progressbar_write_char (ch : ascii) (times : Z) : M unit :=
  write_char_loop (Z.to_nat times) ch.

Definition progressbar_max (x y : Z) : Z :=
  if y <? x then x else y.

(** The result has type [unsigned int]. *)
Definition get_screen_width : M Z :=
  fun w =>
    if 0 <=? tgetent_result w
    then Ok (Mach.to_uint (tgetnum_co w)) w
    else Ok (Mach.to_uint DEFAULT_SCREEN_WIDTH) w.

Definition progressbar_bar_width (screen_width label_length : Z) : Z :=
  progressbar_max MINIMUM_BAR_WIDTH
    (Mach.isub (Mach.isub (Mach.isub screen_width label_length) ETA_FORMAT_LENGTH)
       WHITESPACE_LENGTH).

Definition progressbar_label_width (screen_width label_length bar_width : Z) : Z :=
  let eta_width := ETA_FORMAT_LENGTH in
  if screen_width <?
     Mach.iadd (Mach.iadd (Mach.iadd (Mach.iadd label_length 1) bar_width) 1)
       ETA_FORMAT_LENGTH
  then progressbar_max 0
         (Mach.isub (Mach.isub (Mach.isub screen_width bar_width) eta_width)
            WHITESPACE_LENGTH)
  else label_length.

Definition progressbar_remaining_seconds (bar : ptr) : M Z :=
  do b <- load bar ;
  do now <- time ;
  let offset := difftime now (start b) in
  if (0 <? value b) && Dbl.ltb Dbl.zero offset then
    if max b <? 0 then
      defined (Dbl.to_int
                 (Dbl.mul (Dbl.div offset (percent b))
                    (Dbl.sub Dbl.one (percent b))))
    else
      defined (Dbl.to_int
                 (Dbl.mul (Dbl.div offset (Dbl.of_Z (value b)))
                    (Dbl.of_Z (Mach.to_long (max b - value b)))))
  else ret 0.

Definition progressbar_calc_time_components (seconds : Z) : progressbar_time_components :=
  let hours := Mach.idiv seconds 3600 in
  let seconds := Mach.isub seconds (Mach.imul hours 3600) in
  let minutes := Mach.idiv seconds 60 in
  let seconds := Mach.isub seconds (Mach.imul minutes 60) in
  {| hours := hours; minutes := minutes; seconds := seconds |}.

(** The locals of [progressbar_draw] that decide the gauge, in the order
    the function computes them. *)

(** [progressbar_completed]. *)
Definition draw_completed (b : progressbar) : bool :=
  if max b <? 0 then Dbl.leb Dbl.one (percent b) else max b <=? value b.

(** [bar_piece_current] as first initialised.  Both arms of the
    conditional have type [double] (the piece count is converted), and
    the initialisation converts the chosen one to [int]. *)
Definition draw_piece_raw (b : progressbar) (bar_piece_count : Z) : option Z :=
  Dbl.to_int
    (if draw_completed b then Dbl.of_Z bar_piece_count
     else Dbl.mul (Dbl.of_Z bar_piece_count)
            (if max b <? 0 then percent b
             else Dbl.div (Dbl.of_Z (value b)) (Dbl.of_Z (max b)))).

(** [bar_piece_current] after the adjustment for the tumbler. *)
Definition draw_piece_current (b : progressbar) (raw : Z) : Z :=
  if draw_completed b || (tumbler_length b =? 0) then raw
  else if raw =? 0 then raw
  else Mach.isub raw 1.

(** Whether the tumbler glyph is written. *)
Definition draw_tumbler (b : progressbar) (bar_piece_count bar_piece_current : Z) : bool :=
  (0 <? tumbler_length b) && (bar_piece_current <? bar_piece_count).

(** The [int] handed to the second [progressbar_write_char]. *)
Definition draw_unfilled (b : progressbar) (bar_piece_count bar_piece_current : Z) : Z :=
  Mach.isub (Mach.isub bar_piece_count bar_piece_current)
    (if tumbler_length b =? 0 then 0
     else if bar_piece_current =? bar_piece_count then 0
     else 1).

Definition progressbar_draw (bar : ptr) : M unit :=
  do sw <- get_screen_width ;
  let screen_width := Mach.to_int sw in
  do b <- load bar ;
  do lbl <- load_string (label b) ;
  let label_length := Mach.to_int (strlen lbl) in
  let bar_width := progressbar_bar_width screen_width label_length in
  let label_width := progressbar_label_width screen_width label_length bar_width in
  let progressbar_completed := draw_completed b in
  let bar_piece_count := Mach.isub bar_width BAR_BORDER_WIDTH in
  do raw <- defined (draw_piece_raw b bar_piece_count) ;
  let bar_piece_current := draw_piece_current b raw in
  do eta <-
    (if progressbar_completed then
       do now <- time ;
       do secs <- defined (Dbl.to_int (difftime now (start b))) ;
       ret (progressbar_calc_time_components secs)
     else
       do secs <- progressbar_remaining_seconds bar ;
       ret (progressbar_calc_time_components secs)) ;
  (* the incremented [bar_width] is not read again *)
  let bar_width := if label_width =? 0 then Mach.iadd bar_width 1 else bar_width in
  run (if label_width =? 0 then ret tt
       else run fwrite lbl (Mach.to_size_t label_width) ; fputc " ") ;
  run fputc (fmt_begin (format b)) ;
  run progressbar_write_char (fmt_fill (format b)) (Mach.to_size_t bar_piece_current) ;
  run (if draw_tumbler b bar_piece_count bar_piece_current then
         do t <- load_string (tumbler_format b) ;
         do ch <- defined (char_at t (tumbler_pos b)) ;
         run fputc ch ;
         run store bar (set_tumbler_pos (Mach.to_uint (tumbler_pos b + 1))) ;
         store bar (fun b' => set_tumbler_pos
                              (Mach.to_uint (tumbler_pos b' mod tumbler_length b')) b')
       else ret tt) ;
  run progressbar_write_char (fmt_unfilled (format b))
        (Mach.to_size_t (draw_unfilled b bar_piece_count bar_piece_current)) ;
  run fputc (fmt_end (format b)) ;
  run fputc " " ;
  run fprintf (if progressbar_completed then ELAPSED_FORMAT else ETA_FORMAT)
        [hours eta; minutes eta; seconds eta] ;
  fputc "013".

Definition progressbar_assign_values (bar : ptr) (format tumbler_format : ptr) : M unit :=
  do now <- time ;
  run store bar (set_start now) ;
  do fmt <- load_string format ;
  if strlen fmt =? 4 then
    do c0 <- defined (char_at fmt 0) ;
    do c1 <- defined (char_at fmt 1) ;
    do c2 <- defined (char_at fmt 2) ;
    do c3 <- defined (char_at fmt 3) ;
    run store bar (set_format {| fmt_begin := c0; fmt_fill := c1;
                                 fmt_unfilled := c2; fmt_end := c3 |}) ;
    run store bar (set_tumbler_format tumbler_format) ;
    do len <- (if tumbler_format =? NULL then ret 0
               else do t <- load_string tumbler_format ; ret (strlen t)) ;
    run store bar (set_tumbler_length len) ;
    store bar (set_tumbler_pos 0)
  else abort.

Definition progressbar_new_with_format (label : ptr) (max : Z) (format : ptr) : M returned :=
  do pb <- malloc ;
  if pb =? NULL then ret (Return NULL)
  else
    run store pb (set_max max) ;
    run store pb (set_value 0) ;
    run progressbar_assign_values pb format NULL ;
    run progressbar_update_label pb label ;
    run progressbar_draw pb ;
    ret (Return pb).

Definition progressbar_new_percent_with_format (label : ptr) (format : ptr) : M returned :=
  do pb <- malloc ;
  if pb =? NULL then ret (Return NULL)
  else
    run store pb (set_max (-1)) ;
    run store pb (set_percent_bits Dbl.bits_zero) ;
    run progressbar_assign_values pb format NULL ;
    run progressbar_update_label pb label ;
    run progressbar_draw pb ;
    ret NoReturn.

Definition progressbar_new_with_format_and_tumbler
    (label : ptr) (max : Z) (format tumbler_format : ptr) : M returned :=
  do pb <- malloc ;
  if pb =? NULL then ret (Return NULL)
  else
    run store pb (set_max max) ;
    run store pb (set_value 0) ;
    run progressbar_assign_values pb format tumbler_format ;
    run progressbar_update_label pb label ;
    run progressbar_draw pb ;
    ret (Return pb).

Definition progressbar_new_percent_with_format_and_tumbler
    (label : ptr) (format tumbler_format : ptr) : M returned :=
  do pb <- malloc ;
  if pb =? NULL then ret (Return NULL)
  else
    run store pb (set_max (-1)) ;
    run store pb (set_percent_bits Dbl.bits_zero) ;
    run progressbar_assign_values pb format tumbler_format ;
    run progressbar_update_label pb label ;
    run progressbar_draw pb ;
    ret (Return pb).

(** The two short constructors pass the literal ["|= |"]; [default_format]
    is where that literal lives. *)
Definition progressbar_new (default_format : ptr) (label : ptr) (max : Z) : M returned :=
  progressbar_new_with_format label max default_format.

Definition progressbar_new_percent (default_format : ptr) (label : ptr) : M returned :=
  progressbar_new_percent_with_format label default_format.

Definition progressbar_update (bar : ptr) (value : Z) : M unit :=
  run store bar (set_value value) ;
  progressbar_draw bar.

(** The [double] argument is given by its bit pattern. *)
Definition progressbar_update_percent (bar : ptr) (percent : Z) : M unit :=
  run store bar (set_percent_bits percent) ;
  progressbar_draw bar.

Definition progressbar_inc (bar : ptr) : M unit :=
  do b <- load bar ;
  progressbar_update bar (Mach.to_long (value b + 1)).

Definition progressbar_finish (bar : ptr) : M unit :=
  do b <- load bar ;
  run (if max b <? 0 then store bar (set_percent_bits Dbl.bits_one) else ret tt) ;
  run progressbar_draw bar ;
  run fprintf newline [] ;
  progressbar_free bar.
Module Round.

(** The integer nearest to [n / d], ties to even. *)
Definition rne (n d : Z) : Z :=
  let q := n / d in
  match 2 * (n mod d) ?= d with
  | Lt => q
  | Gt => q + 1
  | Eq => if Z.even q then q else q + 1
  end.

Lemma rne_spec n d :
  0 < d ->
  let c := rne n d in
  (2 * c - 1) * d <= 2 * n <= (2 * c + 1) * d /\
  (2 * n = (2 * c - 1) * d -> Z.even c = true) /\
  (2 * n = (2 * c + 1) * d -> Z.even c = true).
Proof.
  intros Hd. unfold rne.
  pose proof (Z.div_mod n d ltac:(lia)) as E.
  pose proof (Z.mod_pos_bound n d Hd) as B.
  set (q := n / d) in *. set (r := n mod d) in *.
  destruct (Z.compare_spec (2 * r) d) as [H|H|H]; cbv zeta.
  - destruct (Z.even q) eqn:Ev.
    + split; [nia|]. split; intros X; [exact Ev|exact Ev].
    + assert (Ev' : Z.even (q + 1) = true)
        by (rewrite Z.even_add, Ev; reflexivity).
      split; [nia|]. split; intros X; exact Ev'.
  - split; [nia|]. split; intros X; exfalso; nia.
  - split; [nia|]. split; intros X; exfalso; nia.
Qed.

Lemma rne_mono n1 d1 n2 d2 :
  0 < d1 -> 0 < d2 -> n1 * d2 <= n2 * d1 -> rne n1 d1 <= rne n2 d2.
Proof.
  intros H1 H2 H.
  destruct (rne_spec n1 d1 H1) as ([L1 U1] & E1 & _).
  destruct (rne_spec n2 d2 H2) as ([L2 U2] & _ & E2).
  set (c1 := rne n1 d1) in *. set (c2 := rne n2 d2) in *.
  destruct (Z_le_gt_dec c1 c2) as [|G]; [assumption|exfalso].
  assert (K1 : 2 * n1 * d2 <= (2 * c2 + 1) * d2 * d1) by nia.
  assert (K2 : (2 * c1 - 1) * d1 * d2 <= 2 * n1 * d2) by nia.
  assert (C : c1 = c2 + 1) by nia.
  assert (X1 : 2 * n1 = (2 * c1 - 1) * d1) by nia.
  assert (X2 : 2 * n2 = (2 * c2 + 1) * d2) by nia.
  specialize (E1 X1). specialize (E2 X2).
  rewrite C, Z.even_add, E2 in E1. discriminate.
Qed.

Lemma rne_exact k d : 0 < d -> rne (k * d) d = k.
Proof.
  intros Hd. unfold rne.
  rewrite Z.div_mul, Z.mod_mul by lia.
  assert (E : (2 * 0 ?= d) = Lt) by (apply Z.compare_lt_iff; lia).
  rewrite E. reflexivity.
Qed.


Lemma rne_le n d k : 0 < d -> n <= k * d -> rne n d <= k.
Proof.
  intros Hd H. rewrite <- (rne_exact k d Hd).
  apply rne_mono; nia.
Qed.

Lemma rne_ge n d k : 0 < d -> k * d <= n -> k <= rne n d.
Proof.
  intros Hd H. rewrite <- (rne_exact k d Hd).
  apply rne_mono; nia.
Qed.

Lemma div_le_cross n1 d1 n2 d2 :
  0 < d1 -> 0 < d2 -> n1 * d2 <= n2 * d1 -> n1 / d1 <= n2 / d2.
Proof.
  intros H1 H2 H.
  apply Z.div_le_lower_bound; [lia|].
  pose proof (Z.mul_div_le n1 d1 H1).
  nia.
Qed.

(** The exponent, counted in units, at which a positive quotient is
    rounded: fifty-three significant bits, but never below [tmin]. *)
Definition scale (tmin n d : Z) : Z := Z.max tmin (Z.log2 (n / d) - 52).

(** Rounding of [n / d] units to the nearest representable multiple. *)
Definition RN (tmin n d : Z) : Z :=
  2 ^ scale tmin n d * rne n (d * 2 ^ scale tmin n d).

Lemma scale_mono tmin n1 d1 n2 d2 :
  0 < d1 -> 0 < d2 -> n1 * d2 <= n2 * d1 ->
  scale tmin n1 d1 <= scale tmin n2 d2.
Proof.
  intros H1 H2 H. unfold scale.
  pose proof (Z.log2_le_mono _ _ (div_le_cross _ _ _ _ H1 H2 H)). lia.
Qed.

Lemma scale_upper tmin n d :
  0 <= tmin -> 0 <= n -> 0 < d -> n < 2 ^ (scale tmin n d + 53) * d.
Proof.
  intros Ht Hn Hd. unfold scale.
  assert (Hq : 0 <= n / d) by (apply Z.div_pos; lia).
  assert (Hlt : n / d < 2 ^ (Z.max tmin (Z.log2 (n / d) - 52) + 53)).
  { destruct (Z.eq_dec (n / d) 0) as [E|E].
    - rewrite E. apply Z.pow_pos_nonneg; lia.
    - pose proof (Z.log2_spec (n / d) ltac:(lia)) as [_ U].
      eapply Z.lt_le_trans; [exact U|].
      apply Z.pow_le_mono_r; lia. }
  pose proof (Z.div_mod n d ltac:(lia)).
  pose proof (Z.mod_pos_bound n d Hd).
  nia.
Qed.

Lemma scale_lower tmin n d :
  0 <= tmin -> 0 <= n -> 0 < d -> tmin < scale tmin n d ->
  2 ^ (scale tmin n d + 52) * d <= n.
Proof.
  intros Ht Hn Hd. unfold scale. intros Hs.
  assert (E : Z.max tmin (Z.log2 (n / d) - 52) = Z.log2 (n / d) - 52) by lia.
  rewrite E in *.
  replace (Z.log2 (n / d) - 52 + 52) with (Z.log2 (n / d)) by lia.
  assert (Hq : 0 < n / d).
  { destruct (Z.eq_dec (n / d) 0) as [Z0|Z0].
    - rewrite Z0 in Hs. simpl in Hs. lia.
    - pose proof (Z.div_pos n d Hn Hd). lia. }
  pose proof (Z.log2_spec (n / d) Hq) as [L _].
  pose proof (Z.mul_div_le n d Hd).
  assert (2 ^ Z.log2 (n / d) * d <= n / d * d)
    by (apply Z.mul_le_mono_nonneg_r; lia).
  lia.
Qed.

Lemma RN_mono tmin n1 d1 n2 d2 :
  0 <= tmin -> 0 <= n1 -> 0 < d1 -> 0 < d2 -> n1 * d2 <= n2 * d1 ->
  RN tmin n1 d1 <= RN tmin n2 d2.
Proof.
  intros Ht Hn1 H1 H2 H.
  assert (Hn2 : 0 <= n2) by nia.
  pose proof (scale_mono tmin _ _ _ _ H1 H2 H) as Hs.
  unfold RN.
  set (t1 := scale tmin n1 d1) in *. set (t2 := scale tmin n2 d2) in *.
  assert (Ht1 : 0 <= t1) by (unfold t1, scale; lia).
  assert (P1 : 0 < 2 ^ t1) by (apply Z.pow_pos_nonneg; lia).
  assert (P2 : 0 < 2 ^ t2) by (apply Z.pow_pos_nonneg; lia).
  destruct (Z.eq_dec t1 t2) as [E|NE].
  - rewrite <- E. apply Z.mul_le_mono_nonneg_l; [lia|].
    apply rne_mono; nia.
  - assert (Hlt : t1 < t2) by lia.
    pose proof (scale_upper tmin n1 d1 Ht Hn1 H1) as U. fold t1 in U.
    assert (L : 2 ^ (t2 + 52) * d2 <= n2).
    { apply scale_lower; try lia. fold t2. unfold t1, scale in *. lia. }
    rewrite Z.pow_add_r in U, L by lia.
    assert (R1 : rne n1 (d1 * 2 ^ t1) <= 2 ^ 53) by (apply rne_le; nia).
    assert (R2 : 2 ^ 52 <= rne n2 (d2 * 2 ^ t2)) by (apply rne_ge; nia).
    assert (S : 2 ^ t2 = 2 ^ t1 * 2 ^ (t2 - t1 - 1) * 2).
    { replace t2 with (t1 + (t2 - t1 - 1) + 1) at 1 by lia.
      rewrite !Z.pow_add_r by lia. reflexivity. }
    assert (P3 : 0 < 2 ^ (t2 - t1 - 1)) by (apply Z.pow_pos_nonneg; lia).
    change (2 ^ 53) with (2 * 2 ^ 52) in R1.
    remember (rne n1 (d1 * 2 ^ t1)) as r1.
    remember (rne n2 (d2 * 2 ^ t2)) as r2.
    rewrite S.
    remember (2 ^ (t2 - t1 - 1)) as c.
    remember (2 ^ t1) as a.
    remember (2 ^ 52) as K.
    assert (X1 : a * r1 <= a * (2 * r2)) by nia.
    assert (X2 : a * (2 * r2) * 1 <= a * (2 * r2) * c).
    { apply Z.mul_le_mono_nonneg_l; nia. }
    replace (a * c * 2 * r2) with (a * (2 * r2) * c) by ring.
    lia.
Qed.

Lemma RN_ext tmin n1 d1 n2 d2 :
  0 <= tmin -> 0 <= n1 -> 0 < d1 -> 0 < d2 -> n1 * d2 = n2 * d1 ->
  RN tmin n1 d1 = RN tmin n2 d2.
Proof.
  intros. apply Z.le_antisymm; apply RN_mono; nia.
Qed.

(** Representable quantities are left alone. *)
Lemma RN_exact tmin m s d :
  0 <= tmin -> tmin <= s -> 0 <= m < 2 ^ 53 -> 0 < d ->
  RN tmin (m * 2 ^ s * d) d = m * 2 ^ s.
Proof.
  intros Ht Hs Hm Hd. unfold RN.
  set (t := scale tmin (m * 2 ^ s * d) d).
  assert (Ht' : tmin <= t <= s).
  { unfold t, scale. rewrite Z.div_mul by lia.
    split; [lia|]. apply Z.max_lub; [lia|].
    destruct (Z.eq_dec m 0) as [->|Nz]; [simpl; lia|].
    rewrite Z.log2_mul_pow2 by lia.
    assert (Z.log2 m < 53) by (apply Z.log2_lt_pow2; lia). lia. }
  assert (E : 2 ^ s = 2 ^ (s - t) * 2 ^ t).
  { rewrite <- Z.pow_add_r by lia. f_equal. lia. }
  rewrite E.
  replace (m * (2 ^ (s - t) * 2 ^ t) * d) with (m * 2 ^ (s - t) * (d * 2 ^ t)) by ring.
  assert (0 < 2 ^ t) by (apply Z.pow_pos_nonneg; lia).
  rewrite rne_exact by nia. ring.
Qed.

End Round.
Module SFacts.
Import Round.

Lemma digits2_pos_size p : digits2_pos p = Pos.size p.
Proof. induction p; simpl; congruence. Qed.

Lemma Zdigits2_log2 m : 0 < m -> Zdigits2 m = Z.log2 m + 1.
Proof.
  destruct m as [|p|p]; try lia. intros _.
  destruct p; simpl; rewrite ?digits2_pos_size; lia.
Qed.

Lemma Zdigits2_0 : Zdigits2 0 = 0.
Proof. reflexivity. Qed.

(** Bounds from the number of digits. *)
Lemma Zdigits2_bounds m :
  0 < m -> 2 ^ (Zdigits2 m - 1) <= m < 2 ^ Zdigits2 m.
Proof.
  intros H. rewrite Zdigits2_log2 by assumption.
  replace (Z.log2 m + 1 - 1) with (Z.log2 m) by lia.
  apply Z.log2_spec. assumption.
Qed.

Lemma Zdigits2_nonneg m : 0 <= m -> 0 <= Zdigits2 m.
Proof.
  intros H. destruct (Z.eq_dec m 0) as [->|N]; [simpl; lia|].
  rewrite Zdigits2_log2 by lia. pose proof (Z.log2_nonneg m). lia.
Qed.

Lemma shr_1_nonneg m r s :
  0 <= m ->
  shr_1 (Build_shr_record m r s) = Build_shr_record (m / 2) (Z.odd m) (r || s).
Proof.
  intros H. destruct m as [|p|p]; try lia.
  - reflexivity.
  - destruct p as [p|p|].
    + simpl shr_1. f_equal; try reflexivity.
      apply (Z.div_unique (Z.pos p~1) 2 (Z.pos p) 1); lia.
    + simpl shr_1. f_equal; try reflexivity.
      apply (Z.div_unique (Z.pos p~0) 2 (Z.pos p) 0); lia.
    + reflexivity.
Qed.

(** Where [n] lies between two consecutive multiples of [d]. *)
Definition loc_of (n d : Z) : location :=
  if n mod d =? 0 then loc_Exact else loc_Inexact (2 * (n mod d) ?= d).

Definition rec_of (n d : Z) : shr_record :=
  shr_record_of_loc (n / d) (loc_of n d).

Lemma loc_of_shr_record_of_loc m l :
  loc_of_shr_record (shr_record_of_loc m l) = l.
Proof. destruct l as [|[]]; reflexivity. Qed.

Lemma shr_m_of_loc m l : shr_m (shr_record_of_loc m l) = m.
Proof. destruct l as [|[]]; reflexivity. Qed.

Lemma shr_1_rec n d :
  0 <= n -> 0 < d -> shr_1 (rec_of n d) = rec_of n (2 * d).
Proof.
  intros Hn Hd.
  assert (Hq : 0 <= n / d) by (apply Z.div_pos; lia).
  pose proof (Z.div_mod n d ltac:(lia)) as E.
  pose proof (Z.mod_pos_bound n d Hd) as B.
  pose proof (Z.div_mod (n / d) 2 ltac:(lia)) as E2.
  pose proof (Z.mod_pos_bound (n / d) 2 ltac:(lia)) as B2.
  assert (Q2 : n / (2 * d) = n / d / 2).
  { rewrite (Z.mul_comm 2 d). rewrite Z.div_div by lia. reflexivity. }
  assert (R2 : n mod (2 * d) = (n / d) mod 2 * d + n mod d).
  { symmetry. apply (Z.mod_unique_pos n (2 * d) (n / d / 2)); nia. }
  assert (Od : Z.odd (n / d) = negb ((n / d) mod 2 =? 0)).
  { rewrite Zodd_mod. destruct (Z.eqb_spec ((n / d) mod 2) 0) as [->|]; [reflexivity|].
    replace ((n / d) mod 2) with 1 by lia. reflexivity. }
  unfold rec_of at 2. unfold loc_of at 1. rewrite Q2, R2.
  unfold rec_of, loc_of.
  destruct (Z.eqb_spec (n mod d) 0) as [Z0|Z0].
  - simpl shr_record_of_loc. rewrite shr_1_nonneg by assumption.
    rewrite Od, Z0, Z.add_0_r.
    destruct (Z.eqb_spec ((n / d) mod 2) 0) as [P|P].
    + rewrite P. simpl. reflexivity.
    + replace ((n / d) mod 2) with 1 by lia.
      destruct (Z.eqb_spec (1 * d) 0); [lia|].
      replace (2 * (1 * d) ?= 2 * d) with Eq
        by (symmetry; apply Z.compare_eq_iff; lia).
      reflexivity.
  - assert (S1 : forall c,
      shr_1 (shr_record_of_loc (n / d) (loc_Inexact c)) =
      Build_shr_record (n / d / 2) (Z.odd (n / d)) true).
    { intros c. destruct c; simpl shr_record_of_loc;
        rewrite shr_1_nonneg by assumption; reflexivity. }
    rewrite S1, Od.
    destruct (Z.eqb_spec ((n / d) mod 2) 0) as [P|P].
    + rewrite P, Z.mul_0_l, Z.add_0_l.
      destruct (Z.eqb_spec (n mod d) 0); [lia|].
      replace (2 * (n mod d) ?= 2 * d) with Lt
        by (symmetry; apply Z.compare_lt_iff; lia).
      reflexivity.
    + replace ((n / d) mod 2) with 1 by lia.
      destruct (Z.eqb_spec (1 * d + n mod d) 0); [lia|].
      replace (2 * (1 * d + n mod d) ?= 2 * d) with Gt
        by (symmetry; apply Z.compare_gt_iff; lia).
      reflexivity.
Qed.

Lemma iter_pos_nat {A} (f : A -> A) p x :
  SpecFloat.iter_pos f p x = Nat.iter (Pos.to_nat p) f x.
Proof.
  revert x. induction p as [p IH|p IH|]; intros x; simpl SpecFloat.iter_pos.
  - rewrite !IH. rewrite Pos2Nat.inj_xI.
    rewrite <- Nat.iter_add. rewrite <- Nat.iter_succ_r.
    f_equal. lia.
  - rewrite !IH. rewrite Pos2Nat.inj_xO.
    rewrite <- Nat.iter_add. f_equal. lia.
  - reflexivity.
Qed.

Lemma iter_shr_1_rec k n d :
  0 <= n -> 0 < d ->
  Nat.iter k shr_1 (rec_of n d) = rec_of n (d * 2 ^ Z.of_nat k).
Proof.
  intros Hn Hd. induction k as [|k IH].
  - simpl. rewrite Z.mul_1_r. reflexivity.
  - rewrite Nat.iter_succ, IH.
    assert (0 < 2 ^ Z.of_nat k) by (apply Z.pow_pos_nonneg; lia).
    rewrite shr_1_rec by nia.
    f_equal. rewrite Nat2Z.inj_succ, Z.pow_succ_r by lia. ring.
Qed.

(** Shifting right by [k] places relocates [n] among the multiples of
    [d * 2 ^ k]. *)
Lemma shr_rec n d e k :
  0 <= n -> 0 < d ->
  shr (rec_of n d) e k =
  (rec_of n (d * 2 ^ Z.max 0 k), e + Z.max 0 k).
Proof.
  intros Hn Hd. destruct k as [|p|p]; simpl shr.
  - simpl Z.max. rewrite Z.mul_1_r, Z.add_0_r. reflexivity.
  - rewrite iter_pos_nat, iter_shr_1_rec by assumption.
    rewrite positive_nat_Z.
    replace (Z.max 0 (Z.pos p)) with (Z.pos p) by lia. reflexivity.
  - replace (Z.max 0 (Z.neg p)) with 0 by lia.
    simpl (2 ^ 0). rewrite Z.mul_1_r, Z.add_0_r. reflexivity.
Qed.

Lemma round_rec n d :
  0 < d ->
  round_nearest_even (shr_m (rec_of n d)) (loc_of_shr_record (rec_of n d)) = rne n d.
Proof.
  intros Hd. unfold rec_of.
  rewrite loc_of_shr_record_of_loc, shr_m_of_loc.
  unfold loc_of, rne.
  destruct (Z.eqb_spec (n mod d) 0) as [E|E].
  - rewrite E. simpl round_nearest_even.
    replace (2 * 0 ?= d) with Lt by (symmetry; apply Z.compare_lt_iff; lia).
    reflexivity.
  - simpl round_nearest_even. destruct (2 * (n mod d) ?= d); reflexivity.
Qed.

Lemma rec_of_exact m : shr_record_of_loc m loc_Exact = rec_of m 1.
Proof.
  unfold rec_of, loc_of. rewrite Z.mod_1_r, Z.div_1_r. reflexivity.
Qed.

Lemma fexp_eq e : fexp 53 1024 e = Z.max (e - 53) (-1074).
Proof. reflexivity. Qed.

Lemma rne_scale n d c : 0 < d -> 0 < c -> rne (n * c) (d * c) = rne n d.
Proof.
  intros Hd Hc. apply Z.le_antisymm; apply rne_mono; nia.
Qed.

Lemma rne_nonneg n d : 0 <= n -> 0 < d -> 0 <= rne n d.
Proof. intros. apply rne_ge; lia. Qed.

Lemma log2_scaled n d j :
  0 < d -> 0 <= j -> 0 < n / d ->
  Z.log2 (n * 2 ^ j / d) = Z.log2 (n / d) + j.
Proof.
  intros Hd Hj Hq.
  pose proof (Z.log2_spec (n / d) Hq) as [L U].
  pose proof (Z.log2_nonneg (n / d)) as Hl.
  assert (P : 0 < 2 ^ j) by (apply Z.pow_pos_nonneg; lia).
  pose proof (Z.div_mod n d ltac:(lia)) as E.
  pose proof (Z.mod_pos_bound n d Hd) as B.
  rewrite Z.pow_succ_r in U by lia.
  apply Z.log2_unique; [lia|].
  rewrite Z.pow_succ_r, Z.pow_add_r by lia.
  remember (2 ^ Z.log2 (n / d)) as a. remember (2 ^ j) as c.
  remember (n / d) as q. remember (n mod d) as r.
  assert (X1 : d * a <= d * q) by nia.
  assert (X2 : d * q + d <= d * (2 * a)) by nia.
  split.
  - apply Z.div_le_lower_bound; [lia|].
    assert (d * a * c <= n * c) by (apply Z.mul_le_mono_nonneg_r; lia).
    lia.
  - apply Z.div_lt_upper_bound; [lia|].
    assert (n * c < d * (2 * a) * c) by (apply Z.mul_lt_mono_pos_r; lia).
    lia.
Qed.

Definition is_fin (sx : bool) (x : spec_float) : Prop :=
  match x with
  | S754_zero s => s = sx
  | S754_finite s _ e => s = sx /\ -1074 <= e <= 971
  | _ => False
  end.

(** What [binary_round_aux] makes of a mantissa and exponent obtained
    from its two shifts. *)
Definition pack (sx : bool) (m e : Z) : spec_float :=
  match m with
  | Z0 => S754_zero sx
  | Zpos p => if e <=? 1024 - 53 then S754_finite sx p e else S754_infinity sx
  | Zneg _ => S754_nan
  end.

Lemma Zdigits2_le m p : 0 <= p -> 0 <= m < 2 ^ p -> Zdigits2 m <= p.
Proof.
  intros Hp [H0 H1].
  destruct (Z.eq_dec m 0) as [->|N]; [simpl; lia|].
  pose proof (Zdigits2_bounds m ltac:(lia)) as [L _].
  destruct (Z_le_gt_dec (Zdigits2 m) p) as [|G]; [assumption|exfalso].
  assert (2 ^ p <= 2 ^ (Zdigits2 m - 1)) by (apply Z.pow_le_mono_r; lia).
  lia.
Qed.

Lemma pow2_lt_inv a b : 0 <= b -> 2 ^ a < 2 ^ b -> a < b.
Proof.
  intros Hb H. apply (Z.pow_lt_mono_r_iff 2); lia.
Qed.

Lemma loc_of_1 n : loc_of n 1 = loc_Exact.
Proof. unfold loc_of. rewrite Z.mod_1_r. reflexivity. Qed.

Lemma rne_0 d : 0 < d -> rne 0 d = 0.
Proof. intros. apply (rne_exact 0 d). assumption. Qed.

Lemma RN_0 tmin d : 0 < d -> 0 <= tmin -> RN tmin 0 d = 0.
Proof.
  intros Hd Ht. unfold RN. rewrite rne_0; [lia|].
  assert (0 < 2 ^ scale tmin 0 d)
    by (apply Z.pow_pos_nonneg; unfold scale; lia).
  nia.
Qed.

Lemma RN_pow2 tmin s d :
  0 <= tmin -> tmin <= s -> 0 < d -> RN tmin (2 ^ s * d) d = 2 ^ s.
Proof.
  intros. pose proof (RN_exact tmin 1 s d) as E.
  rewrite !Z.mul_1_l in E. apply E; lia.
Qed.

Lemma RN_nonneg tmin n d : 0 <= tmin -> 0 <= n -> 0 < d -> 0 <= RN tmin n d.
Proof.
  intros. rewrite <- (RN_0 tmin d) by lia. apply RN_mono; nia.
Qed.

Lemma new_location_loc d n :
  0 < d -> new_location d (n mod d) = loc_of n d.
Proof.
  intros Hd. pose proof (Z.mod_pos_bound n d Hd) as Bn.
  unfold new_location, new_location_even, new_location_odd, loc_of.
  set (r := n mod d) in *.
  destruct (Z.even d) eqn:Ev; [reflexivity|].
  destruct (Z.eqb_spec r 0); [reflexivity|].
  assert (Hne : 2 * r <> d).
  { intros E. rewrite <- E, Z.even_mul in Ev. discriminate. }
  f_equal.
  destruct (Z.compare_spec (2 * r + 1) d), (Z.compare_spec (2 * r) d);
    try reflexivity; lia.
Qed.

Lemma Zdigits2_ge m p : 0 <= p -> 2 ^ p <= m -> p + 1 <= Zdigits2 m.
Proof.
  intros Hp H.
  assert (Hm : 0 < m) by (pose proof (Z.pow_pos_nonneg 2 p); lia).
  pose proof (Zdigits2_bounds m Hm) as [_ U].
  pose proof (Zdigits2_nonneg m ltac:(lia)).
  assert (p < Zdigits2 m) by (apply pow2_lt_inv; lia).
  lia.
Qed.

Lemma shift_match m s :
  0 <= s ->
  match s with
  | 0 => m
  | Z.pos _ => Z.shiftl m s
  | Z.neg _ => 0
  end = m * 2 ^ s.
Proof.
  intros Hs. destruct s as [|p|p].
  - rewrite Z.pow_0_r. lia.
  - apply Z.shiftl_mul_pow2. lia.
  - lia.
Qed.

Lemma SFdiv_core_binary_eq m1 e1 m2 e2 :
  0 < m1 -> 0 < m2 ->
  let e' := Z.min (fexp 53 1024 (Zdigits2 m1 + e1 - (Zdigits2 m2 + e2))) (e1 - e2) in
  let s := e1 - e2 - e' in
  SFdiv_core_binary 53 1024 m1 e1 m2 e2 =
  (m1 * 2 ^ s / m2, e', loc_of (m1 * 2 ^ s) m2).
Proof.
  intros H1 H2 e' s. unfold SFdiv_core_binary. fold e'. fold s.
  assert (Hs : 0 <= s) by (unfold s, e'; lia).
  rewrite (shift_match m1 s Hs).
  unfold loc_of. unfold Z.div, Z.modulo.
  pose proof (new_location_loc m2 (m1 * 2 ^ s) H2) as NL.
  unfold loc_of, Z.modulo in NL.
  destruct (Z.div_eucl (m1 * 2 ^ s) m2) as [q r].
  rewrite NL. reflexivity.
Qed.

Lemma binary_round_aux_shifts sx n d e :
  0 <= n -> 0 < d ->
  let k := Z.max 0 (fexp 53 1024 (Zdigits2 (n / d) + e) - e) in
  let m1 := rne n (d * 2 ^ k) in
  let k1 := Z.max 0 (fexp 53 1024 (Zdigits2 m1 + (e + k)) - (e + k)) in
  binary_round_aux 53 1024 sx (n / d) e (loc_of n d) =
  pack sx (m1 / 2 ^ k1) (e + k + k1).
Proof.
  intros Hn Hd k m1 k1.
  unfold binary_round_aux, shr_fexp.
  change (shr_record_of_loc (n / d) (loc_of n d)) with (rec_of n d).
  rewrite shr_rec by assumption. fold k.
  assert (Pk : 0 < 2 ^ k) by (apply Z.pow_pos_nonneg; lia).
  rewrite round_rec by nia. fold m1.
  rewrite rec_of_exact.
  assert (H1 : 0 <= m1) by (apply rne_nonneg; nia).
  rewrite shr_rec by lia. fold k1.
  unfold rec_of. rewrite shr_m_of_loc, Z.mul_1_l.
  reflexivity.
Qed.

Section Units.

(** Values are counted in units of [2 ^ - B], for a [B] large enough
    to be below every intermediate exponent of binary64 arithmetic. *)
Variable B : Z.
Hypothesis HB : 2148 <= B.

Definition uval (x : spec_float) : Z :=
  match x with
  | S754_finite _ m e => Z.pos m * 2 ^ (e + B)
  | _ => 0
  end.

Lemma pack_val sx m e :
  0 <= m -> -1074 <= e -> (0 < m -> e <= 971) ->
  is_fin sx (pack sx m e) /\ uval (pack sx m e) = m * 2 ^ (e + B).
Proof.
  intros Hm He Hb. destruct m as [|p|p]; try lia.
  - simpl. split; reflexivity.
  - unfold pack. destruct (Z.leb_spec e (1024 - 53)).
    + simpl. split; [split; [reflexivity|lia]|reflexivity].
    + specialize (Hb ltac:(lia)). lia.
Qed.

(** The value and the finiteness of a rounded quotient. *)
Lemma binary_round_aux_val sx n d e :
  0 <= n -> 0 < d -> -B <= e <= 971 ->
  (n mod d = 0 \/ e <= fexp 53 1024 (Zdigits2 (n / d) + e)) ->
  RN (B - 1074) (n * 2 ^ (e + B)) d < 2 ^ (1024 + B) ->
  is_fin sx (binary_round_aux 53 1024 sx (n / d) e (loc_of n d)) /\
  uval (binary_round_aux 53 1024 sx (n / d) e (loc_of n d)) =
    RN (B - 1074) (n * 2 ^ (e + B)) d.
Proof.
  intros Hn Hd He Hpre Hov.
  rewrite binary_round_aux_shifts by assumption.
  rewrite !fexp_eq in *.
  set (m := n / d) in *. set (dd := Zdigits2 m) in *.
  set (fe := Z.max (dd + e - 53) (-1074)) in *.
  set (j := e + B) in *.
  assert (Hj : 0 <= j) by (unfold j; lia).
  assert (Pj : 0 < 2 ^ j) by (apply Z.pow_pos_nonneg; lia).
  assert (Hm : 0 <= m) by (apply Z.div_pos; lia).
  assert (Hdd : 0 <= dd) by (apply Zdigits2_nonneg; assumption).
  pose proof (Z.div_mod n d ltac:(lia)) as En. fold m in En.
  pose proof (Z.mod_pos_bound n d Hd) as Bn.
  destruct (Z_le_gt_dec e fe) as [Hk|Hk].
  - (* the mantissa is shifted to the target exponent [fe] *)
    replace (Z.max 0 (fe - e)) with (fe - e) by lia.
    set (k := fe - e) in *.
    assert (Pk : 0 < 2 ^ k) by (apply Z.pow_pos_nonneg; lia).
    set (m1 := rne n (d * 2 ^ k)) in *.
    replace (e + k) with fe by (unfold k; lia).
    assert (Ht : scale (B - 1074) (n * 2 ^ j) d = fe + B).
    { unfold scale. destruct (Z.eq_dec m 0) as [Z0|Z0].
      - assert (dd = 0) by (unfold dd; rewrite Z0; reflexivity).
        assert (Hlt : n * 2 ^ j / d < 2 ^ j).
        { apply Z.div_lt_upper_bound; [lia|]. nia. }
        assert (Hq : 0 <= n * 2 ^ j / d) by (apply Z.div_pos; nia).
        assert (Z.log2 (n * 2 ^ j / d) < B - 1074).
        { destruct (Z.eq_dec (n * 2 ^ j / d) 0) as [->|]; [simpl; lia|].
          apply Z.log2_lt_pow2; [lia|].
          eapply Z.lt_le_trans; [exact Hlt|].
          apply Z.pow_le_mono_r; lia. }
        lia.
      - rewrite log2_scaled by (fold m; lia). fold m.
        unfold fe, dd. rewrite Zdigits2_log2 by lia. lia. }
    assert (HR : RN (B - 1074) (n * 2 ^ j) d = 2 ^ (fe + B) * m1).
    { unfold RN. rewrite Ht. f_equal.
      replace (fe + B) with (k + j) by (unfold k, j; lia).
      rewrite Z.pow_add_r by lia. rewrite Z.mul_assoc.
      apply rne_scale; nia. }
    assert (Hdk : dd <= k + 53) by (unfold k, fe; lia).
    assert (Hm1 : 0 <= m1 <= 2 ^ 53).
    { split; [apply rne_nonneg; nia|].
      apply rne_le; [nia|].
      assert (Hmd : m + 1 <= 2 ^ dd).
      { destruct (Z.eq_dec m 0) as [Z0|Z0].
        - rewrite Z0. pose proof (Z.pow_pos_nonneg 2 dd). lia.
        - pose proof (Zdigits2_bounds m ltac:(lia)). fold dd in H. lia. }
      assert (2 ^ dd <= 2 ^ (k + 53)) by (apply Z.pow_le_mono_r; lia).
      rewrite Z.pow_add_r in H by lia.
      nia. }
    rewrite HR in *.
    destruct (Z.eq_dec m1 (2 ^ 53)) as [Ec|Nc].
    + (* the rounded mantissa carries into a fifty-fourth bit *)
      rewrite Ec in *.
      change (Zdigits2 (2 ^ 53)) with 54.
      replace (Z.max 0 (Z.max (54 + fe - 53) (-1074) - fe)) with 1 by (unfold fe; lia).
      change (2 ^ 53 / 2 ^ 1) with (2 ^ 52).
      assert (fe + B + 53 < (1024 + B)).
      { apply pow2_lt_inv; [lia|].
        rewrite Z.pow_add_r by lia. lia. }
      destruct (pack_val sx (2 ^ 52) (fe + 1)) as [F V]; try (unfold fe; lia).
      split; [exact F|]. rewrite V.
      replace (fe + 1 + B) with (fe + B + 1) by lia.
      rewrite (Z.pow_add_r 2 (fe + B) 1) by lia.
      change (2 ^ 53) with (2 ^ 52 * 2 ^ 1). ring.
    + assert (Zdigits2 m1 <= 53) by (apply Zdigits2_le; lia).
      replace (Z.max 0 (Z.max (Zdigits2 m1 + fe - 53) (-1074) - fe)) with 0
        by (unfold fe; lia).
      rewrite Z.add_0_r. change (2 ^ 0) with 1. rewrite Z.div_1_r.
      destruct (pack_val sx m1 fe) as [F V]; try (unfold fe; lia).
      { intros Hpos.
        destruct (Z.eq_dec fe (-1074)) as [|Nf]; [lia|].
        assert (Efe : fe = dd + e - 53) by (unfold fe in *; lia).
        assert (Z0 : m <> 0).
        { intros Z0. assert (dd = 0) by (unfold dd; rewrite Z0; reflexivity). lia. }
        pose proof (Zdigits2_bounds m ltac:(lia)) as [Lm _]. fold dd in Lm.
        assert (Ek : dd - 1 = 52 + k) by (unfold k; lia).
        rewrite Ek, Z.pow_add_r in Lm by lia.
        assert (2 ^ 52 <= m1) by (apply rne_ge; nia).
        assert (fe + B + 52 < (1024 + B)).
        { apply pow2_lt_inv; [lia|].
          rewrite Z.pow_add_r by lia.
          assert (0 < 2 ^ (fe + B)) by (apply Z.pow_pos_nonneg; lia).
          nia. }
        lia. }
      split; [exact F|]. rewrite V. ring.
  - (* the exponent already exceeds the target: the quotient is exact *)
    destruct Hpre as [Hex|Hle]; [|lia].
    replace (Z.max 0 (fe - e)) with 0 by lia.
    change (2 ^ 0) with 1. rewrite Z.mul_1_r, Z.add_0_r.
    assert (En' : n = m * d) by lia.
    assert (Em1 : rne n d = m) by (rewrite En'; apply rne_exact; lia).
    rewrite Em1. fold dd. fold fe.
    replace (Z.max 0 (fe - e)) with 0 by lia.
    rewrite Z.add_0_r. change (2 ^ 0) with 1. rewrite Z.div_1_r.
    destruct (pack_val sx m e) as [F V]; try (unfold fe in Hk; lia).
    split; [exact F|]. rewrite V. fold j.
    rewrite En'.
    replace (m * d * 2 ^ j) with (m * 2 ^ j * d) by ring.
    symmetry.
    apply RN_exact; [lia | unfold j; unfold fe in Hk; lia | | lia].
    split; [lia|].
    destruct (Z.eq_dec m 0) as [Z0|Z0]; [rewrite Z0; lia|].
    pose proof (Zdigits2_bounds m ltac:(lia)) as [_ Um]. fold dd in Um.
    assert (2 ^ dd <= 2 ^ 53)
      by (apply Z.pow_le_mono_r; unfold fe in Hk; lia).
    lia.
Qed.

(** Rounding an integer mantissa at a given exponent. *)
Lemma binary_round_aux_exact sx n e :
  0 <= n -> -B <= e <= 971 ->
  RN (B - 1074) (n * 2 ^ (e + B)) 1 < 2 ^ (1024 + B) ->
  is_fin sx (binary_round_aux 53 1024 sx n e loc_Exact) /\
  uval (binary_round_aux 53 1024 sx n e loc_Exact) =
    RN (B - 1074) (n * 2 ^ (e + B)) 1.
Proof.
  intros Hn He Hov.
  pose proof (binary_round_aux_val sx n 1 e Hn ltac:(lia) He) as H.
  rewrite Z.div_1_r, loc_of_1, Z.mod_1_r in H.
  apply H; [left; reflexivity|assumption].
Qed.

Lemma uval_nonneg x : 0 <= uval x.
Proof.
  destruct x as [| | |s m e]; simpl; lia.
Qed.

Lemma uval_finite_lower s m e :
  -B <= e -> 2 ^ (e + B) <= uval (S754_finite s m e).
Proof.
  intros He. simpl.
  assert (0 < 2 ^ (e + B)) by (apply Z.pow_pos_nonneg; lia). nia.
Qed.

Lemma mul_val sx sy x y :
  is_fin sx x -> is_fin sy y ->
  uval x * uval y < 2 ^ (972 + B + B) ->
  is_fin (xorb sx sy) (SFmul 53 1024 x y) /\
  uval (SFmul 53 1024 x y) = RN (B - 1074) (uval x * uval y) (2 ^ B).
Proof.
  intros Hx Hy Hb.
  assert (P : 0 < 2 ^ B) by (apply Z.pow_pos_nonneg; lia).
  destruct x as [s1| | |s1 m1 e1], y as [s2| | |s2 m2 e2];
    simpl in Hx, Hy; try contradiction.
  - subst. simpl. rewrite RN_0 by lia. split; reflexivity.
  - destruct Hy as [-> _]. subst. simpl SFmul.
    change (uval (S754_zero _)) with 0.
    rewrite Z.mul_0_l, RN_0 by lia. split; reflexivity.
  - destruct Hx as [-> _]. subst. simpl SFmul.
    change (uval (S754_zero _)) with 0.
    rewrite Z.mul_0_r, RN_0 by lia. split; reflexivity.
  - destruct Hx as [-> Hx], Hy as [-> Hy].
    unfold SFmul.
    assert (P1 : 0 < 2 ^ (e1 + B)) by (apply Z.pow_pos_nonneg; lia).
    assert (P2 : 0 < 2 ^ (e2 + B)) by (apply Z.pow_pos_nonneg; lia).
    assert (Pw : 2 ^ (e1 + B) * 2 ^ (e2 + B) =
                 2 ^ (e1 + e2 + B) * 2 ^ B).
    { rewrite <- !Z.pow_add_r by lia. f_equal. lia. }
    assert (E : uval (S754_finite sx m1 e1) * uval (S754_finite sy m2 e2) =
                Z.pos (m1 * m2) * 2 ^ (e1 + e2 + B) * 2 ^ B).
    { unfold uval. rewrite Pos2Z.inj_mul.
      transitivity (Z.pos m1 * Z.pos m2 * (2 ^ (e1 + B) * 2 ^ (e2 + B)));
        [ring | rewrite Pw; ring]. }
    assert (He : e1 + e2 + (B + B) < (972 + B + B)).
    { apply pow2_lt_inv; [lia|].
      replace (e1 + e2 + (B + B)) with ((e1 + B) + (e2 + B)) by lia.
      rewrite Z.pow_add_r by lia.
      unfold uval in Hb.
      assert (2 ^ (e1 + B) * 2 ^ (e2 + B) <=
              Z.pos m1 * 2 ^ (e1 + B) * (Z.pos m2 * 2 ^ (e2 + B)))
        by (apply Z.mul_le_mono_nonneg; nia).
      lia. }
    assert (Ext : RN (B - 1074) (Z.pos (m1 * m2) * 2 ^ (e1 + e2 + B)) 1 =
                  RN (B - 1074) (uval (S754_finite sx m1 e1) * uval (S754_finite sy m2 e2))
                     (2 ^ B)).
    { assert (0 < 2 ^ (e1 + e2 + B)) by (apply Z.pow_pos_nonneg; lia).
      apply RN_ext; lia. }
    assert (Hov : RN (B - 1074) (uval (S754_finite sx m1 e1) * uval (S754_finite sy m2 e2))
                    (2 ^ B) < 2 ^ (1024 + B)).
    { apply Z.le_lt_trans with (2 ^ (972 + B)).
      - rewrite <- (RN_pow2 (B - 1074) (972 + B) (2 ^ B)) by lia.
        pose proof (uval_nonneg (S754_finite sx m1 e1)).
        pose proof (uval_nonneg (S754_finite sy m2 e2)).
        assert (Pw2 : 2 ^ (972 + B + B) = 2 ^ (972 + B) * 2 ^ B)
          by (rewrite <- Z.pow_add_r by lia; reflexivity).
        assert (Hnn : 0 <= uval (S754_finite sx m1 e1) * uval (S754_finite sy m2 e2))
          by nia.
        assert (Hcr : uval (S754_finite sx m1 e1) * uval (S754_finite sy m2 e2) * 2 ^ B
                      <= 2 ^ (972 + B) * 2 ^ B * 2 ^ B).
        { rewrite <- Pw2. apply Z.mul_le_mono_nonneg_r; lia. }
        assert (Ht : 0 <= B - 1074) by lia.
        apply (RN_mono _ _ _ _ _ Ht Hnn P P Hcr).
      - apply Z.pow_lt_mono_r; lia. }
    rewrite <- Ext in *.
    apply binary_round_aux_exact; [lia|lia|exact Hov].
Qed.

Lemma div_val sx sy x y :
  is_fin sx x -> is_fin sy y ->
  0 < uval y -> uval x <= 2 ^ 972 * uval y ->
  is_fin (xorb sx sy) (SFdiv 53 1024 x y) /\
  uval (SFdiv 53 1024 x y) = RN (B - 1074) (uval x * 2 ^ B) (uval y).
Proof.
  intros Hx Hy Hpos Hq.
  assert (PB : 0 < 2 ^ B) by (apply Z.pow_pos_nonneg; lia).
  assert (Ht : 0 <= B - 1074) by lia.
  destruct y as [s2| | |s2 m2 e2]; simpl in Hy, Hpos; try contradiction; try lia.
  destruct Hy as [-> Hy].
  destruct x as [s1| | |s1 m1 e1]; simpl in Hx; try contradiction.
  - subst. simpl SFdiv. change (uval (S754_zero sx)) with 0.
    rewrite Z.mul_0_l, RN_0 by assumption. split; reflexivity.
  - destruct Hx as [-> Hx].
    unfold SFdiv.
    rewrite SFdiv_core_binary_eq by lia.
    set (d1 := Zdigits2 (Z.pos m1)). set (d2 := Zdigits2 (Z.pos m2)).
    rewrite fexp_eq.
    set (e' := Z.min (Z.max (d1 + e1 - (d2 + e2) - 53) (-1074)) (e1 - e2)).
    set (s := e1 - e2 - e').
    assert (Hs : 0 <= s) by (unfold s, e'; lia).
    assert (Ps : 0 < 2 ^ s) by (apply Z.pow_pos_nonneg; lia).
    pose proof (Zdigits2_bounds (Z.pos m1) ltac:(lia)) as [L1 U1]. fold d1 in L1, U1.
    pose proof (Zdigits2_bounds (Z.pos m2) ltac:(lia)) as [L2 U2]. fold d2 in L2, U2.
    assert (Hd1 : 1 <= d1) by (unfold d1; apply (Zdigits2_ge _ 0); lia).
    assert (Hd2 : 1 <= d2) by (unfold d2; apply (Zdigits2_ge _ 0); lia).
    assert (P1 : 0 < 2 ^ (e1 + B)) by (apply Z.pow_pos_nonneg; lia).
    assert (P2 : 0 < 2 ^ (e2 + B)) by (apply Z.pow_pos_nonneg; lia).
    (* the quotient is below [2 ^ 972]: the exponents are in range *)
    assert (Hmag : d1 - 1 + e1 < 972 + d2 + e2).
    { assert (X : d1 - 1 + (e1 + B) < 972 + d2 + (e2 + B)); [|lia].
      apply pow2_lt_inv; [lia|].
      rewrite (Z.pow_add_r 2 (d1 - 1) (e1 + B)),
        (Z.pow_add_r 2 (972 + d2) (e2 + B)), (Z.pow_add_r 2 972 d2) by lia.
      unfold uval in Hq.
      assert (2 ^ (d1 - 1) * 2 ^ (e1 + B) <= Z.pos m1 * 2 ^ (e1 + B))
        by (apply Z.mul_le_mono_nonneg_r; lia).
      assert (Z.pos m2 * 2 ^ (e2 + B) < 2 ^ d2 * 2 ^ (e2 + B))
        by (apply Z.mul_lt_mono_pos_r; lia).
      assert (2 ^ 972 * (Z.pos m2 * 2 ^ (e2 + B)) < 2 ^ 972 * (2 ^ d2 * 2 ^ (e2 + B)))
        by (apply Z.mul_lt_mono_pos_l; lia).
      lia. }
    assert (He' : - B <= e' <= 971) by (unfold e'; lia).
    (* the quotient carries at least fifty-three bits *)
    assert (Hpre : (Z.pos m1 * 2 ^ s) mod Z.pos m2 = 0 \/
                   e' <= fexp 53 1024 (Zdigits2 (Z.pos m1 * 2 ^ s / Z.pos m2) + e')).
    { right. rewrite fexp_eq.
      destruct (Z_le_gt_dec e' (-1074)) as [|G]; [lia|].
      assert (Hs2 : 53 - d1 + d2 <= s) by (unfold s, e' in *; lia).
      assert (Hq52 : 2 ^ 52 <= Z.pos m1 * 2 ^ s / Z.pos m2).
      { apply Z.div_le_lower_bound; [lia|].
        assert (X1 : 2 ^ (52 + d2) <= 2 ^ (d1 - 1 + s))
          by (apply Z.pow_le_mono_r; lia).
        rewrite (Z.pow_add_r 2 (d1 - 1) s), (Z.pow_add_r 2 52 d2) in X1 by lia.
        assert (X2 : 2 ^ (d1 - 1) * 2 ^ s <= Z.pos m1 * 2 ^ s)
          by (apply Z.mul_le_mono_nonneg_r; lia).
        assert (X3 : Z.pos m2 * 2 ^ 52 <= 2 ^ d2 * 2 ^ 52)
          by (apply Z.mul_le_mono_nonneg_r; lia).
        lia. }
      pose proof (Zdigits2_ge _ 52 ltac:(lia) Hq52). lia. }
    assert (Ext : RN (B - 1074) (Z.pos m1 * 2 ^ s * 2 ^ (e' + B)) (Z.pos m2) =
                  RN (B - 1074) (uval (S754_finite sx m1 e1) * 2 ^ B)
                     (uval (S754_finite sy m2 e2))).
    { assert (Pe : 0 < 2 ^ (e' + B)) by (apply Z.pow_pos_nonneg; lia).
      assert (Hn1 : 0 <= Z.pos m1 * 2 ^ s * 2 ^ (e' + B)) by nia.
      assert (Pw : 2 ^ s * 2 ^ (e' + B) * 2 ^ (e2 + B) = 2 ^ (e1 + B) * 2 ^ B).
      { rewrite <- !Z.pow_add_r by lia. f_equal. unfold s. lia. }
      apply (RN_ext _ _ _ _ _ Ht Hn1 (Pos2Z.is_pos m2) Hpos).
      unfold uval.
      transitivity (Z.pos m1 * Z.pos m2 * (2 ^ s * 2 ^ (e' + B) * 2 ^ (e2 + B)));
        [ring | rewrite Pw; ring]. }
    assert (Hov : RN (B - 1074) (uval (S754_finite sx m1 e1) * 2 ^ B)
                    (uval (S754_finite sy m2 e2)) < 2 ^ (1024 + B)).
    { apply Z.le_lt_trans with (2 ^ (972 + B)).
      - rewrite <- (RN_pow2 (B - 1074) (972 + B) (uval (S754_finite sy m2 e2)))
          by (simpl; lia).
        pose proof (uval_nonneg (S754_finite sx m1 e1)) as Hnx.
        assert (Hnn : 0 <= uval (S754_finite sx m1 e1) * 2 ^ B) by nia.
        assert (Hcr : uval (S754_finite sx m1 e1) * 2 ^ B * uval (S754_finite sy m2 e2)
                      <= 2 ^ (972 + B) * uval (S754_finite sy m2 e2)
                         * uval (S754_finite sy m2 e2)).
        { rewrite Z.pow_add_r by lia.
          apply Z.mul_le_mono_nonneg_r; [simpl; lia|]. nia. }
        apply (RN_mono _ _ _ _ _ Ht Hnn Hpos Hpos Hcr).
      - apply Z.pow_lt_mono_r; lia. }
    rewrite <- Ext in *.
    rewrite <- Z.mul_assoc in Hov |- *.
    assert (Hn0 : 0 <= Z.pos m1 * 2 ^ s) by nia.
    pose proof (binary_round_aux_val (xorb sx sy) (Z.pos m1 * 2 ^ s) (Z.pos m2) e'
                  Hn0 (Pos2Z.is_pos m2) He' Hpre) as H.
    rewrite <- Z.mul_assoc in H. apply H. exact Hov.
Qed.

End Units.

End SFacts.

Module DblFacts.
Import Round SFacts.

Lemma pos_iter_xO p d : Z.pos (Pos.iter xO p d) = Z.pos p * 2 ^ Z.pos d.
Proof.
  induction d as [|d IH] using Pos.peano_ind.
  - simpl. lia.
  - rewrite Pos.iter_succ, Pos2Z.inj_xO, IH, Pos2Z.inj_succ, Z.pow_succ_r by lia.
    ring.
Qed.

Lemma shl_align_eq p e e' :
  shl_align p e e' = (Z.to_pos (Z.pos p * 2 ^ (e - Z.min e e')), Z.min e e').
Proof.
  unfold shl_align. destruct (e' - e) as [|d|d] eqn:E.
  - replace (Z.min e e') with e by lia. rewrite Z.sub_diag. simpl. 
    rewrite Pos.mul_1_r. reflexivity.
  - replace (Z.min e e') with e by lia. rewrite Z.sub_diag. simpl.
    rewrite Pos.mul_1_r. reflexivity.
  - replace (Z.min e e') with e' by lia.
    replace (e - e') with (Z.pos d) by lia.
    rewrite <- pos_iter_xO. reflexivity.
Qed.

(** Monotonicity of [RN], leaving the comparison of the quotients. *)
Ltac rn_mono :=
  apply RN_mono;
  [ lia | first [lia | nia] | first [assumption | lia]
  | first [assumption | lia] | ].

Section Units.

Variable B : Z.
Hypothesis HB : 2148 <= B.

Let PB : 0 < 2 ^ B.
Proof. apply Z.pow_pos_nonneg; lia. Qed.

Let Ht : 0 <= B - 1074.
Proof. lia. Qed.

Lemma binary_round_val sx p :
  Z.pos p <= 2 ^ 972 ->
  is_fin sx (binary_round 53 1024 sx p 0) /\
  uval B (binary_round 53 1024 sx p 0) = RN (B - 1074) (Z.pos p * 2 ^ B) 1.
Proof.
  intros Hz. unfold binary_round. rewrite shl_align_eq.
  set (ez := Z.min 0 (fexp 53 1024 (Z.pos (digits2_pos p) + 0))).
  assert (Hez : -1074 <= ez <= 0) by (unfold ez; rewrite fexp_eq; lia).
  assert (Pz : 0 < 2 ^ (0 - ez)) by (apply Z.pow_pos_nonneg; lia).
  rewrite Z2Pos.id by nia.
  assert (E : Z.pos p * 2 ^ (0 - ez) * 2 ^ (ez + B) = Z.pos p * 2 ^ B).
  { rewrite <- Z.mul_assoc, <- Z.pow_add_r by lia. do 2 f_equal. lia. }
  assert (Hov : RN (B - 1074) (Z.pos p * 2 ^ B) 1 < 2 ^ (1024 + B)).
  { apply Z.le_lt_trans with (2 ^ (972 + B)).
    - pose proof (RN_pow2 (B - 1074) (972 + B) 1 Ht ltac:(lia) ltac:(lia)) as X.
      rewrite Z.mul_1_r in X. rewrite <- X.
      apply RN_mono; try lia.
      rewrite Z.pow_add_r by lia.
      assert (Z.pos p * 2 ^ B <= 2 ^ 972 * 2 ^ B)
        by (apply Z.mul_le_mono_nonneg_r; lia).
      lia.
    - apply Z.pow_lt_mono_r; lia. }
  rewrite <- E in Hov |- *.
  apply (binary_round_aux_exact B HB); [nia|lia|exact Hov].
Qed.

(** Conversion of an integer. *)
Lemma of_Z_val z :
  Z.abs z <= 2 ^ 972 ->
  is_fin (z <? 0) (Dbl.of_Z z) /\
  uval B (Dbl.of_Z z) = RN (B - 1074) (Z.abs z * 2 ^ B) 1.
Proof.
  intros Hz. unfold Dbl.of_Z, binary_normalize.
  destruct z as [|p|p].
  - simpl. rewrite RN_0 by lia. split; reflexivity.
  - apply binary_round_val. exact Hz.
  - apply binary_round_val. exact Hz.
Qed.

(** Small integers convert without rounding. *)
Lemma of_Z_exact z :
  Z.abs z < 2 ^ 53 ->
  is_fin (z <? 0) (Dbl.of_Z z) /\ uval B (Dbl.of_Z z) = Z.abs z * 2 ^ B.
Proof.
  intros Hz.
  assert (Hz' : Z.abs z <= 2 ^ 972).
  { transitivity (2 ^ 53); [lia|]. apply Z.pow_le_mono_r; lia. }
  destruct (of_Z_val z Hz') as [F V]. split; [exact F|].
  rewrite V. pose proof (RN_exact (B - 1074) (Z.abs z) B 1) as X.
  rewrite Z.mul_1_r in X. apply X; lia.
Qed.

Lemma trunc_val s x :
  is_fin s x ->
  Dbl.trunc x = Some (if s then - (uval B x / 2 ^ B) else uval B x / 2 ^ B).
Proof.
  intros Hx. destruct x as [s'| | |s' m e]; simpl in Hx; try contradiction.
  - subst. simpl. destruct s; reflexivity.
  - destruct Hx as [-> He]. unfold Dbl.trunc, uval. f_equal.
    assert (Q : (if 0 <=? e then Z.pos m * 2 ^ e else Z.pos m / 2 ^ (- e)) =
                Z.pos m * 2 ^ (e + B) / 2 ^ B).
    { destruct (Z.leb_spec 0 e).
      - rewrite Z.pow_add_r, Z.mul_assoc, Z.div_mul by lia. reflexivity.
      - replace B with (- e + (e + B)) at 2 by lia.
        rewrite (Z.pow_add_r 2 (- e) (e + B)) by lia.
        assert (0 < 2 ^ (e + B)) by (apply Z.pow_pos_nonneg; lia).
        assert (0 < 2 ^ (- e)) by (apply Z.pow_pos_nonneg; lia).
        rewrite Z.div_mul_cancel_r by lia. reflexivity. }
    rewrite Q. reflexivity.
Qed.

(** A [double] converted from an [int] converts back to it. *)
Lemma to_int_of_Z n :
  Mach.INT_MIN <= n <= Mach.INT_MAX -> Dbl.to_int (Dbl.of_Z n) = Some n.
Proof.
  intros Hn. unfold Mach.INT_MIN, Mach.INT_MAX in Hn.
  assert (Hn' : Z.abs n < 2 ^ 53) by lia.
  destruct (of_Z_exact n Hn') as [F V].
  unfold Dbl.to_int. rewrite (trunc_val _ _ F), V.
  rewrite Z.div_mul by lia.
  assert (E : (if n <? 0 then - Z.abs n else Z.abs n) = n)
    by (destruct (Z.ltb_spec n 0); lia).
  rewrite E.
  unfold Mach.INT_MIN, Mach.INT_MAX.
  destruct (Z.leb_spec (- 2 ^ 31) n), (Z.leb_spec n (2 ^ 31 - 1)); try lia.
  reflexivity.
Qed.

(** The quantity [count * (value / max)] of the gauge, computed the
    way the floating-point expression rounds it, in units. *)
Definition ratio_units (v mx : Z) : Z :=
  RN (B - 1074) (RN (B - 1074) (v * 2 ^ B) 1 * 2 ^ B) (RN (B - 1074) (mx * 2 ^ B) 1).

Definition pieces_units (c r : Z) : Z :=
  RN (B - 1074) (c * 2 ^ B * r) (2 ^ B).

Lemma conv_units_pos z : 0 < z -> 0 < RN (B - 1074) (z * 2 ^ B) 1.
Proof.
  intros Hz.
  apply Z.lt_le_trans with (2 ^ B); [exact PB|].
  pose proof (RN_pow2 (B - 1074) B 1 Ht ltac:(lia) ltac:(lia)) as X.
  rewrite Z.mul_1_r in X. rewrite <- X at 1.
  apply RN_mono; try lia. nia.
Qed.

Lemma conv_units_mono z1 z2 :
  0 <= z1 <= z2 ->
  RN (B - 1074) (z1 * 2 ^ B) 1 <= RN (B - 1074) (z2 * 2 ^ B) 1.
Proof. intros Hz. apply RN_mono; try lia; nia. Qed.

Lemma ratio_units_mono v1 v2 mx :
  0 <= v1 <= v2 -> 0 < mx -> ratio_units v1 mx <= ratio_units v2 mx.
Proof.
  intros Hv Hm. unfold ratio_units.
  pose proof (conv_units_pos mx Hm) as Pm.
  pose proof (conv_units_mono v1 v2 Hv) as Mv.
  pose proof (RN_nonneg (B - 1074) (v1 * 2 ^ B) 1 Ht ltac:(nia) ltac:(lia)) as N1.
  rn_mono.
  apply Z.mul_le_mono_nonneg_r; [lia|].
  apply Z.mul_le_mono_nonneg_r; lia.
Qed.

Lemma ratio_units_le_one v mx :
  0 <= v <= mx -> 0 < mx -> 0 <= ratio_units v mx <= 2 ^ B.
Proof.
  intros Hv Hm. unfold ratio_units.
  pose proof (conv_units_pos mx Hm) as Pm.
  pose proof (conv_units_mono v mx Hv) as Mv.
  pose proof (RN_nonneg (B - 1074) (v * 2 ^ B) 1 Ht ltac:(nia) ltac:(lia)) as N1.
  split.
  - apply RN_nonneg; try lia; nia.
  - apply Z.le_trans with
      (RN (B - 1074) (2 ^ B * RN (B - 1074) (mx * 2 ^ B) 1)
         (RN (B - 1074) (mx * 2 ^ B) 1));
      [|rewrite RN_pow2 by lia; lia].
    rn_mono.
    apply Z.mul_le_mono_nonneg_r; [lia|].
    rewrite (Z.mul_comm (2 ^ B)).
    apply Z.mul_le_mono_nonneg_r; lia.
Qed.

Lemma pieces_units_mono c r1 r2 :
  0 <= c -> 0 <= r1 <= r2 -> pieces_units c r1 <= pieces_units c r2.
Proof.
  intros Hc Hr. unfold pieces_units.
  rn_mono.
  apply Z.mul_le_mono_nonneg_r; [lia|].
  apply Z.mul_le_mono_nonneg_l; nia.
Qed.

Lemma pieces_units_le c r :
  0 <= c < 2 ^ 53 -> 0 <= r <= 2 ^ B -> 0 <= pieces_units c r <= c * 2 ^ B.
Proof.
  intros Hc Hr. unfold pieces_units. split.
  - apply RN_nonneg; try lia; nia.
  - apply Z.le_trans with (RN (B - 1074) (c * 2 ^ B * 2 ^ B) (2 ^ B));
      [|rewrite RN_exact by lia; lia].
    rn_mono.
    apply Z.mul_le_mono_nonneg_r; [lia|].
    apply Z.mul_le_mono_nonneg_l; nia.
Qed.

(** The steps-mode product, as a value. *)
Lemma steps_product_val c v mx :
  0 <= c <= Mach.INT_MAX -> 0 <= v <= mx -> 0 < mx < 2 ^ 63 ->
  is_fin false (Dbl.mul (Dbl.of_Z c) (Dbl.div (Dbl.of_Z v) (Dbl.of_Z mx))) /\
  uval B (Dbl.mul (Dbl.of_Z c) (Dbl.div (Dbl.of_Z v) (Dbl.of_Z mx))) =
    pieces_units c (ratio_units v mx).
Proof.
  intros Hc Hv Hm. unfold Mach.INT_MAX in Hc.
  assert (L63 : 2 ^ 63 <= 2 ^ 972) by (apply Z.pow_le_mono_r; lia).
  destruct (of_Z_exact c ltac:(lia)) as [Fc Vc].
  destruct (of_Z_val v ltac:(lia)) as [Fv Vv].
  destruct (of_Z_val mx ltac:(lia)) as [Fm Vm].
  replace (c <? 0) with false in Fc by (symmetry; apply Z.ltb_ge; lia).
  replace (v <? 0) with false in Fv by (symmetry; apply Z.ltb_ge; lia).
  replace (mx <? 0) with false in Fm by (symmetry; apply Z.ltb_ge; lia).
  rewrite Z.abs_eq in Vc, Vv, Vm by lia.
  pose proof (conv_units_pos mx ltac:(lia)) as Pm.
  pose proof (conv_units_mono v mx Hv) as Mv.
  pose proof (RN_nonneg (B - 1074) (v * 2 ^ B) 1 Ht ltac:(nia) ltac:(lia)) as N1.
  destruct (div_val B HB false false _ _ Fv Fm) as [Fr Vr].
  { rewrite Vm. exact Pm. }
  { rewrite Vv, Vm. nia. }
  rewrite Vv, Vm in Vr. fold (ratio_units v mx) in Vr.
  pose proof (ratio_units_le_one v mx Hv ltac:(lia)) as Br.
  destruct (mul_val B HB false false _ _ Fc Fr) as [Fp Vp].
  { rewrite Vc, Vr.
    apply Z.le_lt_trans with (2 ^ 53 * 2 ^ B * 2 ^ B).
    - apply Z.mul_le_mono_nonneg; nia.
    - rewrite <- !Z.pow_add_r by lia. apply Z.pow_lt_mono_r; lia. }
  rewrite Vc, Vr in Vp. fold (pieces_units c (ratio_units v mx)) in Vp.
  split; [exact Fp|exact Vp].
Qed.

Lemma to_int_units x u c :
  is_fin false x -> uval B x = u -> 0 <= u <= c * 2 ^ B ->
  0 <= c <= Mach.INT_MAX ->
  Dbl.to_int x = Some (u / 2 ^ B) /\ 0 <= u / 2 ^ B <= c.
Proof.
  intros F V Hu Hc.
  assert (Hr : 0 <= u / 2 ^ B <= c).
  { split; [apply Z.div_pos; lia|].
    apply Z.div_le_upper_bound; [lia|]. lia. }
  split; [|exact Hr].
  unfold Dbl.to_int. rewrite (trunc_val false x F), V.
  unfold Mach.INT_MIN, Mach.INT_MAX in *.
  destruct (Z.leb_spec (- 2 ^ 31) (u / 2 ^ B)), (Z.leb_spec (u / 2 ^ B) (2 ^ 31 - 1));
    try lia.
  reflexivity.
Qed.

Lemma steps_raw c v mx :
  0 <= c <= Mach.INT_MAX -> 0 <= v <= mx -> 0 < mx < 2 ^ 63 ->
  Dbl.to_int (Dbl.mul (Dbl.of_Z c) (Dbl.div (Dbl.of_Z v) (Dbl.of_Z mx))) =
    Some (pieces_units c (ratio_units v mx) / 2 ^ B) /\
  0 <= pieces_units c (ratio_units v mx) / 2 ^ B <= c.
Proof.
  intros Hc Hv Hm.
  destruct (steps_product_val c v mx Hc Hv Hm) as [F V].
  apply (to_int_units _ _ c F V); [|exact Hc].
  apply pieces_units_le.
  - unfold Mach.INT_MAX in Hc. lia.
  - apply ratio_units_le_one; lia.
Qed.

Lemma steps_raw_units_mono c v1 v2 mx :
  0 <= c -> 0 <= v1 <= v2 -> v2 <= mx -> 0 < mx ->
  pieces_units c (ratio_units v1 mx) / 2 ^ B <=
  pieces_units c (ratio_units v2 mx) / 2 ^ B.
Proof.
  intros Hc Hv Hv2 Hm.
  apply Z.div_le_mono; [lia|].
  apply pieces_units_mono; [lia|].
  split.
  - apply ratio_units_le_one; lia.
  - apply ratio_units_mono; lia.
Qed.

(** A fraction that compares at least zero and below one. *)
Lemma of_bits_unit w :
  Dbl.leb Dbl.zero (Dbl.of_bits w) = true ->
  Dbl.leb Dbl.one (Dbl.of_bits w) = false ->
  exists s, is_fin s (Dbl.of_bits w) /\ uval B (Dbl.of_bits w) < 2 ^ B.
Proof.
  unfold Dbl.of_bits.
  set (s := Z.testbit w 63). set (E := (w / 2 ^ 52) mod 2 ^ 11).
  set (F := w mod 2 ^ 52).
  assert (HE : 0 <= E < 2 ^ 11) by (apply Z.mod_pos_bound; lia).
  assert (HF : 0 <= F < 2 ^ 52) by (apply Z.mod_pos_bound; lia).
  destruct (Z.eqb_spec E 0) as [E0|E0].
  - destruct (Z.eqb_spec F 0) as [F0|F0].
    + intros _ _. exists s. split; [reflexivity|exact PB].
    + intros H0 _. exists false.
      assert (s = false) by (destruct s; [discriminate H0|reflexivity]).
      split; [simpl; split; [assumption|lia]|].
      unfold uval. rewrite Z2Pos.id by lia.
      assert (P : 0 < 2 ^ (-1074 + B)) by (apply Z.pow_pos_nonneg; lia).
      apply Z.lt_le_trans with (2 ^ 52 * 2 ^ (-1074 + B)).
      * apply Z.mul_lt_mono_pos_r; lia.
      * rewrite <- Z.pow_add_r by lia. apply Z.pow_le_mono_r; lia.
  - destruct (Z.eqb_spec E 2047) as [E1|E1].
    + destruct (Z.eqb_spec F 0) as [F0|F0].
      * intros H0 H1. destruct s; discriminate.
      * intros H0 _. discriminate H0.
    + intros H0 H1. exists false.
      assert (Hs : s = false) by (destruct s; [discriminate H0|reflexivity]).
      rewrite Hs in H1.
      assert (He : E - 1075 < -52).
      { unfold Dbl.leb, SFleb, Dbl.one, SFcompare in H1.
        destruct (Z.compare_spec (-52) (E - 1075)) as [Q|Q|Q]; try lia;
          try discriminate H1.
        exfalso.
        rewrite Pos.compare_cont_spec in H1.
        destruct (Z.to_pos (2 ^ 52) ?= Z.to_pos (F + 2 ^ 52))%positive eqn:C;
          simpl in H1; try discriminate H1.
        apply Pos.compare_gt_iff, Pos2Z.pos_lt_pos in C.
        rewrite !Z2Pos.id in C by lia. lia. }
      split; [simpl; split; [assumption|lia]|].
      unfold uval. rewrite Z2Pos.id by lia.
      assert (P : 0 < 2 ^ (E - 1075 + B)) by (apply Z.pow_pos_nonneg; lia).
      apply Z.lt_le_trans with (2 ^ 53 * 2 ^ (E - 1075 + B)).
      * apply Z.mul_lt_mono_pos_r; lia.
      * rewrite <- Z.pow_add_r by lia. apply Z.pow_le_mono_r; lia.
Qed.

Lemma percent_raw c w :
  0 <= c <= Mach.INT_MAX ->
  Dbl.leb Dbl.zero (Dbl.of_bits w) = true ->
  Dbl.leb Dbl.one (Dbl.of_bits w) = false ->
  exists r, Dbl.to_int (Dbl.mul (Dbl.of_Z c) (Dbl.of_bits w)) = Some r /\
            0 <= r <= c.
Proof.
  intros Hc H0 H1.
  destruct (of_bits_unit w H0 H1) as (s & Ff & Vf).
  assert (Hc' : Z.abs c < 2 ^ 53) by (unfold Mach.INT_MAX in Hc; lia).
  destruct (of_Z_exact c Hc') as [Fc Vc].
  replace (c <? 0) with false in Fc by (symmetry; apply Z.ltb_ge; lia).
  rewrite Z.abs_eq in Vc by lia.
  pose proof (uval_nonneg B (Dbl.of_bits w)) as Nf.
  destruct (mul_val B HB false s _ _ Fc Ff) as [Fp Vp].
  { rewrite Vc.
    apply Z.le_lt_trans with (2 ^ 53 * 2 ^ B * 2 ^ B).
    - apply Z.mul_le_mono_nonneg; nia.
    - rewrite <- !Z.pow_add_r by lia. apply Z.pow_lt_mono_r; lia. }
  rewrite Vc in Vp. fold (pieces_units c (uval B (Dbl.of_bits w))) in Vp.
  pose proof (pieces_units_le c (uval B (Dbl.of_bits w)) ltac:(lia) ltac:(lia)) as Bp.
  exists (pieces_units c (uval B (Dbl.of_bits w)) / 2 ^ B).
  assert (Hr : 0 <= pieces_units c (uval B (Dbl.of_bits w)) / 2 ^ B <= c).
  { split; [apply Z.div_pos; lia|].
    apply Z.div_le_upper_bound; [lia|]. lia. }
  split; [|exact Hr].
  unfold Dbl.to_int.
  change (Dbl.mul (Dbl.of_Z c) (Dbl.of_bits w))
    with (SFmul 53 1024 (Dbl.of_Z c) (Dbl.of_bits w)).
  rewrite (trunc_val (xorb false s) _ Fp), Vp.
  simpl xorb.
  assert (Hz : (if s then - (pieces_units c (uval B (Dbl.of_bits w)) / 2 ^ B)
                else pieces_units c (uval B (Dbl.of_bits w)) / 2 ^ B) =
               pieces_units c (uval B (Dbl.of_bits w)) / 2 ^ B).
  { destruct s; [|reflexivity].
    (* a fraction with the sign bit set is minus zero *)
    assert (Z0 : uval B (Dbl.of_bits w) = 0).
    { destruct (Dbl.of_bits w) as [| | |s' m e]; simpl in Ff; try contradiction;
        try reflexivity.
      destruct Ff as [-> _]. simpl in H0. discriminate H0. }
    rewrite Z0. unfold pieces_units. rewrite Z.mul_0_r, RN_0 by lia.
    reflexivity. }
  rewrite Hz.
  unfold Mach.INT_MIN, Mach.INT_MAX in *.
  destruct (Z.leb_spec (- 2 ^ 31) (pieces_units c (uval B (Dbl.of_bits w)) / 2 ^ B)),
    (Z.leb_spec (pieces_units c (uval B (Dbl.of_bits w)) / 2 ^ B) (2 ^ 31 - 1));
    try lia.
  reflexivity.
Qed.

End Units.

End DblFacts.

(** ** Floating-point facts used by the renderer *)

Module FloatApi.
Import Round SFacts DblFacts.

(** The unit exponent at which the value lemmas are instantiated. *)
Definition unit_exp : Z := 2200.

Lemma unit_exp_ok : 2148 <= unit_exp.
Proof. unfold unit_exp. lia. Qed.

Lemma to_int_of_int n :
  Mach.INT_MIN <= n <= Mach.INT_MAX -> Dbl.to_int (Dbl.of_Z n) = Some n.
Proof. apply (to_int_of_Z unit_exp unit_exp_ok). Qed.

(** In range, the steps-mode fill count is defined and lies between
    zero and the piece count. *)
Lemma steps_fill_defined c v mx :
  0 <= c <= Mach.INT_MAX -> 0 <= v <= mx -> 0 < mx < 2 ^ 63 ->
  exists r,
    Dbl.to_int (Dbl.mul (Dbl.of_Z c) (Dbl.div (Dbl.of_Z v) (Dbl.of_Z mx))) = Some r /\
    0 <= r <= c.
Proof.
  intros Hc Hv Hm.
  destruct (steps_raw unit_exp unit_exp_ok c v mx Hc Hv Hm) as [E R].
  eexists. split; [exact E|exact R].
Qed.

(** The steps-mode fill count does not decrease with the value. *)
Lemma steps_fill_mono c v1 v2 mx r1 r2 :
  0 <= c <= Mach.INT_MAX -> 0 <= v1 <= v2 -> v2 <= mx -> 0 < mx < 2 ^ 63 ->
  Dbl.to_int (Dbl.mul (Dbl.of_Z c) (Dbl.div (Dbl.of_Z v1) (Dbl.of_Z mx))) = Some r1 ->
  Dbl.to_int (Dbl.mul (Dbl.of_Z c) (Dbl.div (Dbl.of_Z v2) (Dbl.of_Z mx))) = Some r2 ->
  r1 <= r2.
Proof.
  intros Hc Hv Hv2 Hm E1 E2.
  destruct (steps_raw unit_exp unit_exp_ok c v1 mx Hc ltac:(lia) Hm) as [E1' _].
  destruct (steps_raw unit_exp unit_exp_ok c v2 mx Hc ltac:(lia) Hm) as [E2' _].
  rewrite E1' in E1. rewrite E2' in E2.
  injection E1 as <-. injection E2 as <-.
  apply (steps_raw_units_mono unit_exp unit_exp_ok); lia.
Qed.

(** The percent-mode fill count of a fraction in [[0, 1)]. *)
Lemma percent_fill_defined c w :
  0 <= c <= Mach.INT_MAX ->
  Dbl.leb Dbl.zero (Dbl.of_bits w) = true ->
  Dbl.leb Dbl.one (Dbl.of_bits w) = false ->
  exists r, Dbl.to_int (Dbl.mul (Dbl.of_Z c) (Dbl.of_bits w)) = Some r /\ 0 <= r <= c.
Proof. apply (percent_raw unit_exp unit_exp_ok). Qed.

(** *** Signs *)

Definition has_sign (s : bool) (x : spec_float) : Prop :=
  match x with
  | S754_nan => True
  | S754_zero s' | S754_infinity s' | S754_finite s' _ _ => s' = s
  end.

Lemma pack_sign s m e : 0 <= m -> has_sign s (pack s m e).
Proof.
  intros Hm. destruct m as [|p|p]; try lia; simpl.
  - reflexivity.
  - destruct (e <=? 1024 - 53); reflexivity.
Qed.

Lemma binary_round_aux_sign s n d e :
  0 <= n -> 0 < d ->
  has_sign s (binary_round_aux 53 1024 s (n / d) e (loc_of n d)).
Proof.
  intros Hn Hd. rewrite binary_round_aux_shifts by assumption.
  apply pack_sign. apply Z.div_pos.
  - apply rne_nonneg; [assumption|].
    assert (0 < 2 ^ Z.max 0 (fexp 53 1024 (Zdigits2 (n / d) + e) - e))
      by (apply Z.pow_pos_nonneg; lia).
    nia.
  - apply Z.pow_pos_nonneg; lia.
Qed.

Lemma binary_round_aux_exact_sign s n e :
  0 <= n -> has_sign s (binary_round_aux 53 1024 s n e loc_Exact).
Proof.
  intros Hn. pose proof (binary_round_aux_sign s n 1 e Hn ltac:(lia)) as H.
  rewrite Z.div_1_r, loc_of_1 in H. exact H.
Qed.

Lemma mul_sign sx sy x y :
  has_sign sx x -> has_sign sy y -> has_sign (xorb sx sy) (Dbl.mul x y).
Proof.
  intros Hx Hy. unfold Dbl.mul.
  destruct x as [s1|s1| |s1 m1 e1], y as [s2|s2| |s2 m2 e2];
    simpl in Hx, Hy |- *; subst; try reflexivity; try exact I.
  apply binary_round_aux_exact_sign. lia.
Qed.

Lemma div_sign sx sy x y :
  has_sign sx x -> has_sign sy y -> has_sign (xorb sx sy) (Dbl.div x y).
Proof.
  intros Hx Hy. unfold Dbl.div.
  destruct x as [s1|s1| |s1 m1 e1], y as [s2|s2| |s2 m2 e2];
    simpl in Hx, Hy; subst; try reflexivity; try exact I.
  unfold SFdiv.
  change Dbl.prec with 53. change Dbl.emax with 1024.
  rewrite SFdiv_core_binary_eq by lia.
  apply binary_round_aux_sign; [|lia].
  assert (0 < 2 ^ (e1 - e2 -
     Z.min (fexp 53 1024 (Zdigits2 (Z.pos m1) + e1 - (Zdigits2 (Z.pos m2) + e2)))
       (e1 - e2))) by (apply Z.pow_pos_nonneg; lia).
  nia.
Qed.

Lemma of_Z_sign z : has_sign (z <? 0) (Dbl.of_Z z).
Proof.
  unfold Dbl.of_Z, binary_normalize.
  destruct z as [|p|p]; [reflexivity| |];
    unfold binary_round; change Dbl.prec with 53; change Dbl.emax with 1024;
    rewrite shl_align_eq; apply binary_round_aux_exact_sign; lia.
Qed.

Lemma trunc_negative x z : has_sign true x -> Dbl.trunc x = Some z -> z <= 0.
Proof.
  intros Hx. destruct x as [s|s| |s m e]; simpl in Hx |- *; try discriminate.
  - intros [= <-]. lia.
  - subst. intros [= <-].
    destruct (Z.leb_spec 0 e).
    + pose proof (Z.pow_nonneg 2 e). nia.
    + assert (0 <= Z.pos m / 2 ^ (- e)); [|lia].
      apply Z.div_pos; [lia|]. apply Z.pow_pos_nonneg; lia.
Qed.

Lemma to_int_negative x z : has_sign true x -> Dbl.to_int x = Some z -> z <= 0.
Proof.
  intros Hx. unfold Dbl.to_int.
  destruct (Dbl.trunc x) as [t|] eqn:E; [|discriminate].
  destruct ((Mach.INT_MIN <=? t) && (t <=? Mach.INT_MAX)); [|discriminate].
  intros [= <-]. exact (trunc_negative x t Hx E).
Qed.

(** Below zero, the steps-mode fill count is never positive. *)
Lemma steps_fill_negative c v mx r :
  0 <= c -> v < 0 -> 0 <= mx ->
  Dbl.to_int (Dbl.mul (Dbl.of_Z c) (Dbl.div (Dbl.of_Z v) (Dbl.of_Z mx))) = Some r ->
  r <= 0.
Proof.
  intros Hc Hv Hm. apply to_int_negative.
  pose proof (of_Z_sign c) as Sc. pose proof (of_Z_sign v) as Sv.
  pose proof (of_Z_sign mx) as Sm.
  replace (c <? 0) with false in Sc by (symmetry; apply Z.ltb_ge; lia).
  replace (v <? 0) with true in Sv by (symmetry; apply Z.ltb_lt; lia).
  replace (mx <? 0) with false in Sm by (symmetry; apply Z.ltb_ge; lia).
  exact (mul_sign false true _ _ Sc (div_sign true false _ _ Sv Sm)).
Qed.

Lemma ltb_zero_sign x : Dbl.ltb x Dbl.zero = true -> has_sign true x.
Proof.
  destruct x as [s|s| |s m e]; simpl; try discriminate; try (intros; exact I).
  - destruct s; [reflexivity|discriminate].
  - destruct s; [reflexivity|discriminate].
Qed.

(** Below zero, the percent-mode fill count is never positive. *)
Lemma percent_fill_negative c x r :
  0 <= c -> Dbl.ltb x Dbl.zero = true ->
  Dbl.to_int (Dbl.mul (Dbl.of_Z c) x) = Some r -> r <= 0.
Proof.
  intros Hc Hx. apply to_int_negative.
  pose proof (of_Z_sign c) as Sc.
  replace (c <? 0) with false in Sc by (symmetry; apply Z.ltb_ge; lia).
  exact (mul_sign false true _ _ Sc (ltb_zero_sign x Hx)).
Qed.

(** *** The two readings of the union *)




End FloatApi.

(** ** Machine integers: facts *)

Module MachFacts.

Lemma to_int_id z : Mach.INT_MIN <= z <= Mach.INT_MAX -> Mach.to_int z = z.
Proof.
  unfold Mach.INT_MIN, Mach.INT_MAX, Mach.to_int, Mach.wrap_signed. intros H.
  change (2 ^ (32 - 1)) with (2 ^ 31).
  rewrite Z.mod_small by lia. lia.
Qed.

Lemma to_int_range z : Mach.INT_MIN <= Mach.to_int z <= Mach.INT_MAX.
Proof.
  unfold Mach.INT_MIN, Mach.INT_MAX, Mach.to_int, Mach.wrap_signed.
  change (2 ^ (32 - 1)) with (2 ^ 31).
  pose proof (Z.mod_pos_bound (z + 2 ^ 31) (2 ^ 32) ltac:(lia)). lia.
Qed.

Lemma to_long_range z : - 2 ^ 63 <= Mach.to_long z < 2 ^ 63.
Proof.
  unfold Mach.to_long, Mach.wrap_signed.
  change (2 ^ (64 - 1)) with (2 ^ 63).
  pose proof (Z.mod_pos_bound (z + 2 ^ 63) (2 ^ 64) ltac:(lia)). lia.
Qed.

Lemma to_long_id z : - 2 ^ 63 <= z < 2 ^ 63 -> Mach.to_long z = z.
Proof.
  unfold Mach.to_long, Mach.wrap_signed. intros H.
  change (2 ^ (64 - 1)) with (2 ^ 63).
  rewrite Z.mod_small by lia. lia.
Qed.

Lemma to_size_t_id z : 0 <= z < 2 ^ 64 -> Mach.to_size_t z = z.
Proof. intros H. apply Z.mod_small. exact H. Qed.

Lemma to_size_t_neg z : - 2 ^ 64 <= z < 0 -> Mach.to_size_t z = 2 ^ 64 + z.
Proof.
  intros H. unfold Mach.to_size_t, Mach.wrap_unsigned.
  symmetry. apply (Z.mod_unique_pos z (2 ^ 64) (-1)); lia.
Qed.


End MachFacts.

(** ** The layout computation *)

Module Layout.
Import MachFacts.

Lemma progressbar_max_spec x y : progressbar_max x y = Z.max x y.
Proof. unfold progressbar_max. destruct (Z.ltb_spec y x); lia. Qed.

(** The bar is never narrower than the minimum, whatever the probe and
    the label. *)
Lemma bar_width_bounds screen_width label_length :
  MINIMUM_BAR_WIDTH <= progressbar_bar_width screen_width label_length <= Mach.INT_MAX.
Proof.
  unfold progressbar_bar_width. rewrite progressbar_max_spec.
  unfold Mach.isub.
  match goal with
  | |- context [Z.max _ (Mach.to_int ?z)] => pose proof (to_int_range z) as R
  end.
  unfold MINIMUM_BAR_WIDTH, Mach.INT_MAX, Mach.INT_MIN in *. lia.
Qed.

Lemma piece_count_bounds screen_width label_length :
  8 <= Mach.isub (progressbar_bar_width screen_width label_length) BAR_BORDER_WIDTH
    <= Mach.INT_MAX.
Proof.
  pose proof (bar_width_bounds screen_width label_length) as H.
  unfold Mach.isub, BAR_BORDER_WIDTH, MINIMUM_BAR_WIDTH, Mach.INT_MAX in *.
  rewrite to_int_id by (unfold Mach.INT_MIN, Mach.INT_MAX; lia). lia.
Qed.

(** Without wrap-around the label is never widened. *)
Lemma label_width_bounds screen_width label_length :
  - 2 ^ 30 <= screen_width <= 2 ^ 30 -> 0 <= label_length <= 2 ^ 29 ->
  0 <= progressbar_label_width screen_width label_length
         (progressbar_bar_width screen_width label_length) <= label_length.
Proof.
  intros HW HL.
  unfold progressbar_label_width, progressbar_bar_width.
  rewrite !progressbar_max_spec.
  unfold Mach.isub, Mach.iadd, MINIMUM_BAR_WIDTH, ETA_FORMAT_LENGTH, WHITESPACE_LENGTH.
  assert (I : forall z, - 2 ^ 31 <= z <= 2 ^ 31 - 1 -> Mach.to_int z = z)
    by (intros; apply to_int_id; unfold Mach.INT_MIN, Mach.INT_MAX; lia).
  rewrite (I (screen_width - label_length)) by lia.
  rewrite (I (screen_width - label_length - 13)) by lia.
  rewrite (I (screen_width - label_length - 13 - 2)) by lia.
  set (bw := Z.max 10 (screen_width - label_length - 13 - 2)).
  assert (Hbw : 10 <= bw <= 2 ^ 31 - 100) by (unfold bw; lia).
  rewrite (I (label_length + 1)) by lia.
  rewrite (I (label_length + 1 + bw)) by lia.
  rewrite (I (label_length + 1 + bw + 1)) by lia.
  rewrite (I (label_length + 1 + bw + 1 + 13)) by lia.
  rewrite (I (screen_width - bw)) by lia.
  rewrite (I (screen_width - bw - 13)) by lia.
  rewrite (I (screen_width - bw - 13 - 2)) by lia.
  destruct (Z.ltb_spec screen_width (label_length + 1 + bw + 1 + 13)); unfold bw in *; lia.
Qed.

End Layout.

(** ** Running the effects *)

Module Run.

(** Appending to [stderr]. *)
Definition emit (bytes : list ascii) (w : world) : world :=
  with_stderr (stderr w ++ bytes) w.

Lemma emit_emit a b w : emit a (emit b w) = emit (b ++ a) w.
Proof. unfold emit, with_stderr. simpl. rewrite app_assoc. reflexivity. Qed.

Lemma strings_emit a w : strings (emit a w) = strings w.
Proof. reflexivity. Qed.

Lemma heap_emit a w : heap (emit a w) = heap w.
Proof. reflexivity. Qed.

Lemma strings_with_ticks n w : strings (with_ticks n w) = strings w.
Proof. reflexivity. Qed.

Lemma heap_with_ticks n w : heap (with_ticks n w) = heap w.
Proof. reflexivity. Qed.

Lemma emit_with_heap_emit a h c w :
  emit a (with_heap h (emit c w)) = emit (c ++ a) (with_heap h w).
Proof. unfold emit, with_stderr, with_heap. simpl. rewrite app_assoc. reflexivity. Qed.

Lemma bind_ok {A B} (c : M A) (k : A -> M B) w a w' :
  c w = Ok a w' -> bind c k w = k a w'.
Proof. intros H. unfold bind. rewrite H. reflexivity. Qed.

Lemma bind_fault {A B} (c : M A) (k : A -> M B) w f :
  c w = Fault f -> bind c k w = Fault f.
Proof. intros H. unfold bind. rewrite H. reflexivity. Qed.

Lemma fputc_run ch w : fputc ch w = Ok tt (emit [ch] w).
Proof. reflexivity. Qed.

Lemma fprintf_run fmt args w :
  fprintf fmt args w = Ok tt (emit (format_bytes (list_ascii_of_string fmt) args) w).
Proof. reflexivity. Qed.

Lemma write_char_loop_run ch n w :
  write_char_loop n ch w = Ok tt (emit (repeat ch n) w).
Proof.
  revert w. induction n as [|n IH]; intros w.
  - simpl. unfold ret, emit, with_stderr. rewrite app_nil_r.
    destruct w; reflexivity.
  - simpl write_char_loop.
    rewrite (bind_ok _ _ _ _ _ (fputc_run ch w)), IH, emit_emit.
    reflexivity.
Qed.

Lemma progressbar_write_char_run ch times w :
  progressbar_write_char ch times w = Ok tt (emit (repeat ch (Z.to_nat times)) w).
Proof. apply write_char_loop_run. Qed.

(** What the probe answers in a given world. *)
Definition screen_width_of (w : world) : Z :=
  if 0 <=? tgetent_result w then Mach.to_uint (tgetnum_co w)
  else Mach.to_uint DEFAULT_SCREEN_WIDTH.

Lemma get_screen_width_run w : get_screen_width w = Ok (screen_width_of w) w.
Proof.
  unfold get_screen_width, screen_width_of.
  destruct (0 <=? tgetent_result w); reflexivity.
Qed.

Lemma load_run bar w b : heap w !! bar = Some b -> load bar w = Ok b w.
Proof. intros H. unfold load. rewrite H. reflexivity. Qed.

Lemma load_fault bar w : heap w !! bar = None -> load bar w = Fault Undefined.
Proof. intros H. unfold load. rewrite H. reflexivity. Qed.

Lemma store_run bar f w b :
  heap w !! bar = Some b ->
  store bar f w = Ok tt (with_heap (<[bar := f b]> (heap w)) w).
Proof. intros H. unfold store. rewrite H. reflexivity. Qed.

Lemma load_string_run s w str :
  strings w !! s = Some str -> load_string s w = Ok str w.
Proof. intros H. unfold load_string. rewrite H. reflexivity. Qed.

Lemma load_string_fault s w :
  strings w !! s = None -> load_string s w = Fault Undefined.
Proof. intros H. unfold load_string. rewrite H. reflexivity. Qed.

(** The body of [progressbar_remaining_seconds], given the bar and the
    clock reading. *)
Definition remaining_at (b : progressbar) (now : Z) : option Z :=
  let offset := difftime now (start b) in
  if (0 <? value b) && Dbl.ltb Dbl.zero offset then
    if max b <? 0 then
      Dbl.to_int (Dbl.mul (Dbl.div offset (percent b)) (Dbl.sub Dbl.one (percent b)))
    else
      Dbl.to_int (Dbl.mul (Dbl.div offset (Dbl.of_Z (value b)))
                    (Dbl.of_Z (Mach.to_long (max b - value b))))
  else Some 0.

Lemma progressbar_remaining_seconds_run bar w b :
  heap w !! bar = Some b ->
  progressbar_remaining_seconds bar w =
  match remaining_at b (clock w (ticks w)) with
  | Some secs => Ok secs (with_ticks (S (ticks w)) w)
  | None => Fault Undefined
  end.
Proof.
  intros Hb. unfold progressbar_remaining_seconds.
  rewrite (bind_ok _ _ _ _ _ (load_run bar w b Hb)).
  unfold bind at 1. unfold time at 1. unfold remaining_at.
  destruct ((0 <? value b) && Dbl.ltb Dbl.zero (difftime (clock w (ticks w)) (start b))).
  - destruct (max b <? 0).
    + destruct (Dbl.to_int _); reflexivity.
    + destruct (Dbl.to_int _); reflexivity.
  - reflexivity.
Qed.

(** The seconds shown in the time field. *)
Definition eta_seconds (b : progressbar) (now : Z) : option Z :=
  if draw_completed b then Dbl.to_int (difftime now (start b))
  else remaining_at b now.

(** The label and its trailing space, when the label is drawn. *)
Definition label_bytes (lbl : string) (label_width : Z) : option (list ascii) :=
  if label_width =? 0 then Some []
  else if Mach.to_size_t label_width <=? strlen lbl then
    Some (firstn (Z.to_nat (Mach.to_size_t label_width)) (list_ascii_of_string lbl)
            ++ [" "%char])
  else None.

(** The tumbler glyph, when one is drawn, and the bar with its cursor
    advanced. *)
Definition tumbler_step (strs : gmap Z string) (b : progressbar)
    (bar_piece_count bar_piece_current : Z) : option (list ascii * progressbar) :=
  if draw_tumbler b bar_piece_count bar_piece_current then
    match strs !! tumbler_format b with
    | Some t =>
        match char_at t (tumbler_pos b) with
        | Some ch =>
            Some ([ch],
                  set_tumbler_pos
                    (Mach.to_uint (Mach.to_uint (tumbler_pos b + 1) mod tumbler_length b)) b)
        | None => None
        end
    | None => None
    end
  else Some ([], b).

(** The bytes of one draw, in emission order. *)
Definition draw_bytes (b : progressbar) (label_part : list ascii)
    (bar_piece_count bar_piece_current : Z) (tumbler_part : list ascii)
    (eta : progressbar_time_components) : list ascii :=
  label_part
  ++ [fmt_begin (format b)]
  ++ repeat (fmt_fill (format b)) (Z.to_nat (Mach.to_size_t bar_piece_current))
  ++ tumbler_part
  ++ repeat (fmt_unfilled (format b))
       (Z.to_nat (Mach.to_size_t (draw_unfilled b bar_piece_count bar_piece_current)))
  ++ [fmt_end (format b)] ++ [" "%char]
  ++ format_bytes
       (list_ascii_of_string (if draw_completed b then ELAPSED_FORMAT else ETA_FORMAT))
       [hours eta; minutes eta; seconds eta]
  ++ ["013"%char].

(** The label width and the piece count of a draw, from the world and
    the label. *)
Definition label_width_of (w : world) (lbl : string) : Z :=
  let screen_width := Mach.to_int (screen_width_of w) in
  let label_length := Mach.to_int (strlen lbl) in
  progressbar_label_width screen_width label_length
    (progressbar_bar_width screen_width label_length).

Definition piece_count_of (w : world) (lbl : string) : Z :=
  let screen_width := Mach.to_int (screen_width_of w) in
  let label_length := Mach.to_int (strlen lbl) in
  Mach.isub (progressbar_bar_width screen_width label_length) BAR_BORDER_WIDTH.

(** One draw, as a function of the world it starts in. *)
Definition draw_spec (bar : ptr) (w : world) : result unit :=
  match heap w !! bar with
  | None => Fault Undefined
  | Some b =>
      match strings w !! label b with
      | None => Fault Undefined
      | Some lbl =>
          match draw_piece_raw b (piece_count_of w lbl) with
          | None => Fault Undefined
          | Some raw =>
              match eta_seconds b (clock w (ticks w)) with
              | None => Fault Undefined
              | Some secs =>
                  match label_bytes lbl (label_width_of w lbl) with
                  | None => Fault Undefined
                  | Some label_part =>
                      match tumbler_step (strings w) b (piece_count_of w lbl)
                              (draw_piece_current b raw) with
                      | None => Fault Undefined
                      | Some (tumbler_part, b') =>
                          Ok tt
                            (emit
                               (draw_bytes b label_part (piece_count_of w lbl)
                                  (draw_piece_current b raw) tumbler_part
                                  (progressbar_calc_time_components secs))
                               (with_heap
                                  (if draw_tumbler b (piece_count_of w lbl)
                                        (draw_piece_current b raw)
                                   then <[bar := b']> (heap w) else heap w)
                                  (with_ticks (S (ticks w)) w)))
                      end
                  end
              end
          end
      end
  end.

Lemma defined_some {A B} (a : A) (k : A -> M B) w :
  bind (defined (Some a)) k w = k a w.
Proof. reflexivity. Qed.

Lemma defined_none {A B} (k : A -> M B) w :
  bind (defined None) k w = Fault Undefined.
Proof. reflexivity. Qed.

Lemma eta_run bar w b :
  heap w !! bar = Some b ->
  (if draw_completed b then
     do now <- time ;
     do secs <- defined (Dbl.to_int (difftime now (start b))) ;
     ret (progressbar_calc_time_components secs)
   else
     do secs <- progressbar_remaining_seconds bar ;
     ret (progressbar_calc_time_components secs)) w =
  match eta_seconds b (clock w (ticks w)) with
  | Some secs => Ok (progressbar_calc_time_components secs) (with_ticks (S (ticks w)) w)
  | None => Fault Undefined
  end.
Proof.
  intros Hb. unfold eta_seconds. destruct (draw_completed b).
  - unfold bind at 1. unfold time at 1.
    destruct (Dbl.to_int _); reflexivity.
  - unfold bind at 1. rewrite (progressbar_remaining_seconds_run bar w b Hb).
    destruct (remaining_at _ _); reflexivity.
Qed.

Lemma label_run lbl label_width w :
  (if label_width =? 0 then ret tt
   else run fwrite lbl (Mach.to_size_t label_width) ; fputc " ") w =
  match label_bytes lbl label_width with
  | Some label_part => Ok tt (emit label_part w)
  | None => Fault Undefined
  end.
Proof.
  unfold label_bytes. destruct (label_width =? 0).
  - unfold ret, emit, with_stderr. rewrite app_nil_r. destruct w; reflexivity.
  - unfold bind, fwrite.
    destruct (Mach.to_size_t label_width <=? strlen lbl); [|reflexivity].
    rewrite fputc_run. fold (emit (firstn (Z.to_nat (Mach.to_size_t label_width))
                                    (list_ascii_of_string lbl)) w).
    rewrite emit_emit. reflexivity.
Qed.

Lemma set_tumbler_pos_twice p q b :
  set_tumbler_pos p (set_tumbler_pos q b) = set_tumbler_pos p b.
Proof. reflexivity. Qed.

Lemma tumbler_run bar w b bar_piece_count bar_piece_current :
  heap w !! bar = Some b ->
  (if draw_tumbler b bar_piece_count bar_piece_current then
     do t <- load_string (tumbler_format b) ;
     do ch <- defined (char_at t (tumbler_pos b)) ;
     run fputc ch ;
     run store bar (set_tumbler_pos (Mach.to_uint (tumbler_pos b + 1))) ;
     store bar (fun b' => set_tumbler_pos
                          (Mach.to_uint (tumbler_pos b' mod tumbler_length b')) b')
   else ret tt) w =
  match tumbler_step (strings w) b bar_piece_count bar_piece_current with
  | Some (tumbler_part, b') =>
      Ok tt (emit tumbler_part
               (with_heap
                  (if draw_tumbler b bar_piece_count bar_piece_current
                   then <[bar := b']> (heap w) else heap w) w))
  | None => Fault Undefined
  end.
Proof.
  intros Hb. unfold tumbler_step.
  destruct (draw_tumbler b bar_piece_count bar_piece_current).
  - destruct (strings w !! tumbler_format b) as [t|] eqn:Ht.
    + rewrite (bind_ok _ _ _ _ _ (load_string_run _ _ _ Ht)).
      destruct (char_at t (tumbler_pos b)) as [ch|].
      * rewrite defined_some.
        rewrite (bind_ok _ _ _ _ _ (fputc_run ch w)).
        assert (Hb1 : heap (emit [ch] w) !! bar = Some b) by exact Hb.
        rewrite (bind_ok _ _ _ _ _ (store_run bar _ _ b Hb1)).
        erewrite store_run
          by (simpl; apply lookup_insert_eq).
        f_equal. unfold emit, with_heap, with_stderr. simpl.
        rewrite insert_insert_eq. reflexivity.
      * rewrite defined_none. reflexivity.
    + rewrite (bind_fault _ _ _ _ (load_string_fault _ _ Ht)). reflexivity.
  - unfold ret, emit, with_stderr, with_heap. rewrite app_nil_r.
    destruct w; reflexivity.
Qed.

(** [progressbar_draw] is [draw_spec]. *)
Lemma progressbar_draw_eq bar w : progressbar_draw bar w = draw_spec bar w.
Proof.
  unfold progressbar_draw, draw_spec.
  rewrite (bind_ok _ _ _ _ _ (get_screen_width_run w)).
  destruct (heap w !! bar) as [b|] eqn:Hb;
    [|rewrite (bind_fault _ _ _ _ (load_fault _ _ Hb)); reflexivity].
  rewrite (bind_ok _ _ _ _ _ (load_run _ _ _ Hb)).
  destruct (strings w !! label b) as [lbl|] eqn:Hl;
    [|rewrite (bind_fault _ _ _ _ (load_string_fault _ _ Hl)); reflexivity].
  rewrite (bind_ok _ _ _ _ _ (load_string_run _ _ _ Hl)).
  unfold piece_count_of, label_width_of. cbv zeta.
  set (screen_width := Mach.to_int (screen_width_of w)).
  set (label_length := Mach.to_int (strlen lbl)).
  set (bar_width := progressbar_bar_width screen_width label_length).
  set (label_width := progressbar_label_width screen_width label_length bar_width).
  set (bar_piece_count := Mach.isub bar_width BAR_BORDER_WIDTH).
  destruct (draw_piece_raw b bar_piece_count) as [raw|];
    [rewrite defined_some|rewrite defined_none; reflexivity].
  set (bar_piece_current := draw_piece_current b raw).
  unfold bind at 1. rewrite (eta_run bar w b Hb).
  destruct (eta_seconds b (clock w (ticks w))) as [secs|]; [|reflexivity].
  set (w1 := with_ticks (S (ticks w)) w).
  unfold bind at 1. rewrite label_run.
  destruct (label_bytes lbl label_width) as [label_part|]; [|reflexivity].
  rewrite (bind_ok _ _ _ _ _ (fputc_run _ _)).
  rewrite (bind_ok _ _ _ _ _ (progressbar_write_char_run _ _ _)).
  rewrite !emit_emit.
  unfold bind at 1.
  match goal with
  | |- context [(if draw_tumbler _ _ _ then _ else _) ?w2] =>
      assert (Hb2 : heap w2 !! bar = Some b) by exact Hb;
      rewrite (tumbler_run bar w2 b bar_piece_count bar_piece_current Hb2)
  end.
  rewrite !strings_emit, !heap_emit.
  unfold w1 at 1 2 3. rewrite strings_with_ticks, !heap_with_ticks.
  destruct (tumbler_step (strings w) b bar_piece_count bar_piece_current)
    as [[tumbler_part b']|]; [|reflexivity].
  rewrite (bind_ok _ _ _ _ _ (progressbar_write_char_run _ _ _)).
  rewrite (bind_ok _ _ _ _ _ (fputc_run _ _)).
  rewrite (bind_ok _ _ _ _ _ (fputc_run _ _)).
  rewrite (bind_ok _ _ _ _ _ (fprintf_run _ _ _)).
  rewrite fputc_run.
  rewrite !emit_emit.
  rewrite emit_with_heap_emit. unfold draw_bytes.
  rewrite <- !app_assoc. reflexivity.
Qed.

(** The world a successful draw ends in. *)
Definition after_draw (bar : ptr) (w : world) (b : progressbar) (lbl : string)
    (raw secs : Z) (label_part tumbler_part : list ascii) (b' : progressbar) : world :=
  emit
    (draw_bytes b label_part (piece_count_of w lbl) (draw_piece_current b raw)
       tumbler_part (progressbar_calc_time_components secs))
    (with_heap
       (if draw_tumbler b (piece_count_of w lbl) (draw_piece_current b raw)
        then <[bar := b']> (heap w) else heap w)
       (with_ticks (S (ticks w)) w)).

(** A draw returns exactly when the bar and its label can be read and
    the conversions, the label write and the tumbler read are defined. *)
Lemma draw_ok bar w b lbl raw secs label_part tumbler_part b' :
  heap w !! bar = Some b ->
  strings w !! label b = Some lbl ->
  draw_piece_raw b (piece_count_of w lbl) = Some raw ->
  eta_seconds b (clock w (ticks w)) = Some secs ->
  label_bytes lbl (label_width_of w lbl) = Some label_part ->
  tumbler_step (strings w) b (piece_count_of w lbl) (draw_piece_current b raw)
    = Some (tumbler_part, b') ->
  progressbar_draw bar w =
  Ok tt (after_draw bar w b lbl raw secs label_part tumbler_part b').
Proof.
  intros Hb Hl Hr He Hp Ht.
  rewrite progressbar_draw_eq. unfold draw_spec.
  rewrite Hb, Hl, Hr, He, Hp, Ht. reflexivity.
Qed.

Lemma draw_inv bar w u w2 :
  progressbar_draw bar w = Ok u w2 ->
  exists b lbl raw secs label_part tumbler_part b',
    heap w !! bar = Some b /\
    strings w !! label b = Some lbl /\
    draw_piece_raw b (piece_count_of w lbl) = Some raw /\
    eta_seconds b (clock w (ticks w)) = Some secs /\
    label_bytes lbl (label_width_of w lbl) = Some label_part /\
    tumbler_step (strings w) b (piece_count_of w lbl) (draw_piece_current b raw)
      = Some (tumbler_part, b') /\
    w2 = after_draw bar w b lbl raw secs label_part tumbler_part b'.
Proof.
  rewrite progressbar_draw_eq. unfold draw_spec.
  destruct (heap w !! bar) as [b|] eqn:Hb; [|discriminate].
  destruct (strings w !! label b) as [lbl|] eqn:Hl; [|discriminate].
  destruct (draw_piece_raw b (piece_count_of w lbl)) as [raw|] eqn:Hr; [|discriminate].
  destruct (eta_seconds b (clock w (ticks w))) as [secs|] eqn:He; [|discriminate].
  destruct (label_bytes lbl (label_width_of w lbl)) as [label_part|] eqn:Hp;
    [|discriminate].
  destruct (tumbler_step (strings w) b (piece_count_of w lbl) (draw_piece_current b raw))
    as [[tumbler_part b']|] eqn:Ht; [|discriminate].
  intros H. injection H as _ H.
  exists b, lbl, raw, secs, label_part, tumbler_part, b'.
  split; [reflexivity|]. split; [exact Hl|]. split; [exact Hr|].
  split; [exact He|]. split; [exact Hp|]. split; [exact Ht|].
  symmetry. exact H.
Qed.

(** The bar stays allocated across a draw. *)
Lemma after_draw_heap bar w b lbl raw secs label_part tumbler_part b' :
  heap w !! bar = Some b ->
  exists b2,
    heap (after_draw bar w b lbl raw secs label_part tumbler_part b') !! bar = Some b2.
Proof.
  intros Hb. unfold after_draw. rewrite heap_emit.
  change (heap (with_heap ?h _)) with h.
  destruct (draw_tumbler _ _ _).
  - exists b'. apply lookup_insert_eq.
  - exists b. exact Hb.
Qed.

(** Every draw ends with a carriage return. *)
Lemma after_draw_stderr bar w b lbl raw secs label_part tumbler_part b' :
  exists line,
    stderr (after_draw bar w b lbl raw secs label_part tumbler_part b')
    = stderr w ++ line ++ ["013"%char].
Proof.
  unfold after_draw, emit, draw_bytes.
  change (stderr (with_stderr ?o _)) with o.
  change (stderr (with_heap _ (with_ticks _ w))) with (stderr w).
  eexists. f_equal. rewrite !app_assoc. reflexivity.
Qed.

End Run.

(** ** Properties of the renderer *)

(** A value of type [long]. *)
Definition is_long (z : Z) : Prop := - 2 ^ 63 <= z < 2 ^ 63.

(** Progress within the expected range: [0 <= value <= max] in steps
    mode, [0 <= fraction <= 1] in percent mode. *)
Definition in_range (b : progressbar) : Prop :=
  if max b <? 0
  then Dbl.leb Dbl.zero (percent b) = true /\ Dbl.leb (percent b) Dbl.one = true
  else 0 <= value b <= max b.

(** The cells a draw shows as advanced: the fill glyphs written, and
    the tumbler cell when it is written. *)
Definition advanced_cells (b : progressbar) (bar_piece_count raw : Z) : Z :=
  let bar_piece_current := draw_piece_current b raw in
  Mach.to_size_t bar_piece_current
  + (if draw_tumbler b bar_piece_count bar_piece_current then 1 else 0).

Module Gauge.
Import MachFacts Layout FloatApi.

Lemma isub_id x y :
  - 2 ^ 31 <= x - y <= 2 ^ 31 - 1 -> Mach.isub x y = x - y.
Proof. intros H. apply to_int_id. unfold Mach.INT_MIN, Mach.INT_MAX. lia. Qed.

(** Removes the wrap-around of [int] subtractions that stay in range. *)
Ltac isub_norm :=
  repeat match goal with
         | |- context [Mach.isub ?x ?y] => rewrite (isub_id x y) by lia
         end.

(** In range and not complete, the fill count is defined and within
    the gauge. *)
Lemma raw_in_range b bar_piece_count :
  is_long (max b) -> in_range b -> draw_completed b = false ->
  0 <= bar_piece_count <= Mach.INT_MAX ->
  exists raw, draw_piece_raw b bar_piece_count = Some raw /\ 0 <= raw <= bar_piece_count.
Proof.
  unfold is_long, in_range, draw_piece_raw, draw_completed.
  intros Hl Hr Hc Hn. rewrite Hc.
  destruct (Z.ltb_spec (max b) 0) as [Hm|Hm].
  - destruct Hr as [H0 _]. exact (percent_fill_defined _ _ Hn H0 Hc).
  - apply Z.leb_gt in Hc. apply steps_fill_defined; lia.
Qed.

Lemma raw_complete b bar_piece_count :
  draw_completed b = true -> 0 <= bar_piece_count <= Mach.INT_MAX ->
  draw_piece_raw b bar_piece_count = Some bar_piece_count.
Proof.
  intros Hc Hn. unfold draw_piece_raw. rewrite Hc.
  apply to_int_of_int. unfold Mach.INT_MIN, Mach.INT_MAX in *. lia.
Qed.

(** The three quantities of the gauge when the bar is complete. *)
Lemma complete_counts b bar_piece_count :
  draw_completed b = true -> 0 <= bar_piece_count <= Mach.INT_MAX ->
  draw_piece_current b bar_piece_count = bar_piece_count /\
  draw_tumbler b bar_piece_count bar_piece_count = false /\
  draw_unfilled b bar_piece_count bar_piece_count = 0.
Proof.
  intros Hc Hn. unfold draw_piece_current, draw_tumbler, draw_unfilled.
  rewrite Hc, Z.ltb_irrefl, andb_false_r, Z.eqb_refl. simpl orb.
  split; [reflexivity|]. split; [reflexivity|].
  replace (if tumbler_length b =? 0 then 0 else 0) with 0
    by (destruct (tumbler_length b =? 0); reflexivity).
  unfold Mach.isub. rewrite Z.sub_diag.
  rewrite (to_int_id 0) by (unfold Mach.INT_MIN, Mach.INT_MAX; lia).
  apply to_int_id. unfold Mach.INT_MIN, Mach.INT_MAX; lia.
Qed.

(** The three quantities when the bar is not complete, by cases on the
    tumbler length and on the raw fill count. *)
Lemma running_counts b bar_piece_count raw :
  draw_completed b = false -> 0 <= raw <= bar_piece_count ->
  bar_piece_count <= Mach.INT_MAX ->
  let cur := draw_piece_current b raw in
  (tumbler_length b = 0 ->
     cur = raw /\ draw_tumbler b bar_piece_count cur = false /\
     draw_unfilled b bar_piece_count cur = bar_piece_count - raw) /\
  (tumbler_length b <> 0 -> raw = 0 ->
     cur = 0 /\
     draw_tumbler b bar_piece_count cur =
       (0 <? tumbler_length b) && (0 <? bar_piece_count) /\
     draw_unfilled b bar_piece_count cur =
       bar_piece_count - (if bar_piece_count =? 0 then 0 else 1)) /\
  (tumbler_length b <> 0 -> 0 < raw ->
     cur = raw - 1 /\
     draw_tumbler b bar_piece_count cur = (0 <? tumbler_length b) /\
     draw_unfilled b bar_piece_count cur = bar_piece_count - raw).
Proof.
  intros Hc Hr Hn cur. unfold cur, draw_piece_current, draw_tumbler, draw_unfilled.
  rewrite Hc. simpl orb. unfold Mach.INT_MAX in Hn.
  split; [|split].
  - intros T. rewrite T. change (0 =? 0) with true. change (0 <? 0) with false.
    cbv iota. rewrite andb_false_l.
    isub_norm. repeat split; lia.
  - intros T R. subst raw.
    destruct (Z.eqb_spec (tumbler_length b) 0) as [|_]; [contradiction|].
    change (0 =? 0) with true. cbv iota.
    split; [reflexivity|]. split; [reflexivity|].
    rewrite (Z.eqb_sym 0 bar_piece_count).
    destruct (Z.eqb_spec bar_piece_count 0); isub_norm; lia.
  - intros T R.
    destruct (Z.eqb_spec (tumbler_length b) 0) as [|_]; [contradiction|].
    destruct (Z.eqb_spec raw 0) as [|_]; [lia|].
    isub_norm.
    split; [reflexivity|]. split.
    + replace (raw - 1 <? bar_piece_count) with true
        by (symmetry; apply Z.ltb_lt; lia).
      apply andb_true_r.
    + destruct (Z.eqb_spec (raw - 1) bar_piece_count); [lia|].
      isub_norm. lia.
Qed.

Lemma tumbler_cell_le t c :
  0 <= c -> 0 <= (if (0 <? t) && (0 <? c) then 1 else 0) <= c.
Proof.
  intros Hc. destruct (Z.ltb_spec 0 t), (Z.ltb_spec 0 c); simpl; lia.
Qed.

Lemma tumbler_cell_bounds (t : Z) : 0 <= (if 0 <? t then 1 else 0) <= 1.
Proof. destruct (0 <? t); lia. Qed.

End Gauge.

(** A bar in steps mode at 5 of 10, and one in percent mode at one
    half, with the default glyphs and no tumbler. *)
Definition default_glyphs : format_t :=
  {| fmt_begin := "|"; fmt_fill := "="; fmt_unfilled := " "; fmt_end := "|" |}.

Definition sample_steps_bar (max value : Z) (tumbler : ptr) (tumbler_length : Z) : progressbar :=
  {| max := max; slot := Mach.to_size_t value; start := 0; label := 100;
     format := default_glyphs; tumbler_format := tumbler;
     tumbler_length := tumbler_length; tumbler_pos := 0 |}.

Definition sample_percent_bar (bits : Z) : progressbar :=
  {| max := -1; slot := bits; start := 0; label := 100;
     format := default_glyphs; tumbler_format := NULL;
     tumbler_length := 0; tumbler_pos := 0 |}.

(** C10.  Whatever width the probe reports, negative values included,
    and whatever the length of the label, the bar is at least 10 columns
    wide and has at least 8 interior pieces; and when the progress is in
    range, the fill count of the draw is defined and both repeat counts
    handed to the emission loop are non-negative. *)
Theorem C10_minimum_width_and_counts :
  (forall screen_width label_length,
     MINIMUM_BAR_WIDTH <= progressbar_bar_width screen_width label_length /\
     8 <= Mach.isub (progressbar_bar_width screen_width label_length) BAR_BORDER_WIDTH) /\
  (forall b screen_width label_length,
     is_long (max b) -> in_range b ->
     let bar_piece_count :=
       Mach.isub (progressbar_bar_width screen_width label_length) BAR_BORDER_WIDTH in
     exists raw,
       draw_piece_raw b bar_piece_count = Some raw /\
       0 <= draw_piece_current b raw /\
       0 <= draw_unfilled b bar_piece_count (draw_piece_current b raw)).
Proof.
  split.
  - intros screen_width label_length. split.
    + apply Layout.bar_width_bounds.
    + apply Layout.piece_count_bounds.
  - intros b screen_width label_length Hl Hr bar_piece_count.
    pose proof (Layout.piece_count_bounds screen_width label_length) as Hn.
    fold bar_piece_count in Hn.
    destruct (draw_completed b) eqn:Hc.
    + exists bar_piece_count.
      destruct (Gauge.complete_counts b bar_piece_count Hc ltac:(lia)) as (E1 & _ & E3).
      rewrite E1, E3.
      split; [apply Gauge.raw_complete; [assumption|lia]|]. lia.
    + destruct (Gauge.raw_in_range b bar_piece_count Hl Hr Hc ltac:(lia)) as (raw & E & R).
      exists raw. split; [exact E|].
      destruct (Gauge.running_counts b bar_piece_count raw Hc R ltac:(lia))
        as (K0 & K1 & K2).
      destruct (Z.eq_dec (tumbler_length b) 0) as [T|T].
      * destruct (K0 T) as (-> & _ & ->). lia.
      * destruct (Z.eq_dec raw 0) as [Z0|Z0].
        -- destruct (K1 T Z0) as (-> & _ & ->).
           destruct (bar_piece_count =? 0); lia.
        -- destruct (K2 T ltac:(lia)) as (-> & _ & ->). lia.
Qed.

Lemma C10_witness :
  is_long (max (sample_steps_bar 10 5 NULL 0)) /\
  in_range (sample_steps_bar 10 5 NULL 0) /\
  exists raw,
    draw_piece_raw (sample_steps_bar 10 5 NULL 0)
      (Mach.isub (progressbar_bar_width (-1) 8) BAR_BORDER_WIDTH) = Some raw /\
    0 <= draw_piece_current (sample_steps_bar 10 5 NULL 0) raw /\
    0 <= draw_unfilled (sample_steps_bar 10 5 NULL 0)
           (Mach.isub (progressbar_bar_width (-1) 8) BAR_BORDER_WIDTH)
           (draw_piece_current (sample_steps_bar 10 5 NULL 0) raw).
Proof.
  assert (H1 : is_long (max (sample_steps_bar 10 5 NULL 0)))
    by (unfold is_long; simpl; lia).
  assert (H2 : in_range (sample_steps_bar 10 5 NULL 0))
    by (vm_compute; split; discriminate).
  split; [exact H1|]. split; [exact H2|].
  exact (proj2 C10_minimum_width_and_counts (sample_steps_bar 10 5 NULL 0) (-1) 8 H1 H2).
Defined.

(** C8.  In steps mode, with the maximum, the tumbler and the piece
    count fixed, the number of advanced cells (fill glyphs, plus the
    tumbler cell when it is drawn) does not decrease when the value
    grows, over all values from zero on. *)
Theorem C8_advanced_cells_monotone (b1 b2 : progressbar) (bar_piece_count : Z) :
  is_long (max b1) -> 0 <= max b1 ->
  max b2 = max b1 -> tumbler_length b2 = tumbler_length b1 ->
  0 <= bar_piece_count <= Mach.INT_MAX ->
  0 <= value b1 <= value b2 ->
  exists raw1 raw2,
    draw_piece_raw b1 bar_piece_count = Some raw1 /\
    draw_piece_raw b2 bar_piece_count = Some raw2 /\
    advanced_cells b1 bar_piece_count raw1 <= advanced_cells b2 bar_piece_count raw2.
Proof.
  intros Hl Hm Em Et Hn Hv.
  assert (Hl2 : is_long (max b2)) by (rewrite Em; exact Hl).
  assert (R1 : in_range b1 \/ draw_completed b1 = true).
  { unfold in_range, draw_completed.
    destruct (Z.ltb_spec (max b1) 0); [lia|].
    destruct (Z.leb_spec (max b1) (value b1)); [right; reflexivity|left; lia]. }
  assert (R2 : in_range b2 \/ draw_completed b2 = true).
  { unfold in_range, draw_completed. rewrite Em.
    destruct (Z.ltb_spec (max b1) 0); [lia|].
    destruct (Z.leb_spec (max b1) (value b2)); [right; reflexivity|left; lia]. }
  assert (S : forall r, 0 <= r <= bar_piece_count -> Mach.to_size_t r = r).
  { intros r Hr. apply MachFacts.to_size_t_id. unfold Mach.INT_MAX in Hn. lia. }
  pose proof (Gauge.tumbler_cell_le (tumbler_length b1) bar_piece_count ltac:(lia)) as TC.
  pose proof (Gauge.tumbler_cell_bounds (tumbler_length b1)) as TB.
  unfold advanced_cells.
  destruct (draw_completed b2) eqn:C2.
  - (* the larger value completes the bar: every piece is advanced *)
    destruct (Gauge.complete_counts b2 bar_piece_count C2 Hn) as (E1 & E2 & _).
    exists (if draw_completed b1 then bar_piece_count
            else match draw_piece_raw b1 bar_piece_count with
                 | Some r => r | None => 0 end), bar_piece_count.
    destruct (draw_completed b1) eqn:C1.
    + destruct (Gauge.complete_counts b1 bar_piece_count C1 Hn) as (F1 & F2 & _).
      split; [apply Gauge.raw_complete; assumption|].
      split; [apply Gauge.raw_complete; assumption|].
      rewrite E1, E2, F1, F2. lia.
    + destruct R1 as [R1|R1]; [|congruence].
      destruct (Gauge.raw_in_range b1 bar_piece_count Hl R1 C1 Hn) as (raw & E & R).
      rewrite E. split; [reflexivity|].
      split; [apply Gauge.raw_complete; assumption|].
      rewrite E1, E2, (S bar_piece_count) by lia.
      destruct (Gauge.running_counts b1 bar_piece_count raw C1 R ltac:(lia))
        as (K0 & K1 & K2).
      destruct (Z.eq_dec (tumbler_length b1) 0) as [T|T].
      * destruct (K0 T) as (-> & -> & _). rewrite S by lia. lia.
      * destruct (Z.eq_dec raw 0) as [Z0|Z0].
        -- destruct (K1 T Z0) as (-> & -> & _). rewrite S by lia. lia.
        -- destruct (K2 T ltac:(lia)) as (-> & -> & _). rewrite S by lia. lia.
  - (* neither value completes the bar *)
    assert (C1 : draw_completed b1 = false).
    { unfold draw_completed in *. rewrite Em in C2.
      destruct (Z.ltb_spec (max b1) 0); [lia|].
      apply Z.leb_gt. apply Z.leb_gt in C2. lia. }
    destruct R1 as [R1|R1]; [|congruence].
    destruct R2 as [R2|R2]; [|congruence].
    destruct (Gauge.raw_in_range b1 bar_piece_count Hl R1 C1 Hn) as (raw1 & E1 & B1).
    destruct (Gauge.raw_in_range b2 bar_piece_count Hl2 R2 C2 Hn) as (raw2 & E2 & B2).
    exists raw1, raw2. split; [exact E1|]. split; [exact E2|].
    assert (Hmono : raw1 <= raw2).
    { unfold draw_piece_raw in E1, E2. rewrite C1 in E1. rewrite C2 in E2.
      rewrite Em in E2.
      assert (V2 : value b2 < max b1).
      { unfold draw_completed in C2. rewrite Em in C2.
        destruct (Z.ltb_spec (max b1) 0); [lia|]. apply Z.leb_gt in C2. lia. }
      destruct (Z.ltb_spec (max b1) 0); [lia|].
      unfold is_long in Hl.
      exact (FloatApi.steps_fill_mono bar_piece_count (value b1) (value b2) (max b1)
               raw1 raw2 Hn Hv ltac:(lia) ltac:(lia) E1 E2). }
    destruct (Gauge.running_counts b1 bar_piece_count raw1 C1 B1 ltac:(lia))
      as (K0 & K1 & K2).
    destruct (Gauge.running_counts b2 bar_piece_count raw2 C2 B2 ltac:(lia))
      as (L0 & L1 & L2).
    rewrite Et in L0, L1, L2.
    destruct (Z.eq_dec (tumbler_length b1) 0) as [T|T].
    + destruct (K0 T) as (-> & -> & _). destruct (L0 T) as (-> & -> & _).
      rewrite !S by lia. lia.
    + destruct (Z.eq_dec raw1 0) as [Z1|Z1]; destruct (Z.eq_dec raw2 0) as [Z2|Z2].
      * destruct (K1 T Z1) as (-> & -> & _). destruct (L1 T Z2) as (-> & -> & _). lia.
      * destruct (K1 T Z1) as (-> & -> & _).
        destruct (L2 T ltac:(lia)) as (-> & -> & _).
        rewrite !S by lia.
        destruct (Z.ltb_spec 0 (tumbler_length b1)); simpl andb; cbv iota; [|lia].
        destruct (0 <? bar_piece_count); lia.
      * lia.
      * destruct (K2 T ltac:(lia)) as (-> & -> & _).
        destruct (L2 T ltac:(lia)) as (-> & -> & _).
        rewrite !S by lia. lia.
Qed.

Lemma C8_witness :
  exists raw1 raw2,
    draw_piece_raw (sample_steps_bar 10 3 300 4) 55 = Some raw1 /\
    draw_piece_raw (sample_steps_bar 10 7 300 4) 55 = Some raw2 /\
    advanced_cells (sample_steps_bar 10 3 300 4) 55 raw1
      <= advanced_cells (sample_steps_bar 10 7 300 4) 55 raw2.
Proof.
  apply (C8_advanced_cells_monotone (sample_steps_bar 10 3 300 4)
           (sample_steps_bar 10 7 300 4) 55).
  - unfold is_long. simpl. lia.
  - simpl. lia.
  - reflexivity.
  - reflexivity.
  - unfold Mach.INT_MAX. lia.
  - vm_compute. split; discriminate.
Defined.

(** ** Concrete worlds *)

(** A world with a failing termcap database (the probe answers 80), a
    clock that stands still, and the caller's strings: a label at 100,
    the default glyphs at 200, a tumbler at 300, the empty label at
    400. *)
Definition sample_world : world :=
  {| heap := ∅;
     next_block := 1;
     strings := <[100 := "Emerging"%string]>
                  (<[200 := "|= |"%string]>
                     (<[300 := "/-\|"%string]>
                        (<[400 := ""%string]> ∅)));
     stderr := [];
     clock := fun _ => 0;
     ticks := 0;
     malloc_ok := true;
     junk := sample_percent_bar 0;
     tgetent_result := -1;
     tgetnum_co := -1 |}.

(** The same world with one bar allocated at address 1. *)
Definition world_with_bar (b : progressbar) : world :=
  with_heap (<[1 := b]> ∅) sample_world.

(** The same world when the terminal type has no entry: [tgetent]
    answers 0 and [tgetnum] answers -1. *)
Definition unknown_terminal_world : world :=
  {| heap := heap sample_world; next_block := next_block sample_world;
     strings := strings sample_world; stderr := stderr sample_world;
     clock := clock sample_world; ticks := ticks sample_world;
     malloc_ok := malloc_ok sample_world; junk := junk sample_world;
     tgetent_result := 0; tgetnum_co := -1 |}.

(** The bytes written before the first carriage return. *)
Fixpoint columns_before_cr (bytes : list ascii) : nat :=
  match bytes with
  | [] => O
  | c :: rest => if Ascii.eqb c "013" then O else S (columns_before_cr rest)
  end.

(** The column count of property P1: the bar width after the growth
    granted when no label is drawn, the label and its space, the space
    before the time field, and the time field. *)
Definition claimed_columns (screen_width label_length : Z) : Z :=
  let bar_width := progressbar_bar_width screen_width label_length in
  let label_width := progressbar_label_width screen_width label_length bar_width in
  let bar_width := if label_width =? 0 then Mach.iadd bar_width 1 else bar_width in
  bar_width + (if 0 <? label_width then label_width + 1 else 0) + 1 + ETA_FORMAT_LENGTH.

(** The text written by a computation, when it returns. *)
Definition written {A} (r : result A) : option string :=
  match r with
  | Ok _ w => Some (string_of_list_ascii (stderr w))
  | Fault _ => None
  end.

Definition returned_value {A} (r : result A) : option A :=
  match r with
  | Ok a _ => Some a
  | Fault _ => None
  end.

(** ** The constructors *)

(** C6, at the failing input.  With the default glyphs and a successful
    allocation, [progressbar_new_percent_with_format] allocates the bar,
    fills it in and draws it, and then reaches its closing brace: the
    caller receives no pointer, and the block stays allocated.  The
    sibling with a tumbler argument returns the bar on the same input. *)
Theorem C6_percent_constructor_returns_nothing :
  malloc_ok sample_world = true /\
  match progressbar_new_percent_with_format 100 200 sample_world with
  | Ok r w' => r = NoReturn /\ is_Some (heap w' !! 1) /\ stderr w' <> []
  | Fault _ => False
  end /\
  returned_value (progressbar_new_percent 200 100 sample_world) = Some NoReturn /\
  returned_value
    (progressbar_new_percent_with_format_and_tumbler 100 200 NULL sample_world)
  = Some (Return 1).
Proof.
  vm_compute.
  split; [reflexivity|]. split; [|split; reflexivity].
  split; [reflexivity|]. split; [eexists; reflexivity|discriminate].
Qed.

(** Whatever the world, the function never returns the bar it
    allocated. *)
Lemma percent_with_format_never_returns_bar label format w r w' :
  progressbar_new_percent_with_format label format w = Ok r w' ->
  r = NoReturn \/ (r = Return NULL /\ malloc_ok w = false).
Proof.
  unfold progressbar_new_percent_with_format, bind at 1, malloc.
  destruct (malloc_ok w) eqn:Hm.
  - assert (Hp : (Z.max 1 (next_block w) =? NULL) = false)
      by (apply Z.eqb_neq; unfold NULL; lia).
    rewrite Hp.
    unfold bind.
    repeat match goal with
           | |- context [match ?c with Ok _ _ => _ | Fault _ => _ end] =>
               destruct c; try discriminate
           end.
    intros [= <- _]. left. reflexivity.
  - change (NULL =? NULL) with true. cbv iota.
    intros [= <- _]. right. split; reflexivity.
Qed.

(** ** The width probe *)

(** C7, at the failing input.  When the terminal type has no entry,
    [tgetent] answers 0; the probe takes that for success and returns
    the answer of [tgetnum], -1, as an [unsigned int].  The draw then
    computes its layout with a screen width of -1, not 80. *)
Theorem C7_unknown_terminal_is_not_defaulted :
  tgetent_result unknown_terminal_world = 0 /\
  get_screen_width unknown_terminal_world = Ok 4294967295 unknown_terminal_world /\
  Mach.to_int 4294967295 = -1 /\
  4294967295 <> Mach.to_uint DEFAULT_SCREEN_WIDTH /\
  written (progressbar_new_with_format 100 10 200 unknown_terminal_world)
  = Some ("|        | ETA: 0h00m00s" ++ String "013" "")%string /\
  written (progressbar_new_with_format 100 10 200 sample_world)
  = Some ("Emerging |                                                       | ETA: 0h00m00s"
            ++ String "013" "")%string.
Proof. vm_compute. repeat split; try reflexivity. discriminate. Qed.

(** The fallback is taken when [tgetent] answers a negative value. *)
Lemma get_screen_width_default w :
  tgetent_result w < 0 -> get_screen_width w = Ok DEFAULT_SCREEN_WIDTH w.
Proof.
  intros H. unfold get_screen_width.
  destruct (Z.leb_spec 0 (tgetent_result w)); [lia|reflexivity].
Qed.

(** ** Width accounting *)

(** The steps-mode bar at 0 of 10 with the empty label. *)
Definition unlabelled_bar : progressbar :=
  {| max := 10; slot := 0; start := 0; label := 400;
     format := default_glyphs; tumbler_format := NULL;
     tumbler_length := 0; tumbler_pos := 0 |}.

(** C1, at the failing input.  On an 80-column screen with an empty
    label the layout computes a bar width of 65, a label width of 0,
    and grows the bar width to 66; the draw nevertheless writes a gauge
    of 65 columns, because the piece count was taken before the growth.
    79 columns are written before the carriage return, where property
    P1 promises 80. *)
Theorem C1_bar_growth_is_not_drawn :
  progressbar_bar_width 80 0 = 65 /\
  progressbar_label_width 80 0 65 = 0 /\
  claimed_columns 80 0 = 80 /\
  match progressbar_draw 1 (world_with_bar unlabelled_bar) with
  | Ok _ w' => Z.of_nat (columns_before_cr (stderr w')) = 79
  | Fault _ => False
  end /\
  written (progressbar_draw 1 (world_with_bar unlabelled_bar))
  = Some ("|                                                               | ETA: 0h00m00s"
            ++ String "013" "")%string.
Proof. vm_compute. repeat split; reflexivity. Qed.

(** ** Relabelling *)

(** C9.  [progressbar_update_label] writes nothing, allocates nothing,
    reads no clock and leaves the caller's strings alone; in the bar it
    replaces the label pointer and no other field.  The string is not
    copied: any later draw of that bar takes its label bytes from
    whatever the pointer designates in the world of the draw. *)
Theorem C9_relabel_is_lazy (w : world) (bar : ptr) (b : progressbar) (new_label : ptr) :
  heap w !! bar = Some b ->
  let b1 := set_label new_label b in
  let w1 := with_heap (<[bar := b1]> (heap w)) w in
  progressbar_update_label bar new_label w = Ok tt w1 /\
  (stderr w1 = stderr w /\ strings w1 = strings w /\
   next_block w1 = next_block w /\ ticks w1 = ticks w) /\
  (forall p, p <> bar -> heap w1 !! p = heap w !! p) /\
  heap w1 !! bar = Some b1 /\
  (label b1 = new_label /\ max b1 = max b /\ slot b1 = slot b /\ start b1 = start b /\
   format b1 = format b /\ tumbler_format b1 = tumbler_format b /\
   tumbler_length b1 = tumbler_length b /\ tumbler_pos b1 = tumbler_pos b) /\
  (forall w2 u w3,
     heap w2 !! bar = Some b1 -> progressbar_draw bar w2 = Ok u w3 ->
     exists lbl label_part rest,
       strings w2 !! new_label = Some lbl /\
       Run.label_bytes lbl (Run.label_width_of w2 lbl) = Some label_part /\
       stderr w3 = stderr w2 ++ label_part ++ rest).
Proof.
  intros Hb b1 w1.
  split; [exact (Run.store_run bar (set_label new_label) w b Hb)|].
  split; [repeat split; reflexivity|].
  split; [intros p Hp; apply lookup_insert_ne; congruence|].
  split; [apply lookup_insert_eq|].
  split; [repeat split; reflexivity|].
  intros w2 u w3 Hb2 Hd.
  destruct (Run.draw_inv bar w2 u w3 Hd)
    as (b' & lbl & raw & secs & label_part & tumbler_part & b'' &
        Hb' & Hl & _ & _ & Hp & _ & ->).
  rewrite Hb2 in Hb'. injection Hb' as <-.
  exists lbl, label_part. eexists.
  split; [exact Hl|]. split; [exact Hp|].
  unfold Run.after_draw, Run.emit, Run.draw_bytes.
  change (stderr (with_stderr ?o _)) with o.
  change (stderr (with_heap _ (with_ticks _ w2))) with (stderr w2).
  reflexivity.
Qed.

Lemma C9_witness :
  heap (world_with_bar (sample_steps_bar 10 5 NULL 0)) !! 1
    = Some (sample_steps_bar 10 5 NULL 0) /\
  progressbar_update_label 1 400 (world_with_bar (sample_steps_bar 10 5 NULL 0))
    = Ok tt (with_heap
               (<[1 := set_label 400 (sample_steps_bar 10 5 NULL 0)]>
                  (heap (world_with_bar (sample_steps_bar 10 5 NULL 0))))
               (world_with_bar (sample_steps_bar 10 5 NULL 0))).
Proof.
  assert (H : heap (world_with_bar (sample_steps_bar 10 5 NULL 0)) !! 1
              = Some (sample_steps_bar 10 5 NULL 0)) by (vm_compute; reflexivity).
  split; [exact H|].
  exact (proj1 (C9_relabel_is_lazy _ 1 _ 400 H)).
Defined.

(** ** Finishing *)

(** C5.  [progressbar_finish] first forces completion: in percent mode
    it stores 1.0 in the progress cell, in steps mode it stores
    nothing; no other field of the bar changes and nothing is written
    yet.  It then performs one draw, whose bytes end with a carriage
    return, writes one newline, and releases the bar. *)
Theorem C5_finish (w : world) (bar : ptr) (b : progressbar) :
  heap w !! bar = Some b -> bar <> NULL ->
  let b1 := if max b <? 0 then set_percent_bits Dbl.bits_one b else b in
  let w1 := if max b <? 0 then with_heap (<[bar := b1]> (heap w)) w else w in
  ((max b < 0 -> percent b1 = Dbl.one /\ draw_completed b1 = true) /\
   (0 <= max b -> b1 = b /\ w1 = w)) /\
  (max b1 = max b /\ start b1 = start b /\ label b1 = label b /\
   format b1 = format b /\ tumbler_format b1 = tumbler_format b /\
   tumbler_length b1 = tumbler_length b /\ tumbler_pos b1 = tumbler_pos b) /\
  (heap w1 !! bar = Some b1 /\ stderr w1 = stderr w /\ strings w1 = strings w) /\
  progressbar_finish bar w =
    match progressbar_draw bar w1 with
    | Ok _ w2 =>
        Ok tt (with_heap (delete bar (heap w2))
                 (with_stderr (stderr w2 ++ ["010"%char]) w2))
    | Fault f => Fault f
    end /\
  (forall u w2,
     progressbar_draw bar w1 = Ok u w2 ->
     exists line, stderr w2 = stderr w ++ line ++ ["013"%char]).
Proof.
  intros Hb Hnull b1 w1.
  assert (Hb1 : heap w1 !! bar = Some b1).
  { unfold w1, b1. destruct (max b <? 0); [apply lookup_insert_eq|exact Hb]. }
  assert (Hs1 : stderr w1 = stderr w)
    by (unfold w1; destruct (max b <? 0); reflexivity).
  split; [split|].
  - intros Hm. unfold b1.
    replace (max b <? 0) with true by (symmetry; apply Z.ltb_lt; lia).
    split; [vm_compute; reflexivity|].
    unfold draw_completed. simpl max.
    replace (max b <? 0) with true by (symmetry; apply Z.ltb_lt; lia).
    vm_compute. reflexivity.
  - intros Hm. unfold w1, b1.
    replace (max b <? 0) with false by (symmetry; apply Z.ltb_ge; lia).
    split; reflexivity.
  - split; [unfold b1; destruct (max b <? 0); repeat split; reflexivity|].
    split; [split; [exact Hb1|split; [exact Hs1|]]|].
    { unfold w1; destruct (max b <? 0); reflexivity. }
    split.
    + unfold progressbar_finish.
      rewrite (Run.bind_ok _ _ _ _ _ (Run.load_run bar w b Hb)).
      assert (Hforce :
        (if max b <? 0 then store bar (set_percent_bits Dbl.bits_one) else ret tt) w
        = Ok tt w1).
      { unfold w1, b1. destruct (max b <? 0).
        - exact (Run.store_run bar _ w b Hb).
        - reflexivity. }
      rewrite (Run.bind_ok _ _ _ _ _ Hforce).
      unfold bind at 1.
      destruct (progressbar_draw bar w1) as [u w2|f] eqn:Hd; [|reflexivity].
      destruct (Run.draw_inv bar w1 u w2 Hd)
        as (b' & lbl & raw & secs & label_part & tumbler_part & b'' &
            Hb' & _ & _ & _ & _ & _ & ->).
      destruct (Run.after_draw_heap bar w1 b' lbl raw secs label_part tumbler_part b'' Hb')
        as (b2 & Hb2).
      rewrite (Run.bind_ok _ _ _ _ _ (Run.fprintf_run newline [] _)).
      unfold progressbar_free, free.
      replace (bar =? NULL) with false by (symmetry; apply Z.eqb_neq; exact Hnull).
      rewrite Run.heap_emit, Hb2. reflexivity.
    + intros u w2 Hd.
      destruct (Run.draw_inv bar w1 u w2 Hd)
        as (b' & lbl & raw & secs & label_part & tumbler_part & b'' &
            _ & _ & _ & _ & _ & _ & ->).
      rewrite <- Hs1. apply Run.after_draw_stderr.
Qed.

Lemma C5_witness :
  written (progressbar_finish 1 (world_with_bar (sample_percent_bar 0)))
  = written
      (match progressbar_draw 1
               (with_heap (<[1 := set_percent_bits Dbl.bits_one (sample_percent_bar 0)]>
                             (heap (world_with_bar (sample_percent_bar 0))))
                  (world_with_bar (sample_percent_bar 0))) with
       | Ok _ w2 =>
           Ok tt (with_heap (delete 1 (heap w2))
                    (with_stderr (stderr w2 ++ ["010"%char]) w2))
       | Fault f => Fault f
       end).
Proof.
  assert (H : heap (world_with_bar (sample_percent_bar 0)) !! 1
              = Some (sample_percent_bar 0)) by (vm_compute; reflexivity).
  assert (N : 1 <> NULL) by discriminate.
  pose proof (C5_finish (world_with_bar (sample_percent_bar 0)) 1 (sample_percent_bar 0) H N)
    as (_ & _ & _ & E & _).
  rewrite E. reflexivity.
Defined.

(** ** Remaining time *)

(** The estimate in the words of the specification: in steps mode
    [(elapsed / value) * (max - value)] when the value and the elapsed
    time are positive, in percent mode
    [(elapsed / fraction) * (1 - fraction)] when the fraction and the
    elapsed time are positive, and 0 otherwise; converted to [int]. *)
Definition remaining_claimed (b : progressbar) (now : Z) : option Z :=
  let elapsed := difftime now (start b) in
  if max b <? 0 then
    if Dbl.ltb Dbl.zero (percent b) && Dbl.ltb Dbl.zero elapsed
    then Dbl.to_int (Dbl.mul (Dbl.div elapsed (percent b)) (Dbl.sub Dbl.one (percent b)))
    else Some 0
  else
    if (0 <? value b) && Dbl.ltb Dbl.zero elapsed
    then Dbl.to_int (Dbl.mul (Dbl.div elapsed (Dbl.of_Z (value b)))
                       (Dbl.of_Z (max b - value b)))
    else Some 0.


(** A draw that gets as far as the estimate has a fraction that is a
    number: with a NaN the conversion of the fill count is undefined
    first. *)
Lemma fraction_is_a_number_in_draw (b : progressbar) (bar_piece_count raw : Z) :
  max b < 0 -> draw_piece_raw b bar_piece_count = Some raw -> percent b <> S754_nan.
Proof.
  intros Hm Hr Hnan. unfold draw_piece_raw, draw_completed in Hr.
  replace (max b <? 0) with true in Hr by (symmetry; apply Z.ltb_lt; lia).
  rewrite Hnan in Hr.
  change (Dbl.leb Dbl.one S754_nan) with false in Hr. cbv iota in Hr.
  unfold Dbl.mul in Hr.
  destruct (Dbl.of_Z bar_piece_count); discriminate Hr.
Qed.


(** The sample world ten seconds after the bar was started. *)
Definition later_world (b : progressbar) : world :=
  {| heap := <[1 := b]> ∅; next_block := 2;
     strings := strings sample_world; stderr := [];
     clock := fun _ => 10; ticks := 0;
     malloc_ok := true; junk := b;
     tgetent_result := -1; tgetnum_co := -1 |}.


(** In percent mode at one quarter, ten seconds in, thirty remain. *)
Example remaining_at_one_quarter :
  Run.remaining_at (sample_percent_bar (1021 * 2 ^ 52)) 10 = Some 30 /\
  remaining_claimed (sample_percent_bar (1021 * 2 ^ 52)) 10 = Some 30.
Proof. vm_compute. split; reflexivity. Qed.

(** ** The tumbler before the first fill glyph *)




(** ** Progress outside the expected range *)

(** Progress at or above the maximum, and progress below zero, in the
    mode of the bar. *)
Definition at_or_above_maximum (b : progressbar) : Prop :=
  if max b <? 0 then Dbl.leb Dbl.one (percent b) = true else max b <= value b.

Definition below_zero (b : progressbar) : Prop :=
  if max b <? 0 then Dbl.ltb (percent b) Dbl.zero = true else value b < 0.

Module OutOfRange.
Import MachFacts FloatApi.

Lemma complete_iff b : at_or_above_maximum b <-> draw_completed b = true.
Proof.
  unfold at_or_above_maximum, draw_completed.
  destruct (max b <? 0); [reflexivity|]. symmetry. apply Z.leb_le.
Qed.

Lemma negative_not_above_one x :
  Dbl.ltb x Dbl.zero = true -> Dbl.leb Dbl.one x = false.
Proof.
  destruct x as [s|s| |s m e]; try discriminate.
  - destruct s; [reflexivity|discriminate].
  - destruct s; [reflexivity|discriminate].
Qed.

Lemma below_zero_running b : is_long (max b) -> below_zero b -> draw_completed b = false.
Proof.
  unfold below_zero, draw_completed, is_long. intros Hl.
  destruct (Z.ltb_spec (max b) 0) as [Hm|Hm].
  - apply negative_not_above_one.
  - intros Hv. apply Z.leb_gt. lia.
Qed.

Lemma to_int_some_range x z :
  Dbl.to_int x = Some z -> Mach.INT_MIN <= z <= Mach.INT_MAX.
Proof.
  unfold Dbl.to_int. destruct (Dbl.trunc x) as [t|]; [|discriminate].
  destruct (Z.leb_spec Mach.INT_MIN t); [|discriminate].
  destruct (Z.leb_spec t Mach.INT_MAX); [|discriminate].
  simpl. intros [= <-]. lia.
Qed.

(** Below zero, the fill count of a draw is never positive. *)
Lemma raw_below_zero b bar_piece_count raw :
  is_long (max b) -> below_zero b -> 0 <= bar_piece_count ->
  draw_piece_raw b bar_piece_count = Some raw ->
  Mach.INT_MIN <= raw <= 0.
Proof.
  intros Hl Hz Hn Hr.
  pose proof (below_zero_running b Hl Hz) as Hc.
  unfold draw_piece_raw in Hr. rewrite Hc in Hr.
  pose proof (to_int_some_range _ _ Hr) as [Hlo _].
  split; [exact Hlo|].
  unfold below_zero in Hz.
  destruct (Z.ltb_spec (max b) 0) as [Hm|Hm].
  - exact (percent_fill_negative _ _ _ Hn Hz Hr).
  - exact (steps_fill_negative _ _ _ _ Hn Hz Hm Hr).
Qed.

(** The number of fill glyphs written for a fill count that is
    negative: the count, less the tumbler cell, read as a [size_t]. *)
Lemma negative_fill_wraps b raw :
  draw_completed b = false -> Mach.INT_MIN <= raw < 0 ->
  Mach.to_size_t (draw_piece_current b raw) =
  if tumbler_length b =? 0 then 2 ^ 64 + raw
  else if raw =? Mach.INT_MIN then Mach.INT_MAX
  else 2 ^ 64 + raw - 1.
Proof.
  unfold Mach.INT_MIN, Mach.INT_MAX. intros Hc Hr.
  unfold draw_piece_current. rewrite Hc. simpl orb.
  destruct (tumbler_length b =? 0).
  - apply to_size_t_neg. lia.
  - destruct (Z.eqb_spec raw 0) as [|_]; [lia|].
    destruct (Z.eqb_spec raw (- 2 ^ 31)) as [->|Hne].
    + vm_compute. reflexivity.
    + rewrite Gauge.isub_id by lia.
      rewrite to_size_t_neg by lia. lia.
Qed.

End OutOfRange.

(** C3, refuted at a concrete input.  A steps-mode bar at -5 of 10
    without a tumbler, drawn with 55 interior pieces: the fill count is
    -27, and the repeat count handed to the emission loop is that
    number as a [size_t], 2^64 - 27; the draw writes that many fill
    glyphs after the left border, not zero. *)
Lemma C3_counterexample :
  value (sample_steps_bar 10 (-5) NULL 0) = -5 /\
  Run.piece_count_of (world_with_bar (sample_steps_bar 10 (-5) NULL 0)) "Emerging" = 55 /\
  draw_piece_raw (sample_steps_bar 10 (-5) NULL 0) 55 = Some (-27) /\
  Mach.to_size_t (draw_piece_current (sample_steps_bar 10 (-5) NULL 0) (-27))
  = 18446744073709551589 /\
  Mach.to_size_t (draw_piece_current (sample_steps_bar 10 (-5) NULL 0) (-27)) <> 0 /\
  exists w' rest,
    progressbar_draw 1 (world_with_bar (sample_steps_bar 10 (-5) NULL 0)) = Ok tt w' /\
    stderr w' =
    list_ascii_of_string "Emerging " ++ ["|"%char]
      ++ repeat "="%char (Z.to_nat 18446744073709551589) ++ rest.
Proof.
  split; [vm_compute; reflexivity|]. split; [vm_compute; reflexivity|].
  split; [vm_compute; reflexivity|]. split; [vm_compute; reflexivity|].
  split; [vm_compute; discriminate|].
  eexists. eexists. split.
  - apply (Run.draw_ok 1 _ (sample_steps_bar 10 (-5) NULL 0) "Emerging" (-27) 0
             (list_ascii_of_string "Emerging ") [] (sample_steps_bar 10 (-5) NULL 0));
      vm_compute; reflexivity.
  - unfold Run.after_draw, Run.emit, Run.draw_bytes.
    change (stderr (with_stderr ?o _)) with o.
    change (Mach.to_size_t
              (draw_piece_current (sample_steps_bar 10 (-5) NULL 0) (-27)))
      with 18446744073709551589.
    change (stderr (with_heap _ _)) with (@nil ascii).
    change (fmt_fill (format (sample_steps_bar 10 (-5) NULL 0))) with "="%char.
    change (fmt_begin (format (sample_steps_bar 10 (-5) NULL 0))) with "|"%char.
    rewrite app_nil_l.
    apply (f_equal (app (list_ascii_of_string "Emerging "))).
    apply (f_equal (app ["|"%char])).
    apply (f_equal (app (repeat "="%char (Z.to_nat 18446744073709551589)))).
    reflexivity.
Qed.

(** C3, amended.  Progress at or above the maximum renders as
    complete: the fill count is the interior piece count, every piece
    is filled, no tumbler and no unfilled glyph is written.  Progress
    below zero is not clamped: the fill count the draw computes, when
    its conversion to [int] is defined, is never positive, and zero
    fill glyphs are written exactly when it is 0; a negative count
    reaches the emission loop as a [size_t], which makes it at least
    2^31 - 1, and 2^64 plus the count when the bar has no tumbler. *)
Theorem C3_out_of_range_progress (b : progressbar) (bar_piece_count : Z) :
  is_long (max b) ->
  0 <= bar_piece_count <= Mach.INT_MAX ->
  (at_or_above_maximum b ->
     draw_completed b = true /\
     draw_piece_raw b bar_piece_count = Some bar_piece_count /\
     Mach.to_size_t (draw_piece_current b bar_piece_count) = bar_piece_count /\
     draw_tumbler b bar_piece_count (draw_piece_current b bar_piece_count) = false /\
     Mach.to_size_t
       (draw_unfilled b bar_piece_count (draw_piece_current b bar_piece_count)) = 0) /\
  (below_zero b ->
   forall raw, draw_piece_raw b bar_piece_count = Some raw ->
     raw <= 0 /\
     (Mach.to_size_t (draw_piece_current b raw) = 0 <-> raw = 0) /\
     (raw < 0 -> 2 ^ 31 - 1 <= Mach.to_size_t (draw_piece_current b raw)) /\
     (raw < 0 -> tumbler_length b = 0 ->
      Mach.to_size_t (draw_piece_current b raw) = 2 ^ 64 + raw)).
Proof.
  intros Hl Hn. split.
  - intros Ha. apply OutOfRange.complete_iff in Ha.
    destruct (Gauge.complete_counts b bar_piece_count Ha Hn) as (Hcur & Htum & Hunf).
    split; [exact Ha|].
    split; [exact (Gauge.raw_complete b bar_piece_count Ha Hn)|].
    rewrite Hcur, Htum, Hunf.
    split; [|split; [reflexivity|]].
    + apply MachFacts.to_size_t_id. unfold Mach.INT_MAX in Hn. lia.
    + apply MachFacts.to_size_t_id. lia.
  - intros Hz raw Hr.
    pose proof (OutOfRange.below_zero_running b Hl Hz) as Hc.
    pose proof (OutOfRange.raw_below_zero b bar_piece_count raw Hl Hz (proj1 Hn) Hr)
      as [Hlo Hhi].
    assert (Hzero : draw_piece_current b 0 = 0).
    { unfold draw_piece_current.
      destruct (draw_completed b || (tumbler_length b =? 0)); reflexivity. }
    assert (Hneg : raw < 0 ->
                   Mach.to_size_t (draw_piece_current b raw) =
                   if tumbler_length b =? 0 then 2 ^ 64 + raw
                   else if raw =? Mach.INT_MIN then Mach.INT_MAX
                   else 2 ^ 64 + raw - 1).
    { intros Hlt. apply OutOfRange.negative_fill_wraps; [exact Hc|lia]. }
    unfold Mach.INT_MIN, Mach.INT_MAX in *.
    split; [exact Hhi|]. split; [split|split].
    + intros E. destruct (Z.eq_dec raw 0) as [|Hne]; [assumption|].
      rewrite Hneg in E by lia.
      destruct (tumbler_length b =? 0); [lia|].
      destruct (raw =? - 2 ^ 31); lia.
    + intros ->. rewrite Hzero. reflexivity.
    + intros Hlt. rewrite (Hneg Hlt).
      destruct (tumbler_length b =? 0); [lia|].
      destruct (raw =? - 2 ^ 31); lia.
    + intros Hlt Ht. rewrite (Hneg Hlt), Ht. reflexivity.
Qed.

Lemma C3_witness :
  -27 <= 0 /\
  Mach.to_size_t (draw_piece_current (sample_steps_bar 10 (-5) NULL 0) (-27))
  = 2 ^ 64 + -27.
Proof.
  assert (Hl : is_long (max (sample_steps_bar 10 (-5) NULL 0)))
    by (unfold is_long; simpl; lia).
  assert (Hn : 0 <= 55 <= Mach.INT_MAX) by (unfold Mach.INT_MAX; lia).
  assert (Hz : below_zero (sample_steps_bar 10 (-5) NULL 0))
    by (vm_compute; reflexivity).
  assert (Hr : draw_piece_raw (sample_steps_bar 10 (-5) NULL 0) 55 = Some (-27))
    by (vm_compute; reflexivity).
  destruct (C3_out_of_range_progress _ 55 Hl Hn) as [_ H].
  destruct (H Hz (-27) Hr) as (H1 & _ & _ & H4).
  split; [exact H1|]. apply H4; [lia|reflexivity].
Defined.

(** A fraction just below zero still truncates to a fill count of 0:
    at -1/1024 with 55 pieces the draw writes no fill glyph. *)
Example small_negative_fraction_draws_no_fill :
  below_zero (sample_percent_bar (2 ^ 63 + 1013 * 2 ^ 52)) /\
  draw_piece_raw (sample_percent_bar (2 ^ 63 + 1013 * 2 ^ 52)) 55 = Some 0.
Proof. vm_compute. split; reflexivity. Qed.

(** * Further properties of the translation unit *)

(** ** The time field *)

Module TimeField.
Import MachFacts.

(** Truncating division by a positive constant. *)
Lemma quot_rem_sign a b :
  0 < b ->
  a = b * Z.quot a b + Z.rem a b /\
  (0 <= a -> 0 <= Z.rem a b < b) /\
  (a <= 0 -> - b < Z.rem a b <= 0).
Proof.
  intros Hb. split; [apply Z.quot_rem'|]. split; intros Ha.
  - apply Z.rem_bound_pos; assumption.
  - apply Z.rem_bound_pos_neg; assumption.
Qed.

(** The fields in terms of the mathematical quotient and remainder. *)
Lemma components_eq s :
  Mach.INT_MIN <= s <= Mach.INT_MAX ->
  progressbar_calc_time_components s =
  {| hours := Z.quot s 3600;
     minutes := Z.quot (Z.rem s 3600) 60;
     seconds := Z.rem (Z.rem s 3600) 60 |}.
Proof.
  unfold Mach.INT_MIN, Mach.INT_MAX. intros Hs.
  destruct (quot_rem_sign s 3600 ltac:(lia)) as (E1 & P1 & N1).
  destruct (quot_rem_sign (Z.rem s 3600) 60 ltac:(lia)) as (E2 & P2 & N2).
  unfold progressbar_calc_time_components, Mach.idiv, Mach.isub, Mach.imul.
  assert (Hh : Mach.to_int (Z.quot s 3600) = Z.quot s 3600).
  { apply to_int_id. unfold Mach.INT_MIN, Mach.INT_MAX. lia. }
  rewrite Hh.
  assert (Hp : Mach.to_int (Z.quot s 3600 * 3600) = Z.quot s 3600 * 3600).
  { apply to_int_id. unfold Mach.INT_MIN, Mach.INT_MAX. lia. }
  rewrite Hp.
  assert (Hr : Mach.to_int (s - Z.quot s 3600 * 3600) = Z.rem s 3600).
  { rewrite to_int_id; unfold Mach.INT_MIN, Mach.INT_MAX; lia. }
  rewrite Hr.
  assert (Hm : Mach.to_int (Z.quot (Z.rem s 3600) 60) = Z.quot (Z.rem s 3600) 60).
  { apply to_int_id. unfold Mach.INT_MIN, Mach.INT_MAX. lia. }
  rewrite Hm.
  assert (Hq : Mach.to_int (Z.quot (Z.rem s 3600) 60 * 60)
               = Z.quot (Z.rem s 3600) 60 * 60).
  { apply to_int_id. unfold Mach.INT_MIN, Mach.INT_MAX. lia. }
  rewrite Hq.
  assert (Hs2 : Mach.to_int (Z.rem s 3600 - Z.quot (Z.rem s 3600) 60 * 60)
                = Z.rem (Z.rem s 3600) 60).
  { rewrite to_int_id; unfold Mach.INT_MIN, Mach.INT_MAX; lia. }
  rewrite Hs2. reflexivity.
Qed.

(** *** Decimal digits *)

Lemma decimal_aux_length fuel n acc :
  (length acc <= length (decimal_aux fuel n acc))%nat.
Proof.
  revert n acc. induction fuel as [|fuel IH]; intros n acc; simpl; [lia|].
  destruct (n / 10 =? 0); simpl; [lia|].
  specialize (IH (n / 10) (digit (n mod 10) :: acc)). simpl in IH. lia.
Qed.

Lemma decimal_one_digit n : 0 <= n < 10 -> decimal n = [digit n].
Proof.
  intros Hn. unfold decimal. simpl.
  rewrite Z.div_small, Z.mod_small by lia. reflexivity.
Qed.

Lemma decimal_two_digits n :
  10 <= n < 100 -> decimal n = [digit (n / 10); digit (n mod 10)].
Proof.
  intros Hn. unfold decimal.
  change (decimal_aux 10 n []) with
    (if n / 10 =? 0 then [digit (n mod 10)]
     else if n / 10 / 10 =? 0 then [digit (n / 10 mod 10); digit (n mod 10)]
     else decimal_aux 8 (n / 10 / 10) [digit (n / 10 mod 10); digit (n mod 10)]).
  assert (H1 : 1 <= n / 10 < 10)
    by (split; [apply Z.div_le_lower_bound|apply Z.div_lt_upper_bound]; lia).
  destruct (Z.eqb_spec (n / 10) 0); [lia|].
  rewrite (Z.div_small (n / 10) 10), (Z.mod_small (n / 10) 10) by lia.
  reflexivity.
Qed.

Lemma decimal_three_digits n : 100 <= n -> (3 <= length (decimal n))%nat.
Proof.
  intros Hn. unfold decimal.
  change (decimal_aux 10 n []) with
    (if n / 10 =? 0 then [digit (n mod 10)]
     else if n / 10 / 10 =? 0 then [digit (n / 10 mod 10); digit (n mod 10)]
     else decimal_aux 8 (n / 10 / 10) [digit (n / 10 mod 10); digit (n mod 10)]).
  assert (H1 : 10 <= n / 10) by (apply Z.div_le_lower_bound; lia).
  assert (H2 : 1 <= n / 10 / 10) by (apply Z.div_le_lower_bound; lia).
  destruct (Z.eqb_spec (n / 10) 0); [lia|].
  destruct (Z.eqb_spec (n / 10 / 10) 0); [lia|].
  change (decimal_aux 8 (n / 10 / 10) [digit (n / 10 mod 10); digit (n mod 10)])
    with (if n / 10 / 10 / 10 =? 0
          then [digit (n / 10 / 10 mod 10); digit (n / 10 mod 10); digit (n mod 10)]
          else decimal_aux 7 (n / 10 / 10 / 10)
                 [digit (n / 10 / 10 mod 10); digit (n / 10 mod 10); digit (n mod 10)]).
  destruct (n / 10 / 10 / 10 =? 0); [simpl; lia|].
  pose proof (decimal_aux_length 7 (n / 10 / 10 / 10)
                [digit (n / 10 / 10 mod 10); digit (n / 10 mod 10); digit (n mod 10)]) as L.
  simpl length in L. exact L.
Qed.

(** A conversion of width 2 of a number below 100 takes two bytes. *)
Lemma conv_d_two zero_pad n :
  0 <= n < 100 -> length (conv_d zero_pad 2 n) = 2%nat.
Proof.
  intros Hn. unfold conv_d.
  replace (n <? 0) with false by (symmetry; apply Z.ltb_ge; lia).
  rewrite Z.abs_eq by lia.
  destruct (Z.lt_ge_cases n 10) as [Hs|Hl].
  - rewrite decimal_one_digit by lia. destruct zero_pad; reflexivity.
  - rewrite decimal_two_digits by lia. destruct zero_pad; reflexivity.
Qed.

Lemma conv_d_wide n :
  100 <= n -> (3 <= length (conv_d false 2 n))%nat.
Proof.
  intros Hn. unfold conv_d.
  replace (n <? 0) with false by (symmetry; apply Z.ltb_ge; lia).
  rewrite Z.abs_eq by lia.
  pose proof (decimal_three_digits n Hn) as L.
  simpl app. rewrite length_app. lia.
Qed.

(** The two formats, directive by directive. *)
Lemma time_format_bytes (completed : bool) h m s :
  format_bytes
    (list_ascii_of_string (if completed then ELAPSED_FORMAT else ETA_FORMAT)) [h; m; s]
  = list_ascii_of_string (if completed then "    " else "ETA:")
      ++ conv_d false 2 h ++ ["h"%char]
      ++ conv_d true 2 m ++ ["m"%char]
      ++ conv_d true 2 s ++ ["s"%char].
Proof. destruct completed; reflexivity. Qed.

Lemma time_format_length (completed : bool) h m s :
  length
    (format_bytes
       (list_ascii_of_string (if completed then ELAPSED_FORMAT else ETA_FORMAT)) [h; m; s])
  = (7 + length (conv_d false 2 h) + length (conv_d true 2 m)
     + length (conv_d true 2 s))%nat.
Proof.
  rewrite time_format_bytes. rewrite !length_app.
  destruct completed; simpl length; lia.
Qed.

End TimeField.

(** X1.  [progressbar_calc_time_components] splits every [int] number
    of seconds exactly: hours, minutes and seconds add up to the
    argument again, minutes and seconds are below 60 in absolute
    value, and no field has a sign other than the argument's.  For a
    non-negative argument the fields are those of a clock. *)
Theorem time_components_recompose (secs : Z) :
  Mach.INT_MIN <= secs <= Mach.INT_MAX ->
  let c := progressbar_calc_time_components secs in
  hours c * 3600 + minutes c * 60 + seconds c = secs /\
  - 60 < minutes c < 60 /\ - 60 < seconds c < 60 /\
  (0 <= secs -> 0 <= hours c /\ 0 <= minutes c /\ 0 <= seconds c) /\
  (secs <= 0 -> hours c <= 0 /\ minutes c <= 0 /\ seconds c <= 0).
Proof.
  intros Hs c. unfold c. rewrite (TimeField.components_eq secs Hs).
  simpl hours. simpl minutes. simpl seconds.
  destruct (TimeField.quot_rem_sign secs 3600 ltac:(lia)) as (E1 & P1 & N1).
  destruct (TimeField.quot_rem_sign (Z.rem secs 3600) 60 ltac:(lia)) as (E2 & P2 & N2).
  repeat split; lia.
Qed.

Lemma time_components_recompose_witness :
  hours (progressbar_calc_time_components 3725) * 3600
  + minutes (progressbar_calc_time_components 3725) * 60
  + seconds (progressbar_calc_time_components 3725) = 3725.
Proof.
  assert (H : Mach.INT_MIN <= 3725 <= Mach.INT_MAX)
    by (unfold Mach.INT_MIN, Mach.INT_MAX; lia).
  exact (proj1 (time_components_recompose 3725 H)).
Defined.

(** The width of the time field below one hundred hours. *)
Lemma time_field_width_aux (completed : bool) (secs : Z) :
  0 <= secs < 360000 ->
  Z.of_nat
    (length
       (format_bytes
          (list_ascii_of_string (if completed then ELAPSED_FORMAT else ETA_FORMAT))
          [hours (progressbar_calc_time_components secs);
           minutes (progressbar_calc_time_components secs);
           seconds (progressbar_calc_time_components secs)]))
  = 13.
Proof.
  intros Hs.
  assert (Hr : Mach.INT_MIN <= secs <= Mach.INT_MAX)
    by (unfold Mach.INT_MIN, Mach.INT_MAX; lia).
  rewrite (TimeField.components_eq secs Hr).
  simpl hours. simpl minutes. simpl seconds.
  destruct (TimeField.quot_rem_sign secs 3600 ltac:(lia)) as (E1 & P1 & N1).
  destruct (TimeField.quot_rem_sign (Z.rem secs 3600) 60 ltac:(lia)) as (E2 & P2 & N2).
  rewrite TimeField.time_format_length.
  rewrite !TimeField.conv_d_two by lia.
  reflexivity.
Qed.

(** X2.  Below one hundred hours the time field is exactly
    [ETA_FORMAT_LENGTH] bytes long, for the remaining-time format and
    for the elapsed-time format. *)
Theorem time_field_width (completed : bool) (secs : Z) :
  0 <= secs < 360000 ->
  let c := progressbar_calc_time_components secs in
  Z.of_nat
    (length
       (format_bytes
          (list_ascii_of_string (if completed then ELAPSED_FORMAT else ETA_FORMAT))
          [hours c; minutes c; seconds c]))
  = ETA_FORMAT_LENGTH.
Proof.
  intros Hs c. exact (time_field_width_aux completed secs Hs).
Qed.

Lemma time_field_width_witness :
  Z.of_nat
    (length
       (format_bytes (list_ascii_of_string ETA_FORMAT)
          [hours (progressbar_calc_time_components 3725);
           minutes (progressbar_calc_time_components 3725);
           seconds (progressbar_calc_time_components 3725)]))
  = ETA_FORMAT_LENGTH.
Proof. apply (time_field_width false 3725). lia. Defined.

(** X3.  From one hundred hours on the hours take three digits or
    more, and the time field is longer than [ETA_FORMAT_LENGTH], the
    width the layout sets aside for it. *)
Theorem time_field_overflow (completed : bool) (secs : Z) :
  360000 <= secs <= Mach.INT_MAX ->
  let c := progressbar_calc_time_components secs in
  ETA_FORMAT_LENGTH <
  Z.of_nat
    (length
       (format_bytes
          (list_ascii_of_string (if completed then ELAPSED_FORMAT else ETA_FORMAT))
          [hours c; minutes c; seconds c])).
Proof.
  intros Hs c. unfold Mach.INT_MAX in Hs.
  assert (Hr : Mach.INT_MIN <= secs <= Mach.INT_MAX)
    by (unfold Mach.INT_MIN, Mach.INT_MAX; lia).
  unfold c. rewrite (TimeField.components_eq secs Hr).
  simpl hours. simpl minutes. simpl seconds.
  destruct (TimeField.quot_rem_sign secs 3600 ltac:(lia)) as (E1 & P1 & N1).
  destruct (TimeField.quot_rem_sign (Z.rem secs 3600) 60 ltac:(lia)) as (E2 & P2 & N2).
  rewrite TimeField.time_format_length.
  rewrite (TimeField.conv_d_two true (Z.quot (Z.rem secs 3600) 60)) by lia.
  rewrite (TimeField.conv_d_two true (Z.rem (Z.rem secs 3600) 60)) by lia.
  pose proof (TimeField.conv_d_wide (Z.quot secs 3600) ltac:(lia)) as L.
  unfold ETA_FORMAT_LENGTH. lia.
Qed.

Lemma time_field_overflow_witness :
  ETA_FORMAT_LENGTH <
  Z.of_nat
    (length
       (format_bytes (list_ascii_of_string ETA_FORMAT)
          [hours (progressbar_calc_time_components 360000);
           minutes (progressbar_calc_time_components 360000);
           seconds (progressbar_calc_time_components 360000)])).
Proof. apply (time_field_overflow false 360000). unfold Mach.INT_MAX. lia. Defined.

(** ** The layout of the line *)

Module LayoutFacts.
Import MachFacts Layout.

Lemma int_id z : - 2 ^ 31 <= z <= 2 ^ 31 - 1 -> Mach.to_int z = z.
Proof. intros H. apply to_int_id. unfold Mach.INT_MIN, Mach.INT_MAX. lia. Qed.

(** The two layout functions where no [int] operation wraps. *)
Lemma bar_width_closed W L :
  - 2 ^ 30 <= W <= 2 ^ 30 -> 0 <= L <= 2 ^ 29 ->
  progressbar_bar_width W L = Z.max 10 (W - L - 15).
Proof.
  intros HW HL. unfold progressbar_bar_width. rewrite progressbar_max_spec.
  unfold Mach.isub, MINIMUM_BAR_WIDTH, ETA_FORMAT_LENGTH, WHITESPACE_LENGTH.
  rewrite (int_id (W - L)) by lia.
  rewrite (int_id (W - L - 13)) by lia.
  rewrite (int_id (W - L - 13 - 2)) by lia.
  lia.
Qed.

Lemma label_width_closed W L bw :
  - 2 ^ 30 <= W <= 2 ^ 30 -> 0 <= L <= 2 ^ 29 -> 10 <= bw <= 2 ^ 30 - 15 ->
  progressbar_label_width W L bw =
  if W <? L + bw + 15 then Z.max 0 (W - bw - 15) else L.
Proof.
  intros HW HL Hb. unfold progressbar_label_width. rewrite progressbar_max_spec.
  unfold Mach.isub, Mach.iadd, ETA_FORMAT_LENGTH, WHITESPACE_LENGTH.
  rewrite (int_id (L + 1)) by lia.
  rewrite (int_id (L + 1 + bw)) by lia.
  rewrite (int_id (L + 1 + bw + 1)) by lia.
  rewrite (int_id (L + 1 + bw + 1 + 13)) by lia.
  rewrite (int_id (W - bw)) by lia.
  rewrite (int_id (W - bw - 13)) by lia.
  rewrite (int_id (W - bw - 13 - 2)) by lia.
  destruct (Z.ltb_spec W (L + 1 + bw + 1 + 13)), (Z.ltb_spec W (L + bw + 15)); lia.
Qed.

(** The width the layout gives the line: the label and its space when
    a label is drawn, the bar, the space before the time field and the
    time field. *)
Definition line_width (W L : Z) : Z :=
  let bar_width := progressbar_bar_width W L in
  let label_width := progressbar_label_width W L bar_width in
  (if 0 <? label_width then label_width + 1 else 0)
  + bar_width + 1 + ETA_FORMAT_LENGTH.

End LayoutFacts.

(** X4.  The label is drawn in full whenever the screen leaves room for
    a bar of the minimum width beside it; the bar then takes all the
    columns that are left.  On a narrower screen the bar keeps its
    minimum of ten columns and the label is cut to the [W - 25] bytes
    that fit, or dropped when there are none. *)
Theorem label_is_cut_only_for_the_minimum_bar (W L : Z) :
  - 2 ^ 30 <= W <= 2 ^ 30 -> 0 <= L <= 2 ^ 29 ->
  let bar_width := progressbar_bar_width W L in
  let label_width := progressbar_label_width W L bar_width in
  (L + 25 <= W -> label_width = L /\ bar_width = W - L - 15) /\
  (W < L + 25 -> label_width = Z.max 0 (W - 25) /\ bar_width = MINIMUM_BAR_WIDTH).
Proof.
  intros HW HL bar_width label_width. unfold label_width, bar_width.
  rewrite (LayoutFacts.bar_width_closed W L HW HL).
  rewrite (LayoutFacts.label_width_closed W L _ HW HL) by lia.
  unfold MINIMUM_BAR_WIDTH.
  split; intros H.
  - destruct (Z.ltb_spec W (L + Z.max 10 (W - L - 15) + 15)); lia.
  - destruct (Z.ltb_spec W (L + Z.max 10 (W - L - 15) + 15)); lia.
Qed.

Lemma label_is_cut_only_for_the_minimum_bar_witness :
  (8 + 25 <= 80 ->
   progressbar_label_width 80 8 (progressbar_bar_width 80 8) = 8 /\
   progressbar_bar_width 80 8 = 80 - 8 - 15) /\
  (80 < 8 + 25 ->
   progressbar_label_width 80 8 (progressbar_bar_width 80 8) = Z.max 0 (80 - 25) /\
   progressbar_bar_width 80 8 = MINIMUM_BAR_WIDTH).
Proof. apply (label_is_cut_only_for_the_minimum_bar 80 8); lia. Defined.

(** The planned line against the screen. *)
Lemma planned_line_fits_the_screen_aux (W L : Z) :
  - 2 ^ 30 <= W <= 2 ^ 30 -> 0 <= L <= 2 ^ 29 ->
  0 <= progressbar_label_width W L (progressbar_bar_width W L) <= L /\
  LayoutFacts.line_width W L =
    (if 0 <? progressbar_label_width W L (progressbar_bar_width W L)
     then W else Z.max 24 (W - 1)) /\
  (25 <= W -> LayoutFacts.line_width W L <= W).
Proof.
  intros HW HL.
  unfold LayoutFacts.line_width.
  rewrite (LayoutFacts.bar_width_closed W L HW HL).
  rewrite (LayoutFacts.label_width_closed W L _ HW HL) by lia.
  unfold ETA_FORMAT_LENGTH.
  destruct (Z.ltb_spec W (L + Z.max 10 (W - L - 15) + 15)) as [Hc|Hc].
  - destruct (Z.ltb_spec 0 (Z.max 0 (W - Z.max 10 (W - L - 15) - 15))); lia.
  - destruct (Z.ltb_spec 0 L); lia.
Qed.

(** X5.  The line the layout plans never overruns a screen of 25
    columns or more: with a label it is exactly as wide as the screen,
    without one it is one column short.  On a screen of fewer than 25
    columns the plan is 24 columns wide all the same. *)
Theorem planned_line_fits_the_screen (W L : Z) :
  - 2 ^ 30 <= W <= 2 ^ 30 -> 0 <= L <= 2 ^ 29 ->
  let bar_width := progressbar_bar_width W L in
  let label_width := progressbar_label_width W L bar_width in
  0 <= label_width <= L /\
  LayoutFacts.line_width W L =
    (if 0 <? label_width then W else Z.max 24 (W - 1)) /\
  (25 <= W -> LayoutFacts.line_width W L <= W).
Proof.
  intros HW HL bar_width label_width.
  exact (planned_line_fits_the_screen_aux W L HW HL).
Qed.

Lemma planned_line_fits_the_screen_witness :
  LayoutFacts.line_width 80 8 = 80.
Proof.
  assert (HW : - 2 ^ 30 <= 80 <= 2 ^ 30) by lia.
  assert (HL : 0 <= 8 <= 2 ^ 29) by lia.
  destruct (planned_line_fits_the_screen 80 8 HW HL) as (_ & E & _).
  rewrite E. reflexivity.
Defined.

(** ** The cells of the gauge *)

Module Cells.
Import MachFacts.

(** Fill glyphs, tumbler cell and unfilled glyphs for a fill count
    within the gauge. *)
Lemma cells_sum b bar_piece_count raw :
  0 <= tumbler_length b ->
  0 <= raw <= bar_piece_count -> bar_piece_count <= Mach.INT_MAX ->
  (draw_completed b = true -> raw = bar_piece_count) ->
  let cur := draw_piece_current b raw in
  0 <= cur /\ 0 <= draw_unfilled b bar_piece_count cur /\
  cur + (if draw_tumbler b bar_piece_count cur then 1 else 0)
  + draw_unfilled b bar_piece_count cur = bar_piece_count.
Proof.
  intros Ht Hr Hn Hfull cur. unfold cur.
  destruct (draw_completed b) eqn:Hc.
  - rewrite (Hfull eq_refl).
    destruct (Gauge.complete_counts b bar_piece_count Hc ltac:(lia)) as (-> & -> & ->).
    lia.
  - destruct (Gauge.running_counts b bar_piece_count raw Hc Hr Hn) as (K0 & K1 & K2).
    destruct (Z.eq_dec (tumbler_length b) 0) as [T|T].
    + destruct (K0 T) as (-> & -> & ->). lia.
    + destruct (Z.eq_dec raw 0) as [Z0|Z0].
      * destruct (K1 T Z0) as (-> & -> & ->).
        replace (0 <? tumbler_length b) with true by (symmetry; apply Z.ltb_lt; lia).
        destruct (Z.ltb_spec 0 bar_piece_count), (Z.eqb_spec bar_piece_count 0);
          simpl; lia.
      * destruct (K2 T ltac:(lia)) as (-> & -> & ->).
        replace (0 <? tumbler_length b) with true by (symmetry; apply Z.ltb_lt; lia).
        lia.
Qed.

(** The fill count of a bar in range. *)
Lemma raw_of_in_range b bar_piece_count :
  is_long (max b) -> in_range b -> 0 <= bar_piece_count <= Mach.INT_MAX ->
  exists raw,
    draw_piece_raw b bar_piece_count = Some raw /\
    0 <= raw <= bar_piece_count /\
    (draw_completed b = true -> raw = bar_piece_count).
Proof.
  intros Hl Hr Hn. destruct (draw_completed b) eqn:Hc.
  - exists bar_piece_count.
    split; [apply Gauge.raw_complete; assumption|]. split; [lia|reflexivity].
  - destruct (Gauge.raw_in_range b bar_piece_count Hl Hr Hc Hn) as (raw & E & R).
    exists raw. split; [exact E|]. split; [exact R|discriminate].
Qed.

End Cells.

(** X6.  For a bar whose progress is in range, the three parts of the
    gauge always make up the interior exactly: the fill glyphs, the
    tumbler cell when one is drawn, and the unfilled glyphs together
    are as many as there are interior pieces, and neither repeat count
    is negative. *)
Theorem gauge_cells_add_up (b : progressbar) (bar_piece_count : Z) :
  is_long (max b) -> in_range b -> 0 <= tumbler_length b ->
  0 <= bar_piece_count <= Mach.INT_MAX ->
  exists raw,
    draw_piece_raw b bar_piece_count = Some raw /\
    let cur := draw_piece_current b raw in
    Mach.to_size_t cur
    + (if draw_tumbler b bar_piece_count cur then 1 else 0)
    + Mach.to_size_t (draw_unfilled b bar_piece_count cur) = bar_piece_count.
Proof.
  intros Hl Hr Ht Hn.
  destruct (Cells.raw_of_in_range b bar_piece_count Hl Hr Hn) as (raw & E & R & F).
  exists raw. split; [exact E|]. intros cur.
  destruct (Cells.cells_sum b bar_piece_count raw Ht R (proj2 Hn) F) as (C1 & C2 & C3).
  fold cur in C1, C2, C3.
  unfold Mach.INT_MAX in Hn.
  assert (B1 : cur <= bar_piece_count)
    by (destruct (draw_tumbler b bar_piece_count cur); lia).
  assert (B2 : draw_unfilled b bar_piece_count cur <= bar_piece_count)
    by (destruct (draw_tumbler b bar_piece_count cur); lia).
  rewrite (MachFacts.to_size_t_id cur) by lia.
  rewrite (MachFacts.to_size_t_id (draw_unfilled b bar_piece_count cur)) by lia.
  exact C3.
Qed.

Lemma gauge_cells_add_up_witness :
  exists raw,
    draw_piece_raw (sample_steps_bar 10 5 300 4) 55 = Some raw /\
    Mach.to_size_t (draw_piece_current (sample_steps_bar 10 5 300 4) raw)
    + (if draw_tumbler (sample_steps_bar 10 5 300 4) 55
            (draw_piece_current (sample_steps_bar 10 5 300 4) raw)
       then 1 else 0)
    + Mach.to_size_t
        (draw_unfilled (sample_steps_bar 10 5 300 4) 55
           (draw_piece_current (sample_steps_bar 10 5 300 4) raw)) = 55.
Proof.
  apply (gauge_cells_add_up (sample_steps_bar 10 5 300 4) 55).
  - unfold is_long; simpl; lia.
  - vm_compute; split; discriminate.
  - simpl; lia.
  - unfold Mach.INT_MAX; lia.
Defined.

(** ** What one draw writes and changes *)

Module DrawFacts.
Import MachFacts Layout Run.

Lemma length_list_ascii_of_string s :
  length (list_ascii_of_string s) = String.length s.
Proof. induction s as [|c s IH]; simpl; [reflexivity|]. rewrite IH. reflexivity. Qed.

(** The label bytes of a label width within the label. *)
Lemma label_bytes_length lbl label_width part :
  0 <= label_width <= strlen lbl -> label_width < 2 ^ 64 ->
  label_bytes lbl label_width = Some part ->
  Z.of_nat (length part) = if 0 <? label_width then label_width + 1 else 0.
Proof.
  intros Hw Hlt. unfold label_bytes.
  destruct (Z.eqb_spec label_width 0) as [->|Hne].
  - intros [= <-]. reflexivity.
  - replace (0 <? label_width) with true by (symmetry; apply Z.ltb_lt; lia).
    rewrite (to_size_t_id label_width) by lia.
    destruct (Z.leb_spec label_width (strlen lbl)) as [Hle|]; [|discriminate].
    intros [= <-].
    rewrite length_app, length_firstn, length_list_ascii_of_string.
    unfold strlen in *. simpl length. lia.
Qed.

Lemma label_bytes_defined lbl label_width :
  0 <= label_width <= strlen lbl -> label_width < 2 ^ 64 ->
  exists part, label_bytes lbl label_width = Some part.
Proof.
  intros Hw Hlt. unfold label_bytes.
  destruct (label_width =? 0); [eexists; reflexivity|].
  rewrite (to_size_t_id label_width) by lia.
  destruct (Z.leb_spec label_width (strlen lbl)); [eexists; reflexivity|lia].
Qed.

(** The tumbler writes one byte when it is drawn and none otherwise,
    and changes no field of the bar but its cursor. *)
Lemma tumbler_step_inv strs b bar_piece_count cur part b' :
  tumbler_step strs b bar_piece_count cur = Some (part, b') ->
  Z.of_nat (length part) = (if draw_tumbler b bar_piece_count cur then 1 else 0) /\
  exists pos, b' = set_tumbler_pos pos b /\
              (draw_tumbler b bar_piece_count cur = false -> pos = tumbler_pos b).
Proof.
  unfold tumbler_step.
  destruct (draw_tumbler b bar_piece_count cur).
  - destruct (strs !! tumbler_format b) as [t|]; [|discriminate].
    destruct (char_at t (tumbler_pos b)) as [ch|]; [|discriminate].
    intros [= <- <-]. split; [reflexivity|].
    eexists. split; [reflexivity|discriminate].
  - intros [= <- <-]. split; [reflexivity|].
    exists (tumbler_pos b). split; [destruct b; reflexivity|reflexivity].
Qed.

(** The bytes of a draw without the closing carriage return. *)
Definition line_bytes (b : progressbar) (label_part : list ascii)
    (bar_piece_count bar_piece_current : Z) (tumbler_part : list ascii)
    (eta : progressbar_time_components) : list ascii :=
  label_part
  ++ [fmt_begin (format b)]
  ++ repeat (fmt_fill (format b)) (Z.to_nat (Mach.to_size_t bar_piece_current))
  ++ tumbler_part
  ++ repeat (fmt_unfilled (format b))
       (Z.to_nat (Mach.to_size_t (draw_unfilled b bar_piece_count bar_piece_current)))
  ++ [fmt_end (format b)] ++ [" "%char]
  ++ format_bytes
       (list_ascii_of_string (if draw_completed b then ELAPSED_FORMAT else ETA_FORMAT))
       [hours eta; minutes eta; seconds eta].

Lemma draw_bytes_line b label_part bar_piece_count cur tumbler_part eta :
  draw_bytes b label_part bar_piece_count cur tumbler_part eta
  = line_bytes b label_part bar_piece_count cur tumbler_part eta ++ ["013"%char].
Proof. unfold draw_bytes, line_bytes. rewrite <- !app_assoc. reflexivity. Qed.

Lemma line_bytes_length b label_part bar_piece_count cur tumbler_part eta :
  Z.of_nat (length (line_bytes b label_part bar_piece_count cur tumbler_part eta)) =
  Z.of_nat (length label_part) + 1
  + Z.of_nat (Z.to_nat (Mach.to_size_t cur))
  + Z.of_nat (length tumbler_part)
  + Z.of_nat (Z.to_nat (Mach.to_size_t (draw_unfilled b bar_piece_count cur)))
  + 2
  + Z.of_nat
      (length
         (format_bytes
            (list_ascii_of_string
               (if draw_completed b then ELAPSED_FORMAT else ETA_FORMAT))
            [hours eta; minutes eta; seconds eta])).
Proof.
  unfold line_bytes. rewrite !length_app, !repeat_length.
  simpl length. lia.
Qed.

Lemma stderr_after_draw bar w b lbl raw secs label_part tumbler_part b' :
  stderr (after_draw bar w b lbl raw secs label_part tumbler_part b')
  = stderr w
      ++ draw_bytes b label_part (piece_count_of w lbl) (draw_piece_current b raw)
           tumbler_part (progressbar_calc_time_components secs).
Proof. reflexivity. Qed.

Lemma piece_count_of_eq w lbl :
  piece_count_of w lbl =
  Mach.isub
    (progressbar_bar_width (Mach.to_int (screen_width_of w)) (Mach.to_int (strlen lbl)))
    BAR_BORDER_WIDTH.
Proof. reflexivity. Qed.

Lemma label_width_of_eq w lbl :
  label_width_of w lbl =
  progressbar_label_width (Mach.to_int (screen_width_of w)) (Mach.to_int (strlen lbl))
    (progressbar_bar_width (Mach.to_int (screen_width_of w)) (Mach.to_int (strlen lbl))).
Proof. reflexivity. Qed.

Lemma heap_after_draw bar w b lbl raw secs label_part tumbler_part b' :
  heap (after_draw bar w b lbl raw secs label_part tumbler_part b')
  = if draw_tumbler b (piece_count_of w lbl) (draw_piece_current b raw)
    then <[bar := b']> (heap w) else heap w.
Proof. reflexivity. Qed.

End DrawFacts.

(** X7.  A draw of a bar whose progress is in range writes, before the
    closing carriage return, exactly the line the layout plans from
    the bar width it first computes: the label and a space when a
    label is drawn, the bar with its borders, a space and the time
    field.  On a screen of 25 columns or more the line never overruns
    the screen.  The time field is assumed below one hundred hours. *)
Theorem draw_writes_the_planned_line
    (w w2 : world) (bar : ptr) (u : unit) (b : progressbar) (lbl : string) :
  progressbar_draw bar w = Ok u w2 ->
  heap w !! bar = Some b -> strings w !! label b = Some lbl ->
  is_long (max b) -> in_range b -> 0 <= tumbler_length b ->
  strlen lbl <= 2 ^ 29 ->
  - 2 ^ 30 <= Mach.to_int (Run.screen_width_of w) <= 2 ^ 30 ->
  (forall secs, Run.eta_seconds b (clock w (ticks w)) = Some secs -> 0 <= secs < 360000) ->
  let W := Mach.to_int (Run.screen_width_of w) in
  let L := Mach.to_int (strlen lbl) in
  exists line,
    stderr w2 = stderr w ++ line ++ ["013"%char] /\
    Z.of_nat (length line) = LayoutFacts.line_width W L /\
    (25 <= W -> Z.of_nat (length line) <= W).
Proof.
  intros Hd Hb Hl Hlong Hr Ht HL HW Hsecs W L.
  destruct (Run.draw_inv bar w u w2 Hd)
    as (b0 & lbl0 & raw & secs & label_part & tumbler_part & b' &
        Hb0 & Hl0 & Hraw & Heta & Hlab & Hts & ->).
  rewrite Hb in Hb0. injection Hb0 as <-.
  rewrite Hl in Hl0. injection Hl0 as <-.
  assert (HL0 : 0 <= strlen lbl) by (unfold strlen; lia).
  assert (EL : L = strlen lbl) by (apply LayoutFacts.int_id; lia).
  assert (HLr : 0 <= L <= 2 ^ 29) by lia.
  destruct (planned_line_fits_the_screen_aux W L HW HLr) as (Hlw & Hwidth & Hfit).
  pose proof (Layout.piece_count_bounds W L) as Hn.
  pose proof (Layout.bar_width_bounds W L) as Hbw.
  pose proof (DrawFacts.piece_count_of_eq w lbl) as Epc. fold W in Epc. fold L in Epc.
  pose proof (DrawFacts.label_width_of_eq w lbl) as Elw. fold W in Elw. fold L in Elw.
  rewrite <- Epc in Hn. rewrite <- Elw in Hlw.
  destruct (Cells.raw_of_in_range b (Run.piece_count_of w lbl) Hlong Hr ltac:(lia))
    as (raw' & E' & R & F).
  rewrite Hraw in E'. injection E' as <-.
  destruct (Cells.cells_sum b _ raw Ht R (proj2 Hn) F) as (C1 & C2 & C3).
  destruct (DrawFacts.tumbler_step_inv _ _ _ _ _ _ Hts) as (Tl & _).
  exists (DrawFacts.line_bytes b label_part (Run.piece_count_of w lbl)
            (draw_piece_current b raw) tumbler_part
            (progressbar_calc_time_components secs)).
  split.
  - rewrite DrawFacts.stderr_after_draw, DrawFacts.draw_bytes_line. reflexivity.
  - assert (Hlen :
      Z.of_nat
        (length
           (DrawFacts.line_bytes b label_part (Run.piece_count_of w lbl)
              (draw_piece_current b raw) tumbler_part
              (progressbar_calc_time_components secs)))
      = LayoutFacts.line_width W L).
    { rewrite DrawFacts.line_bytes_length.
      rewrite (time_field_width_aux (draw_completed b) secs (Hsecs secs Heta)).
      assert (Hlw1 : 0 <= Run.label_width_of w lbl <= strlen lbl) by lia.
      assert (Hlw2 : Run.label_width_of w lbl < 2 ^ 64) by lia.
      rewrite (DrawFacts.label_bytes_length lbl _ label_part Hlw1 Hlw2 Hlab).
      rewrite Tl.
      unfold Mach.INT_MAX in Hn.
      assert (B1 : draw_piece_current b raw <= Run.piece_count_of w lbl)
        by (destruct (draw_tumbler b _ _); lia).
      assert (B2 : draw_unfilled b (Run.piece_count_of w lbl) (draw_piece_current b raw)
                   <= Run.piece_count_of w lbl)
        by (destruct (draw_tumbler b _ _); lia).
      rewrite (MachFacts.to_size_t_id (draw_piece_current b raw)) by lia.
      rewrite (MachFacts.to_size_t_id (draw_unfilled b _ _)) by lia.
      rewrite !Z2Nat.id by lia.
      unfold LayoutFacts.line_width. rewrite <- Elw.
      assert (Epc2 : Run.piece_count_of w lbl = progressbar_bar_width W L - 2).
      { rewrite Epc. unfold MINIMUM_BAR_WIDTH, Mach.INT_MAX in Hbw.
        unfold BAR_BORDER_WIDTH. apply Gauge.isub_id. lia. }
      unfold ETA_FORMAT_LENGTH. lia. }
    split; [exact Hlen|].
    intros H25. rewrite Hlen. exact (Hfit H25).
Qed.

Lemma draw_writes_the_planned_line_witness :
  exists line w2,
    progressbar_draw 1 (world_with_bar (sample_steps_bar 10 5 300 4)) = Ok tt w2 /\
    stderr w2 = stderr (world_with_bar (sample_steps_bar 10 5 300 4))
                  ++ line ++ ["013"%char] /\
    Z.of_nat (length line) = 80.
Proof.
  assert (Hd : progressbar_draw 1 (world_with_bar (sample_steps_bar 10 5 300 4))
               = Ok tt (Run.after_draw 1 (world_with_bar (sample_steps_bar 10 5 300 4))
                          (sample_steps_bar 10 5 300 4) "Emerging" 27 0
                          (list_ascii_of_string "Emerging ") ["/"%char]
                          (set_tumbler_pos 1 (sample_steps_bar 10 5 300 4)))).
  { apply Run.draw_ok; vm_compute; reflexivity. }
  destruct (draw_writes_the_planned_line _ _ 1 tt (sample_steps_bar 10 5 300 4)
              "Emerging" Hd) as (line & E & Hlen & _).
  - vm_compute; reflexivity.
  - vm_compute; reflexivity.
  - unfold is_long; simpl; lia.
  - vm_compute; split; discriminate.
  - simpl; lia.
  - vm_compute; discriminate.
  - vm_compute; split; discriminate.
  - intros secs H. vm_compute in H. injection H as <-. lia.
  - exists line. eexists. split; [exact Hd|]. split; [exact E|].
    rewrite Hlen. vm_compute. reflexivity.
Defined.

(** The frame of a draw. *)
Lemma draw_frame
    (w w2 : world) (bar : ptr) (u : unit) (b : progressbar) :
  progressbar_draw bar w = Ok u w2 ->
  heap w !! bar = Some b ->
  (exists b2,
     heap w2 !! bar = Some b2 /\
     max b2 = max b /\ slot b2 = slot b /\ start b2 = start b /\
     label b2 = label b /\ format b2 = format b /\
     tumbler_format b2 = tumbler_format b /\ tumbler_length b2 = tumbler_length b /\
     (draw_completed b = true \/ tumbler_length b = 0 -> b2 = b)) /\
  (forall p, p <> bar -> heap w2 !! p = heap w !! p) /\
  strings w2 = strings w /\ next_block w2 = next_block w /\
  malloc_ok w2 = malloc_ok w /\ ticks w2 = S (ticks w).
Proof.
  intros Hd Hb.
  destruct (Run.draw_inv bar w u w2 Hd)
    as (b0 & lbl & raw & secs & label_part & tumbler_part & b' &
        Hb0 & Hl & Hraw & Heta & Hlab & Hts & ->).
  rewrite Hb in Hb0. injection Hb0 as <-.
  destruct (DrawFacts.tumbler_step_inv _ _ _ _ _ _ Hts) as (_ & pos & -> & Hpos).
  split; [|split; [|repeat split]].
  - rewrite DrawFacts.heap_after_draw.
    destruct (draw_tumbler b (Run.piece_count_of w lbl) (draw_piece_current b raw))
      eqn:Hdt.
    + exists (set_tumbler_pos pos b).
      split; [apply lookup_insert_eq|].
      repeat (split; [reflexivity|]).
      intros Hnt. exfalso.
      unfold draw_tumbler in Hdt. apply andb_prop in Hdt. destruct Hdt as [H1 H2].
      apply Z.ltb_lt in H1, H2.
      destruct Hnt as [Hc|Hz]; [|lia].
      pose proof (Layout.piece_count_bounds
                    (Mach.to_int (Run.screen_width_of w)) (Mach.to_int (strlen lbl))) as Hn.
      rewrite <- DrawFacts.piece_count_of_eq in Hn.
      assert (Hn0 : 0 <= Run.piece_count_of w lbl <= Mach.INT_MAX) by lia.
      rewrite (Gauge.raw_complete b _ Hc Hn0) in Hraw.
      injection Hraw as <-.
      destruct (Gauge.complete_counts b _ Hc Hn0) as (Ecur & _).
      rewrite Ecur in H2. lia.
    + exists b. split; [exact Hb|].
      repeat (split; [reflexivity|]). reflexivity.
  - intros p Hp. rewrite DrawFacts.heap_after_draw.
    destruct (draw_tumbler _ _ _); [|reflexivity].
    apply lookup_insert_ne. congruence.
Qed.

(** X8.  A draw changes nothing in the bar but the tumbler cursor: the
    maximum, the progress cell, the start time, the label pointer, the
    glyphs and the tumbler format stay as they were.  It leaves every
    other bar, the caller's strings and the allocator alone, and reads
    the clock exactly once.  A bar that is complete or has no tumbler
    is not written to at all. *)
Theorem draw_changes_only_the_cursor
    (w w2 : world) (bar : ptr) (u : unit) (b : progressbar) :
  progressbar_draw bar w = Ok u w2 ->
  heap w !! bar = Some b ->
  (exists b2,
     heap w2 !! bar = Some b2 /\
     max b2 = max b /\ slot b2 = slot b /\ start b2 = start b /\
     label b2 = label b /\ format b2 = format b /\
     tumbler_format b2 = tumbler_format b /\ tumbler_length b2 = tumbler_length b /\
     (draw_completed b = true \/ tumbler_length b = 0 -> b2 = b)) /\
  (forall p, p <> bar -> heap w2 !! p = heap w !! p) /\
  strings w2 = strings w /\ next_block w2 = next_block w /\
  malloc_ok w2 = malloc_ok w /\ ticks w2 = S (ticks w).
Proof. exact (draw_frame w w2 bar u b). Qed.

Lemma draw_changes_only_the_cursor_witness :
  exists w2,
    progressbar_draw 1 (world_with_bar (sample_steps_bar 10 5 300 4)) = Ok tt w2 /\
    strings w2 = strings (world_with_bar (sample_steps_bar 10 5 300 4)) /\
    ticks w2 = S (ticks (world_with_bar (sample_steps_bar 10 5 300 4))).
Proof.
  assert (Hd : progressbar_draw 1 (world_with_bar (sample_steps_bar 10 5 300 4))
               = Ok tt (Run.after_draw 1 (world_with_bar (sample_steps_bar 10 5 300 4))
                          (sample_steps_bar 10 5 300 4) "Emerging" 27 0
                          (list_ascii_of_string "Emerging ") ["/"%char]
                          (set_tumbler_pos 1 (sample_steps_bar 10 5 300 4)))).
  { apply Run.draw_ok; vm_compute; reflexivity. }
  assert (Hb : heap (world_with_bar (sample_steps_bar 10 5 300 4)) !! 1
               = Some (sample_steps_bar 10 5 300 4)) by (vm_compute; reflexivity).
  destruct (draw_changes_only_the_cursor _ _ 1 tt _ Hd Hb)
    as (_ & _ & Hs & _ & _ & Ht).
  eexists. split; [exact Hd|]. split; [exact Hs|exact Ht].
Defined.

(** ** The tumbler *)

Module Tumbler.
Import MachFacts Run.

Lemma get_in_range s n :
  (n < String.length s)%nat -> exists c, String.get n s = Some c.
Proof.
  revert n. induction s as [|c s IH]; intros n Hn; simpl in Hn; [lia|].
  destruct n as [|n]; simpl.
  - exists c. reflexivity.
  - apply IH. lia.
Qed.

(** The byte under a cursor inside the string. *)
Lemma char_at_in_range t pos :
  0 <= pos < strlen t ->
  exists ch, char_at t pos = Some ch /\ String.get (Z.to_nat pos) t = Some ch.
Proof.
  intros Hp. unfold char_at.
  replace (0 <=? pos) with true by (symmetry; apply Z.leb_le; lia).
  replace (pos <? strlen t) with true by (symmetry; apply Z.ltb_lt; lia).
  simpl andb. cbv iota.
  destruct (get_in_range t (Z.to_nat pos)) as [ch Hch]; [unfold strlen in Hp; lia|].
  exists ch. split; exact Hch.
Qed.



End Tumbler.



(** ** The mutators *)

Module Mutators.
Import MachFacts Run.

(** A [long] written to the cell reads back as itself. *)
Lemma value_set_value v b : is_long v -> value (set_value v b) = v.
Proof.
  unfold is_long. intros Hv.
  unfold value, set_value. simpl slot.
  unfold Mach.to_long, Mach.to_size_t, Mach.wrap_signed, Mach.wrap_unsigned.
  change (64 - 1) with 63.
  rewrite Z.add_mod_idemp_l by lia.
  rewrite Z.mod_small by lia. lia.
Qed.

(** A bit pattern written to the cell reads back as the same
    [double]. *)
Lemma percent_set_percent_bits bits b :
  0 <= bits < 2 ^ 64 -> percent (set_percent_bits bits b) = Dbl.of_bits bits.
Proof.
  intros Hb. unfold percent, set_percent_bits. simpl slot.
  rewrite to_size_t_id by lia. reflexivity.
Qed.

(** Storing into the cell and drawing. *)
Lemma store_then_draw bar w b cell u w2 :
  heap w !! bar = Some b ->
  bind (store bar (set_slot cell)) (fun _ => progressbar_draw bar) w = Ok u w2 ->
  progressbar_draw bar (with_heap (<[bar := set_slot cell b]> (heap w)) w) = Ok u w2 /\
  exists b2 line,
    heap w2 !! bar = Some b2 /\
    slot b2 = cell /\ max b2 = max b /\ start b2 = start b /\ label b2 = label b /\
    format b2 = format b /\ tumbler_format b2 = tumbler_format b /\
    tumbler_length b2 = tumbler_length b /\
    stderr w2 = stderr w ++ line ++ ["013"%char].
Proof.
  intros Hb Hrun.
  rewrite (bind_ok _ _ _ _ _ (store_run bar (set_slot cell) w b Hb)) in Hrun.
  split; [exact Hrun|].
  assert (Hb1 : heap (with_heap (<[bar := set_slot cell b]> (heap w)) w) !! bar
                = Some (set_slot cell b)) by apply lookup_insert_eq.
  destruct (draw_frame _ _ _ _ _ Hrun Hb1)
    as ((b2 & Hb2 & E1 & E2 & E3 & E4 & E5 & E6 & E7 & _) & _).
  destruct (draw_inv _ _ _ _ Hrun)
    as (b0 & lbl & raw & secs & label_part & tumbler_part & b' & _ & _ & _ & _ & _ & _ & E).
  destruct (after_draw_stderr bar (with_heap (<[bar := set_slot cell b]> (heap w)) w)
              b0 lbl raw secs label_part tumbler_part b') as (line & Hline).
  rewrite <- E in Hline.
  exists b2, line.
  split; [exact Hb2|]. split; [exact E2|]. split; [exact E1|].
  split; [exact E3|]. split; [exact E4|]. split; [exact E5|].
  split; [exact E6|]. split; [exact E7|]. exact Hline.
Qed.

End Mutators.

(** X10.  [progressbar_update] stores the value and draws the bar
    once.  When it returns, the bar holds the new value, every other
    field but the tumbler cursor is as before, and one line ending in
    a carriage return has been written. *)
Theorem update_stores_and_draws
    (w w2 : world) (bar : ptr) (u : unit) (b : progressbar) (v : Z) :
  heap w !! bar = Some b -> is_long v ->
  progressbar_update bar v w = Ok u w2 ->
  progressbar_draw bar (with_heap (<[bar := set_value v b]> (heap w)) w) = Ok u w2 /\
  exists b2 line,
    heap w2 !! bar = Some b2 /\
    value b2 = v /\ max b2 = max b /\ start b2 = start b /\ label b2 = label b /\
    format b2 = format b /\ tumbler_format b2 = tumbler_format b /\
    tumbler_length b2 = tumbler_length b /\
    stderr w2 = stderr w ++ line ++ ["013"%char].
Proof.
  intros Hb Hv Hrun.
  destruct (Mutators.store_then_draw bar w b (Mach.to_size_t v) u w2 Hb Hrun)
    as (Hd & b2 & line & Hb2 & Hs & Hrest).
  split; [exact Hd|].
  exists b2, line. split; [exact Hb2|]. split; [|exact Hrest].
  pose proof (Mutators.value_set_value v b Hv) as Hval.
  unfold value in *. rewrite Hs. exact Hval.
Qed.

Lemma update_stores_and_draws_witness :
  match progressbar_update 1 7 (world_with_bar (sample_steps_bar 10 5 NULL 0)) with
  | Ok _ w2 => exists b2, heap w2 !! 1 = Some b2 /\ value b2 = 7
  | Fault _ => False
  end.
Proof.
  destruct (progressbar_update 1 7 (world_with_bar (sample_steps_bar 10 5 NULL 0)))
    as [u w2|f] eqn:E.
  - assert (Hb : heap (world_with_bar (sample_steps_bar 10 5 NULL 0)) !! 1
                 = Some (sample_steps_bar 10 5 NULL 0)) by (vm_compute; reflexivity).
    assert (Hv : is_long 7) by (unfold is_long; lia).
    destruct (update_stores_and_draws _ _ 1 u _ 7 Hb Hv E)
      as (_ & b2 & line & Hb2 & Hval & _).
    exists b2. split; [exact Hb2|exact Hval].
  - vm_compute in E. discriminate E.
Defined.

(** X11.  [progressbar_inc] is an update to the value plus one: below
    the largest [long], the bar holds one step more when the call
    returns, and nothing else but the tumbler cursor has changed. *)
Theorem inc_adds_one_step
    (w w2 : world) (bar : ptr) (u : unit) (b : progressbar) :
  heap w !! bar = Some b -> value b < 2 ^ 63 - 1 ->
  progressbar_inc bar w = Ok u w2 ->
  progressbar_update bar (value b + 1) w = Ok u w2 /\
  exists b2,
    heap w2 !! bar = Some b2 /\
    value b2 = value b + 1 /\ max b2 = max b /\ start b2 = start b /\
    label b2 = label b /\ format b2 = format b /\
    tumbler_format b2 = tumbler_format b /\ tumbler_length b2 = tumbler_length b.
Proof.
  intros Hb Hv Hrun.
  pose proof (MachFacts.to_long_range (slot b)) as Hr. fold (value b) in Hr.
  assert (Hl : is_long (value b + 1)) by (unfold is_long; lia).
  unfold progressbar_inc in Hrun.
  rewrite (Run.bind_ok _ _ _ _ _ (Run.load_run bar w b Hb)) in Hrun.
  rewrite (MachFacts.to_long_id (value b + 1)) in Hrun by exact Hl.
  split; [exact Hrun|].
  destruct (Mutators.store_then_draw bar w b (Mach.to_size_t (value b + 1)) u w2 Hb Hrun)
    as (_ & b2 & line & Hb2 & Hs & E1 & E2 & E3 & E4 & E5 & E6 & _).
  exists b2. split; [exact Hb2|]. split.
  - pose proof (Mutators.value_set_value (value b + 1) b Hl) as Hval.
    unfold value in *. rewrite Hs. exact Hval.
  - repeat split; assumption.
Qed.

Lemma inc_adds_one_step_witness :
  match progressbar_inc 1 (world_with_bar (sample_steps_bar 10 5 NULL 0)) with
  | Ok _ w2 => exists b2, heap w2 !! 1 = Some b2 /\ value b2 = 5 + 1
  | Fault _ => False
  end.
Proof.
  destruct (progressbar_inc 1 (world_with_bar (sample_steps_bar 10 5 NULL 0)))
    as [u w2|f] eqn:E.
  - assert (Hb : heap (world_with_bar (sample_steps_bar 10 5 NULL 0)) !! 1
                 = Some (sample_steps_bar 10 5 NULL 0)) by (vm_compute; reflexivity).
    assert (Hv : value (sample_steps_bar 10 5 NULL 0) < 2 ^ 63 - 1)
      by (vm_compute; reflexivity).
    destruct (inc_adds_one_step _ _ 1 u _ Hb Hv E) as (_ & b2 & Hb2 & Hval & _).
    exists b2. split; [exact Hb2|exact Hval].
  - vm_compute in E. discriminate E.
Defined.

(** X12.  [progressbar_update_percent] stores the fraction in the
    cell the value shares and draws the bar once; when it returns the
    bar holds that fraction, and the mode, the label, the glyphs and
    the start time are as before. *)
Theorem update_percent_stores_and_draws
    (w w2 : world) (bar : ptr) (u : unit) (b : progressbar) (bits : Z) :
  heap w !! bar = Some b -> 0 <= bits < 2 ^ 64 ->
  progressbar_update_percent bar bits w = Ok u w2 ->
  exists b2 line,
    heap w2 !! bar = Some b2 /\
    percent b2 = Dbl.of_bits bits /\ max b2 = max b /\ start b2 = start b /\
    label b2 = label b /\ format b2 = format b /\
    tumbler_format b2 = tumbler_format b /\ tumbler_length b2 = tumbler_length b /\
    stderr w2 = stderr w ++ line ++ ["013"%char].
Proof.
  intros Hb Hbits Hrun.
  destruct (Mutators.store_then_draw bar w b (Mach.to_size_t bits) u w2 Hb Hrun)
    as (_ & b2 & line & Hb2 & Hs & Hrest).
  exists b2, line. split; [exact Hb2|]. split; [|exact Hrest].
  unfold percent. rewrite Hs, MachFacts.to_size_t_id by lia. reflexivity.
Qed.

Lemma update_percent_stores_and_draws_witness :
  match progressbar_update_percent 1 (1022 * 2 ^ 52)
          (world_with_bar (sample_percent_bar 0)) with
  | Ok _ w2 => exists b2, heap w2 !! 1 = Some b2 /\
                          percent b2 = Dbl.of_bits (1022 * 2 ^ 52)
  | Fault _ => False
  end.
Proof.
  destruct (progressbar_update_percent 1 (1022 * 2 ^ 52)
              (world_with_bar (sample_percent_bar 0))) as [u w2|f] eqn:E.
  - assert (Hb : heap (world_with_bar (sample_percent_bar 0)) !! 1
                 = Some (sample_percent_bar 0)) by (vm_compute; reflexivity).
    assert (Hbits : 0 <= 1022 * 2 ^ 52 < 2 ^ 64) by lia.
    destruct (update_percent_stores_and_draws _ _ 1 u _ _ Hb Hbits E)
      as (b2 & line & Hb2 & Hp & _).
    exists b2. split; [exact Hb2|exact Hp].
  - vm_compute in E. discriminate E.
Defined.

(** ** The end of a bar *)

Module Finish.
Import MachFacts Run.

(** The world in which [progressbar_finish] draws. *)
Definition forced (bar : ptr) (b : progressbar) (w : world) : world :=
  if max b <? 0
  then with_heap (<[bar := set_percent_bits Dbl.bits_one b]> (heap w)) w
  else w.

Lemma forced_lookup bar b w :
  heap w !! bar = Some b ->
  heap (forced bar b w) !! bar
  = Some (if max b <? 0 then set_percent_bits Dbl.bits_one b else b).
Proof.
  intros Hb. unfold forced. destruct (max b <? 0); [apply lookup_insert_eq|exact Hb].
Qed.

Lemma forced_other bar b w p :
  p <> bar -> heap (forced bar b w) !! p = heap w !! p.
Proof.
  intros Hp. unfold forced. destruct (max b <? 0); [|reflexivity].
  apply lookup_insert_ne. congruence.
Qed.

Lemma forced_stderr bar b w : stderr (forced bar b w) = stderr w.
Proof. unfold forced. destruct (max b <? 0); reflexivity. Qed.

(** [progressbar_finish], from the draw on. *)
Lemma finish_run bar w b :
  heap w !! bar = Some b -> bar <> NULL ->
  progressbar_finish bar w =
  match progressbar_draw bar (forced bar b w) with
  | Ok _ w1 =>
      Ok tt (with_heap (delete bar (heap w1))
               (with_stderr (stderr w1 ++ ["010"%char]) w1))
  | Fault f => Fault f
  end.
Proof.
  intros Hb Hnull. unfold progressbar_finish.
  rewrite (bind_ok _ _ _ _ _ (load_run bar w b Hb)).
  assert (Hforce :
    (if max b <? 0 then store bar (set_percent_bits Dbl.bits_one) else ret tt) w
    = Ok tt (forced bar b w)).
  { unfold forced. destruct (max b <? 0).
    - exact (store_run bar _ w b Hb).
    - reflexivity. }
  rewrite (bind_ok _ _ _ _ _ Hforce).
  unfold bind at 1.
  destruct (progressbar_draw bar (forced bar b w)) as [u w1|f] eqn:Hd; [|reflexivity].
  destruct (draw_frame _ _ _ _ _ Hd (forced_lookup bar b w Hb)) as ((b2 & Hb2 & _) & _).
  rewrite (bind_ok _ _ _ _ _ (fprintf_run newline [] _)).
  unfold progressbar_free, free.
  replace (bar =? NULL) with false by (symmetry; apply Z.eqb_neq; exact Hnull).
  rewrite heap_emit, Hb2. reflexivity.
Qed.

End Finish.

(** What a finished bar leaves behind. *)
Lemma finish_post
    (w w2 : world) (bar : ptr) (u : unit) (b : progressbar) :
  heap w !! bar = Some b -> bar <> NULL ->
  progressbar_finish bar w = Ok u w2 ->
  heap w2 !! bar = None /\
  (forall p, p <> bar -> heap w2 !! p = heap w !! p) /\
  (exists line, stderr w2 = stderr w ++ line ++ ["013"%char; "010"%char]) /\
  (forall v, progressbar_update bar v w2 = Fault Undefined) /\
  (forall bits, progressbar_update_percent bar bits w2 = Fault Undefined) /\
  progressbar_inc bar w2 = Fault Undefined /\
  (forall l, progressbar_update_label bar l w2 = Fault Undefined) /\
  progressbar_finish bar w2 = Fault Undefined.
Proof.
  intros Hb Hnull Hrun.
  rewrite (Finish.finish_run bar w b Hb Hnull) in Hrun.
  destruct (progressbar_draw bar (Finish.forced bar b w)) as [u1 w1|f] eqn:Hd;
    [|discriminate].
  injection Hrun as _ <-.
  destruct (draw_frame _ _ _ _ _ Hd (Finish.forced_lookup bar b w Hb))
    as (_ & Hother & _).
  assert (Hnone : heap (with_heap (delete bar (heap w1))
                          (with_stderr (stderr w1 ++ ["010"%char]) w1)) !! bar = None)
    by apply lookup_delete_eq.
  split; [exact Hnone|]. split; [|split].
  - intros p Hp.
    change (heap (with_heap ?h _)) with h.
    rewrite lookup_delete_ne by congruence.
    rewrite (Hother p Hp). apply Finish.forced_other. exact Hp.
  - destruct (Run.draw_inv _ _ _ _ Hd)
      as (b0 & lbl & raw & secs & label_part & tumbler_part & b' &
          _ & _ & _ & _ & _ & _ & E).
    destruct (Run.after_draw_stderr bar (Finish.forced bar b w)
                b0 lbl raw secs label_part tumbler_part b') as (line & Hline).
    rewrite <- E, Finish.forced_stderr in Hline.
    exists line.
    change (stderr (with_heap _ (with_stderr ?o _))) with o.
    rewrite Hline. rewrite <- !app_assoc. reflexivity.
  - repeat split.
    + intros v. unfold progressbar_update, bind, store. rewrite Hnone. reflexivity.
    + intros bits. unfold progressbar_update_percent, bind, store.
      rewrite Hnone. reflexivity.
    + unfold progressbar_inc, bind, load. rewrite Hnone. reflexivity.
    + intros l. unfold progressbar_update_label, store. rewrite Hnone. reflexivity.
    + unfold progressbar_finish, bind, load. rewrite Hnone. reflexivity.
Qed.

(** X13.  When [progressbar_finish] returns, the bar is gone and no
    other bar has been touched; the output ends with the carriage
    return of the last draw and one newline.  The pointer is dangling
    from then on: updating, incrementing, relabelling or finishing the
    bar again has no defined behaviour. *)
Theorem finish_leaves_a_dangling_pointer
    (w w2 : world) (bar : ptr) (u : unit) (b : progressbar) :
  heap w !! bar = Some b -> bar <> NULL ->
  progressbar_finish bar w = Ok u w2 ->
  heap w2 !! bar = None /\
  (forall p, p <> bar -> heap w2 !! p = heap w !! p) /\
  (exists line, stderr w2 = stderr w ++ line ++ ["013"%char; "010"%char]) /\
  (forall v, progressbar_update bar v w2 = Fault Undefined) /\
  (forall bits, progressbar_update_percent bar bits w2 = Fault Undefined) /\
  progressbar_inc bar w2 = Fault Undefined /\
  (forall l, progressbar_update_label bar l w2 = Fault Undefined) /\
  progressbar_finish bar w2 = Fault Undefined.
Proof. exact (finish_post w w2 bar u b). Qed.

Lemma finish_leaves_a_dangling_pointer_witness :
  match progressbar_finish 1 (world_with_bar (sample_steps_bar 10 5 NULL 0)) with
  | Ok _ w2 => heap w2 !! 1 = None /\ progressbar_finish 1 w2 = Fault Undefined
  | Fault _ => False
  end.
Proof.
  destruct (progressbar_finish 1 (world_with_bar (sample_steps_bar 10 5 NULL 0)))
    as [u w2|f] eqn:E.
  - assert (Hb : heap (world_with_bar (sample_steps_bar 10 5 NULL 0)) !! 1
                 = Some (sample_steps_bar 10 5 NULL 0)) by (vm_compute; reflexivity).
    assert (Hn : 1 <> NULL) by discriminate.
    destruct (finish_leaves_a_dangling_pointer _ _ 1 u _ Hb Hn E)
      as (H1 & _ & _ & _ & _ & _ & _ & H2).
    split; [exact H1|exact H2].
  - vm_compute in E. discriminate E.
Defined.

(** ** The constructors *)

Module Construct.
Import MachFacts Run.

(** [strlen] of the tumbler format, when there is one. *)
Definition tumbler_length_of (w : world) (tumbler_format : ptr) : option Z :=
  if tumbler_format =? NULL then Some 0
  else match strings w !! tumbler_format with
       | Some t => Some (strlen t)
       | None => None
       end.

(** The bar as [progressbar_assign_values] leaves it. *)
Definition assigned (b : progressbar) (now : Z) (c0 c1 c2 c3 : ascii)
    (tumbler_format : ptr) (len : Z) : progressbar :=
  {| max := max b; slot := slot b; start := now; label := label b;
     format := {| fmt_begin := c0; fmt_fill := c1; fmt_unfilled := c2; fmt_end := c3 |};
     tumbler_format := tumbler_format; tumbler_length := len; tumbler_pos := 0 |}.

Lemma heap_with_heap h w : heap (with_heap h w) = h.
Proof. reflexivity. Qed.

Lemma strings_with_heap h w : strings (with_heap h w) = strings w.
Proof. reflexivity. Qed.

Lemma with_heap_twice h h' w : with_heap h (with_heap h' w) = with_heap h w.
Proof. reflexivity. Qed.

(** A store into a world whose heap was just written at the same
    address. *)
Lemma store_again bar f h b w :
  store bar f (with_heap (<[bar := b]> h) w)
  = Ok tt (with_heap (<[bar := f b]> h) w).
Proof.
  unfold store. rewrite heap_with_heap, lookup_insert_eq.
  rewrite insert_insert_eq. reflexivity.
Qed.

Lemma assign_values_run bar w b format tumbler_format c0 c1 c2 c3 len :
  heap w !! bar = Some b ->
  strings w !! format = Some (String c0 (String c1 (String c2 (String c3 EmptyString)))) ->
  tumbler_length_of w tumbler_format = Some len ->
  progressbar_assign_values bar format tumbler_format w =
  Ok tt (with_heap
           (<[bar := assigned b (clock w (ticks w)) c0 c1 c2 c3 tumbler_format len]>
              (heap w))
           (with_ticks (S (ticks w)) w)).
Proof.
  intros Hb Hf Ht. unfold progressbar_assign_values.
  unfold bind at 1. unfold time at 1.
  assert (Hb1 : heap (with_ticks (S (ticks w)) w) !! bar = Some b) by exact Hb.
  rewrite (bind_ok _ _ _ _ _ (store_run bar (set_start (clock w (ticks w))) _ b Hb1)).
  rewrite heap_with_ticks.
  set (w1 := with_ticks (S (ticks w)) w).
  assert (Hf1 : forall h, strings (with_heap h w1) !! format
                = Some (String c0 (String c1 (String c2 (String c3 EmptyString)))))
    by (intros h; exact Hf).
  rewrite (bind_ok _ _ _ _ _ (load_string_run _ _ _ (Hf1 _))).
  change (strlen (String c0 (String c1 (String c2 (String c3 EmptyString)))) =? 4)
    with true.
  cbv iota.
  change (char_at (String c0 (String c1 (String c2 (String c3 EmptyString)))) 0)
    with (Some c0).
  change (char_at (String c0 (String c1 (String c2 (String c3 EmptyString)))) 1)
    with (Some c1).
  change (char_at (String c0 (String c1 (String c2 (String c3 EmptyString)))) 2)
    with (Some c2).
  change (char_at (String c0 (String c1 (String c2 (String c3 EmptyString)))) 3)
    with (Some c3).
  rewrite !defined_some.
  rewrite (bind_ok _ _ _ _ _ (store_again bar _ _ _ _)).
  rewrite (bind_ok _ _ _ _ _ (store_again bar _ _ _ _)).
  assert (Hlen : forall h,
    (if tumbler_format =? NULL then ret 0
     else do t <- load_string tumbler_format ; ret (strlen t)) (with_heap h w1)
    = Ok len (with_heap h w1)).
  { intros h. unfold tumbler_length_of in Ht.
    destruct (tumbler_format =? NULL).
    - injection Ht as <-. reflexivity.
    - assert (Hs : strings (with_heap h w1) !! tumbler_format = strings w !! tumbler_format)
        by reflexivity.
      destruct (strings w !! tumbler_format) as [t|] eqn:Hst; [|discriminate].
      injection Ht as <-.
      rewrite (bind_ok _ _ _ _ _ (load_string_run _ _ _ Hs)). reflexivity. }
  rewrite (bind_ok _ _ _ _ _ (Hlen _)).
  rewrite (bind_ok _ _ _ _ _ (store_again bar _ _ _ _)).
  rewrite store_again. reflexivity.
Qed.

(** A format that is not four bytes long fails the assertion. *)
Lemma assign_values_abort bar w b format tumbler_format fmt :
  heap w !! bar = Some b ->
  strings w !! format = Some fmt -> strlen fmt <> 4 ->
  progressbar_assign_values bar format tumbler_format w = Fault Aborted.
Proof.
  intros Hb Hf Hne. unfold progressbar_assign_values.
  unfold bind at 1. unfold time at 1.
  assert (Hb1 : heap (with_ticks (S (ticks w)) w) !! bar = Some b) by exact Hb.
  rewrite (bind_ok _ _ _ _ _ (store_run bar (set_start (clock w (ticks w))) _ b Hb1)).
  assert (Hf1 : strings (with_heap (<[bar := set_start (clock w (ticks w)) b]>
                                      (heap (with_ticks (S (ticks w)) w)))
                           (with_ticks (S (ticks w)) w)) !! format = Some fmt)
    by exact Hf.
  rewrite (bind_ok _ _ _ _ _ (load_string_run _ _ _ Hf1)).
  replace (strlen fmt =? 4) with false by (symmetry; apply Z.eqb_neq; exact Hne).
  reflexivity.
Qed.

(** The body every constructor runs on the fresh block, up to the
    draw. *)
Lemma build_run {A} pb w b0 f1 f2 new_label format_p tumbler_p c0 c1 c2 c3 len
    (k : unit -> M A) :
  heap w !! pb = Some b0 ->
  strings w !! format_p = Some (String c0 (String c1 (String c2 (String c3 EmptyString)))) ->
  tumbler_length_of w tumbler_p = Some len ->
  bind (store pb f1)
    (fun _ => bind (store pb f2)
    (fun _ => bind (progressbar_assign_values pb format_p tumbler_p)
    (fun _ => bind (progressbar_update_label pb new_label)
    (fun _ => bind (progressbar_draw pb) k)))) w
  = bind (progressbar_draw pb) k
      (with_heap
         (<[pb := set_label new_label
                    (assigned (f2 (f1 b0)) (clock w (ticks w)) c0 c1 c2 c3
                       tumbler_p len)]> (heap w))
         (with_ticks (S (ticks w)) w)).
Proof.
  intros Hb Hf Ht.
  rewrite (bind_ok _ _ _ _ _ (store_run pb f1 w b0 Hb)).
  rewrite (bind_ok _ _ _ _ _ (store_again pb f2 _ _ _)).
  assert (Hb2 : heap (with_heap (<[pb := f2 (f1 b0)]> (heap w)) w) !! pb
                = Some (f2 (f1 b0))) by apply lookup_insert_eq.
  rewrite (bind_ok _ _ _ _ _
             (assign_values_run pb _ _ format_p tumbler_p c0 c1 c2 c3 len Hb2 Hf Ht)).
  rewrite heap_with_heap, insert_insert_eq.
  unfold progressbar_update_label.
  rewrite (bind_ok _ _ _ _ _ (store_again pb _ _ _ _)).
  reflexivity.
Qed.

(** The block [malloc] hands out. *)
Definition fresh (w : world) : ptr := Z.max 1 (next_block w).

Definition allocated (w : world) : world :=
  with_next_block (fresh w + 1) (with_heap (<[fresh w := junk w]> (heap w)) w).

Lemma malloc_run w : malloc_ok w = true -> malloc w = Ok (fresh w) (allocated w).
Proof. intros H. unfold malloc. rewrite H. reflexivity. Qed.

Lemma fresh_not_null w : (fresh w =? NULL) = false.
Proof. apply Z.eqb_neq. unfold fresh, NULL. lia. Qed.

(** The cursor after the first draw of a new bar. *)
Lemma first_cursor len :
  0 < len ->
  0 <= Mach.to_uint (Mach.to_uint (0 + 1) mod len) < len.
Proof.
  intros Hl. change (Mach.to_uint (0 + 1)) with 1.
  destruct (Z.eq_dec len 1) as [->|Hne].
  - vm_compute. split; [discriminate|reflexivity].
  - rewrite Z.mod_small by lia. change (Mach.to_uint 1) with 1. lia.
Qed.

(** What a constructor has built when its draw returns. *)
Lemma built {A} w f1 f2 new_label format_p tumbler_p c0 c1 c2 c3 len (r0 r : A) w2 :
  strings w !! format_p = Some (String c0 (String c1 (String c2 (String c3 EmptyString)))) ->
  tumbler_length_of w tumbler_p = Some len ->
  bind (store (fresh w) f1)
    (fun _ => bind (store (fresh w) f2)
    (fun _ => bind (progressbar_assign_values (fresh w) format_p tumbler_p)
    (fun _ => bind (progressbar_update_label (fresh w) new_label)
    (fun _ => bind (progressbar_draw (fresh w)) (fun _ => ret r0))))) (allocated w)
  = Ok r w2 ->
  r = r0 /\
  (exists b2,
     heap w2 !! fresh w = Some b2 /\
     max b2 = max (f2 (f1 (junk w))) /\ slot b2 = slot (f2 (f1 (junk w))) /\
     start b2 = clock w (ticks w) /\ label b2 = new_label /\
     format b2 = {| fmt_begin := c0; fmt_fill := c1; fmt_unfilled := c2; fmt_end := c3 |} /\
     tumbler_format b2 = tumbler_p /\ tumbler_length b2 = len /\
     (0 < len -> 0 <= tumbler_pos b2 < len)) /\
  (forall q, q <> fresh w -> heap w2 !! q = heap w !! q) /\
  strings w2 = strings w /\ next_block w2 = fresh w + 1 /\
  ticks w2 = S (S (ticks w)) /\
  exists line, stderr w2 = stderr w ++ line ++ ["013"%char].
Proof.
  intros Hf Ht Hrun.
  assert (Hb : heap (allocated w) !! fresh w = Some (junk w)) by apply lookup_insert_eq.
  rewrite (build_run (fresh w) (allocated w) (junk w) f1 f2 new_label format_p tumbler_p
             c0 c1 c2 c3 len _ Hb Hf Ht) in Hrun.
  unfold bind in Hrun.
  match type of Hrun with
  | match progressbar_draw ?p ?w0 with _ => _ end = _ =>
      set (w1 := w0) in *; destruct (progressbar_draw p w1) as [u w3|f] eqn:Hd;
      [|discriminate]
  end.
  injection Hrun as <- <-.
  split; [reflexivity|].
  set (b1 := set_label new_label
               (assigned (f2 (f1 (junk w))) (clock (allocated w) (ticks (allocated w)))
                  c0 c1 c2 c3 tumbler_p len)) in *.
  assert (Hb1 : heap w1 !! fresh w = Some b1) by apply lookup_insert_eq.
  destruct (draw_inv _ _ _ _ Hd)
    as (b0 & lbl & raw & secs & label_part & tumbler_part & b' &
        Hb0 & _ & _ & _ & _ & Hts & E).
  rewrite Hb1 in Hb0. injection Hb0 as <-.
  destruct (draw_frame _ _ _ _ _ Hd Hb1)
    as ((b2 & Hb2 & E1 & E2 & E3 & E4 & E5 & E6 & E7 & _) & Hother & Hs & Hnb & _ & Htk).
  destruct (after_draw_stderr (fresh w) w1 b1 lbl raw secs label_part tumbler_part b')
    as (line & Hline).
  rewrite <- E in Hline.
  split; [|split; [|split; [|split; [|split]]]].
  - exists b2. split; [exact Hb2|].
    split; [exact E1|]. split; [exact E2|]. split; [exact E3|]. split; [exact E4|].
    split; [exact E5|]. split; [exact E6|]. split; [exact E7|].
    intros Hlen.
    rewrite E in Hb2. rewrite DrawFacts.heap_after_draw in Hb2.
    unfold tumbler_step in Hts.
    destruct (draw_tumbler b1 (piece_count_of w1 lbl) (draw_piece_current b1 raw)).
    + rewrite lookup_insert_eq in Hb2. injection Hb2 as <-.
      destruct (strings w1 !! tumbler_format b1) as [t|]; [|discriminate].
      destruct (char_at t (tumbler_pos b1)) as [ch|]; [|discriminate].
      injection Hts as _ <-.
      exact (first_cursor len Hlen).
    + rewrite Hb1 in Hb2. injection Hb2 as <-. simpl. lia.
  - intros q Hq. rewrite (Hother q Hq).
    unfold w1. rewrite heap_with_heap.
    rewrite lookup_insert_ne by congruence.
    apply lookup_insert_ne. congruence.
  - exact Hs.
  - exact Hnb.
  - exact Htk.
  - exists line. exact Hline.
Qed.

End Construct.

(** X14.  When a steps-mode constructor returns after a successful
    allocation, it returns the fresh block, which is not [NULL], and
    the bar in it is fully initialised: the maximum as given, the
    value 0, the start time read from the clock, the label pointer,
    the four glyphs of the format string, the tumbler format with its
    length, and a cursor inside the tumbler.  The bar has been drawn
    once, the clock has been read twice, and no other bar has been
    touched.  The constructors without a tumbler argument are this one
    with a [NULL] tumbler. *)
Theorem steps_constructor_builds_the_bar
    (w w2 : world) (new_label format_p tumbler_p : ptr) (mx : Z)
    (c0 c1 c2 c3 : ascii) (len : Z) (r : returned) :
  malloc_ok w = true ->
  strings w !! format_p
    = Some (String c0 (String c1 (String c2 (String c3 EmptyString)))) ->
  Construct.tumbler_length_of w tumbler_p = Some len ->
  progressbar_new_with_format_and_tumbler new_label mx format_p tumbler_p w = Ok r w2 ->
  r = Return (Construct.fresh w) /\ Construct.fresh w <> NULL /\
  (exists b2,
     heap w2 !! Construct.fresh w = Some b2 /\
     max b2 = mx /\ value b2 = 0 /\
     start b2 = clock w (ticks w) /\ label b2 = new_label /\
     format b2 = {| fmt_begin := c0; fmt_fill := c1; fmt_unfilled := c2; fmt_end := c3 |} /\
     tumbler_format b2 = tumbler_p /\ tumbler_length b2 = len /\
     (0 < len -> 0 <= tumbler_pos b2 < len)) /\
  (forall q, q <> Construct.fresh w -> heap w2 !! q = heap w !! q) /\
  strings w2 = strings w /\ next_block w2 = Construct.fresh w + 1 /\
  ticks w2 = S (S (ticks w)) /\
  (exists line, stderr w2 = stderr w ++ line ++ ["013"%char]) /\
  progressbar_new_with_format new_label mx format_p
    = progressbar_new_with_format_and_tumbler new_label mx format_p NULL /\
  progressbar_new format_p new_label mx
    = progressbar_new_with_format_and_tumbler new_label mx format_p NULL.
Proof.
  intros Hok Hf Ht Hrun.
  unfold progressbar_new_with_format_and_tumbler in Hrun.
  rewrite (Run.bind_ok _ _ _ _ _ (Construct.malloc_run w Hok)) in Hrun.
  rewrite Construct.fresh_not_null in Hrun.
  destruct (Construct.built w (set_max mx) (set_value 0) new_label format_p tumbler_p
              c0 c1 c2 c3 len _ r w2 Hf Ht Hrun)
    as (-> & (b2 & Hb2 & E1 & E2 & Hrest) & Hframe).
  split; [reflexivity|].
  split; [apply Z.eqb_neq; apply Construct.fresh_not_null|].
  split.
  - exists b2. split; [exact Hb2|]. split; [exact E1|]. split; [|exact Hrest].
    unfold value. rewrite E2. reflexivity.
  - destruct Hframe as (F1 & F2 & F3 & F4 & F5).
    split; [exact F1|]. split; [exact F2|]. split; [exact F3|]. split; [exact F4|].
    split; [exact F5|]. split; reflexivity.
Qed.

Lemma steps_constructor_builds_the_bar_witness :
  match progressbar_new_with_format_and_tumbler 100 10 200 300 sample_world with
  | Ok r w2 => r = Return 1 /\
               exists b2, heap w2 !! 1 = Some b2 /\ max b2 = 10 /\ value b2 = 0 /\
                          tumbler_length b2 = 4
  | Fault _ => False
  end.
Proof.
  destruct (progressbar_new_with_format_and_tumbler 100 10 200 300 sample_world)
    as [r w2|f] eqn:E.
  - destruct (steps_constructor_builds_the_bar sample_world w2 100 200 300 10
                "|" "=" " " "|" 4 r) as (Hr & _ & (b2 & Hb2 & E1 & E2 & _ & _ & _ & _ & E3 & _) & _).
    + reflexivity.
    + vm_compute; reflexivity.
    + vm_compute; reflexivity.
    + exact E.
    + split; [exact Hr|]. exists b2.
      split; [exact Hb2|]. split; [exact E1|]. split; [exact E2|exact E3].
  - vm_compute in E. discriminate E.
Defined.

(** X15.  When the percent-mode constructor with a tumbler argument
    returns after a successful allocation, it returns the fresh block
    with the bar initialised for percent mode: the maximum is -1, the
    fraction is 0.0, and the start time, the label, the glyphs and the
    tumbler are set as in steps mode. *)
Theorem percent_constructor_builds_the_bar
    (w w2 : world) (new_label format_p tumbler_p : ptr)
    (c0 c1 c2 c3 : ascii) (len : Z) (r : returned) :
  malloc_ok w = true ->
  strings w !! format_p
    = Some (String c0 (String c1 (String c2 (String c3 EmptyString)))) ->
  Construct.tumbler_length_of w tumbler_p = Some len ->
  progressbar_new_percent_with_format_and_tumbler new_label format_p tumbler_p w
    = Ok r w2 ->
  r = Return (Construct.fresh w) /\ Construct.fresh w <> NULL /\
  (exists b2,
     heap w2 !! Construct.fresh w = Some b2 /\
     max b2 = -1 /\ percent b2 = Dbl.zero /\
     start b2 = clock w (ticks w) /\ label b2 = new_label /\
     format b2 = {| fmt_begin := c0; fmt_fill := c1; fmt_unfilled := c2; fmt_end := c3 |} /\
     tumbler_format b2 = tumbler_p /\ tumbler_length b2 = len /\
     (0 < len -> 0 <= tumbler_pos b2 < len)) /\
  (forall q, q <> Construct.fresh w -> heap w2 !! q = heap w !! q) /\
  strings w2 = strings w /\ next_block w2 = Construct.fresh w + 1 /\
  ticks w2 = S (S (ticks w)) /\
  (exists line, stderr w2 = stderr w ++ line ++ ["013"%char]).
Proof.
  intros Hok Hf Ht Hrun.
  unfold progressbar_new_percent_with_format_and_tumbler in Hrun.
  rewrite (Run.bind_ok _ _ _ _ _ (Construct.malloc_run w Hok)) in Hrun.
  rewrite Construct.fresh_not_null in Hrun.
  destruct (Construct.built w (set_max (-1)) (set_percent_bits Dbl.bits_zero)
              new_label format_p tumbler_p c0 c1 c2 c3 len _ r w2 Hf Ht Hrun)
    as (-> & (b2 & Hb2 & E1 & E2 & Hrest) & Hframe).
  split; [reflexivity|].
  split; [apply Z.eqb_neq; apply Construct.fresh_not_null|].
  split; [|exact Hframe].
  exists b2. split; [exact Hb2|]. split; [exact E1|]. split; [|exact Hrest].
  unfold percent. rewrite E2. reflexivity.
Qed.

Lemma percent_constructor_builds_the_bar_witness :
  match progressbar_new_percent_with_format_and_tumbler 100 200 300 sample_world with
  | Ok r w2 => r = Return 1 /\
               exists b2, heap w2 !! 1 = Some b2 /\ max b2 = -1 /\ percent b2 = Dbl.zero
  | Fault _ => False
  end.
Proof.
  destruct (progressbar_new_percent_with_format_and_tumbler 100 200 300 sample_world)
    as [r w2|f] eqn:E.
  - destruct (percent_constructor_builds_the_bar sample_world w2 100 200 300
                "|" "=" " " "|" 4 r) as (Hr & _ & (b2 & Hb2 & E1 & E2 & _) & _).
    + reflexivity.
    + vm_compute; reflexivity.
    + vm_compute; reflexivity.
    + exact E.
    + split; [exact Hr|]. exists b2.
      split; [exact Hb2|]. split; [exact E1|exact E2].
  - vm_compute in E. discriminate E.
Defined.

(** X16.  When the allocation fails, every constructor returns [NULL]
    and has done nothing else: nothing is written, the clock is not
    read, and no string is looked at. *)
Theorem constructors_return_null_without_memory
    (w : world) (new_label format_p tumbler_p : ptr) (mx : Z) :
  malloc_ok w = false ->
  progressbar_new_with_format new_label mx format_p w = Ok (Return NULL) w /\
  progressbar_new_with_format_and_tumbler new_label mx format_p tumbler_p w
    = Ok (Return NULL) w /\
  progressbar_new_percent_with_format new_label format_p w = Ok (Return NULL) w /\
  progressbar_new_percent_with_format_and_tumbler new_label format_p tumbler_p w
    = Ok (Return NULL) w /\
  progressbar_new format_p new_label mx w = Ok (Return NULL) w /\
  progressbar_new_percent format_p new_label w = Ok (Return NULL) w.
Proof.
  intros Hfail.
  assert (Hm : malloc w = Ok NULL w) by (unfold malloc; rewrite Hfail; reflexivity).
  unfold progressbar_new, progressbar_new_percent,
    progressbar_new_with_format, progressbar_new_with_format_and_tumbler,
    progressbar_new_percent_with_format,
    progressbar_new_percent_with_format_and_tumbler.
  rewrite !(Run.bind_ok _ _ _ _ _ Hm).
  change (NULL =? NULL) with true. cbv iota.
  repeat split; reflexivity.
Qed.

(** A world without memory to hand out. *)
Definition exhausted_world : world :=
  {| heap := ∅; next_block := 1; strings := strings sample_world; stderr := [];
     clock := fun _ => 0; ticks := 0; malloc_ok := false;
     junk := sample_percent_bar 0; tgetent_result := -1; tgetnum_co := -1 |}.

Lemma constructors_return_null_without_memory_witness :
  progressbar_new_with_format 100 10 200 exhausted_world
  = Ok (Return NULL) exhausted_world.
Proof.
  apply (constructors_return_null_without_memory exhausted_world 100 200 300 10).
  reflexivity.
Defined.

(** X17.  A format string that is not exactly four bytes long stops
    every constructor at the assertion of [progressbar_assign_values],
    after the block has been allocated and the clock read; nothing has
    been drawn. *)
Theorem constructors_assert_a_four_byte_format
    (w : world) (new_label format_p tumbler_p : ptr) (mx : Z) (fmt : string) :
  malloc_ok w = true ->
  strings w !! format_p = Some fmt -> strlen fmt <> 4 ->
  progressbar_new_with_format new_label mx format_p w = Fault Aborted /\
  progressbar_new_with_format_and_tumbler new_label mx format_p tumbler_p w
    = Fault Aborted /\
  progressbar_new_percent_with_format new_label format_p w = Fault Aborted /\
  progressbar_new_percent_with_format_and_tumbler new_label format_p tumbler_p w
    = Fault Aborted.
Proof.
  intros Hok Hf Hne.
  assert (Habort : forall {A} f1 f2 tum (k : unit -> M A),
    bind (store (Construct.fresh w) f1)
      (fun _ => bind (store (Construct.fresh w) f2)
      (fun _ => bind (progressbar_assign_values (Construct.fresh w) format_p tum) k))
      (Construct.allocated w) = Fault Aborted).
  { intros A f1 f2 tum k.
    assert (Hb : heap (Construct.allocated w) !! Construct.fresh w = Some (junk w))
      by apply lookup_insert_eq.
    rewrite (Run.bind_ok _ _ _ _ _ (Run.store_run _ f1 _ _ Hb)).
    rewrite (Run.bind_ok _ _ _ _ _ (Construct.store_again _ f2 _ _ _)).
    apply Run.bind_fault.
    apply (Construct.assign_values_abort _ _ (f2 (f1 (junk w))) _ _ fmt).
    - apply lookup_insert_eq.
    - exact Hf.
    - exact Hne. }
  unfold progressbar_new_with_format, progressbar_new_with_format_and_tumbler,
    progressbar_new_percent_with_format,
    progressbar_new_percent_with_format_and_tumbler.
  rewrite !(Run.bind_ok _ _ _ _ _ (Construct.malloc_run w Hok)).
  rewrite Construct.fresh_not_null.
  repeat split; apply Habort.
Qed.

(** A world whose format string at 500 has three bytes. *)
Definition short_format_world : world :=
  {| heap := ∅; next_block := 1;
     strings := <[100 := "Emerging"%string]> (<[500 := "|=|"%string]> ∅);
     stderr := []; clock := fun _ => 0; ticks := 0; malloc_ok := true;
     junk := sample_percent_bar 0; tgetent_result := -1; tgetnum_co := -1 |}.

Lemma constructors_assert_a_four_byte_format_witness :
  progressbar_new_with_format 100 10 500 short_format_world = Fault Aborted.
Proof.
  apply (constructors_assert_a_four_byte_format short_format_world 100 500 NULL 10 "|=|").
  - reflexivity.
  - vm_compute; reflexivity.
  - vm_compute; discriminate.
Defined.

(** ** The remaining-time estimate in steps mode *)

Module Eta.
Import Round SFacts DblFacts MachFacts.

Section Units.

Variable B : Z.
Hypothesis HB : 2148 <= B.

(** The estimate [(elapsed / value) * left] as a value: it is finite
    and at most [elapsed * left]. *)
Lemma product_val o v d :
  0 < o < 2 ^ 53 -> 0 < v < 2 ^ 63 -> 0 <= d -> o * d <= Mach.INT_MAX ->
  is_fin false (Dbl.mul (Dbl.div (Dbl.of_Z o) (Dbl.of_Z v)) (Dbl.of_Z d)) /\
  0 <= uval B (Dbl.mul (Dbl.div (Dbl.of_Z o) (Dbl.of_Z v)) (Dbl.of_Z d))
    <= o * d * 2 ^ B.
Proof.
  unfold Mach.INT_MAX. intros Ho Hv Hd Hod.
  assert (PB : 0 < 2 ^ B) by (apply Z.pow_pos_nonneg; lia).
  assert (Ht : 0 <= B - 1074) by lia.
  assert (L53 : 2 ^ 53 <= 2 ^ 972) by (apply Z.pow_le_mono_r; lia).
  assert (L63 : 2 ^ 63 <= 2 ^ 972) by (apply Z.pow_le_mono_r; lia).
  assert (Hd31 : d <= 2 ^ 31 - 1) by nia.
  destruct (of_Z_exact B HB o ltac:(lia)) as [Fo Vo].
  destruct (of_Z_val B HB v ltac:(lia)) as [Fv Vv].
  destruct (of_Z_exact B HB d ltac:(lia)) as [Fd Vd].
  replace (o <? 0) with false in Fo by (symmetry; apply Z.ltb_ge; lia).
  replace (v <? 0) with false in Fv by (symmetry; apply Z.ltb_ge; lia).
  replace (d <? 0) with false in Fd by (symmetry; apply Z.ltb_ge; lia).
  rewrite Z.abs_eq in Vo, Vv, Vd by lia.
  assert (Pv : 2 ^ B <= uval B (Dbl.of_Z v)).
  { rewrite Vv.
    pose proof (RN_pow2 (B - 1074) B 1 Ht ltac:(lia) ltac:(lia)) as X.
    rewrite Z.mul_1_r in X. rewrite <- X at 1.
    apply RN_mono; [lia|nia|lia|lia|nia]. }
  set (uv := uval B (Dbl.of_Z v)) in *.
  destruct (div_val B HB false false _ _ Fo Fv) as [Fq Vq].
  { fold uv. lia. }
  { fold uv. rewrite Vo.
    apply Z.le_trans with (2 ^ 972 * 2 ^ B); [nia|].
    apply Z.mul_le_mono_nonneg_l; lia. }
  fold uv in Vq. rewrite Vo in Vq.
  assert (Bq : 0 <= uval B (SFdiv 53 1024 (Dbl.of_Z o) (Dbl.of_Z v)) <= o * 2 ^ B).
  { rewrite Vq. split.
    - apply RN_nonneg; [lia|nia|lia].
    - rewrite <- (RN_exact (B - 1074) o B (2 ^ B)) at 2 by lia.
      apply RN_mono; [lia|nia|lia|lia|].
      apply Z.mul_le_mono_nonneg_l; [nia|lia]. }
  set (uq := uval B (SFdiv 53 1024 (Dbl.of_Z o) (Dbl.of_Z v))) in *.
  simpl xorb in Fq.
  destruct (mul_val B HB false false _ _ Fq Fd) as [Fp Vp].
  { fold uq. rewrite Vd.
    apply Z.le_lt_trans with (2 ^ 31 * 2 ^ B * 2 ^ B).
    - assert (uq * (d * 2 ^ B) <= o * 2 ^ B * (d * 2 ^ B))
        by (apply Z.mul_le_mono_nonneg_r; nia).
      nia.
    - rewrite <- !Z.pow_add_r by lia. apply Z.pow_lt_mono_r; lia. }
  fold uq in Vp. rewrite Vd in Vp.
  simpl xorb in Fp.
  split; [exact Fp|].
  unfold Dbl.mul, Dbl.div, Dbl.prec, Dbl.emax. rewrite Vp. split.
  - apply RN_nonneg; [lia|nia|lia].
  - rewrite <- (RN_exact (B - 1074) (o * d) B (2 ^ B)) by lia.
    apply RN_mono; [lia|nia|lia|lia|].
    apply Z.mul_le_mono_nonneg_r; [lia|].
    assert (uq * (d * 2 ^ B) <= o * 2 ^ B * (d * 2 ^ B))
      by (apply Z.mul_le_mono_nonneg_r; nia).
    nia.
Qed.

Lemma estimate o v d :
  0 < o < 2 ^ 53 -> 0 < v < 2 ^ 63 -> 0 <= d -> o * d <= Mach.INT_MAX ->
  exists r,
    Dbl.to_int (Dbl.mul (Dbl.div (Dbl.of_Z o) (Dbl.of_Z v)) (Dbl.of_Z d)) = Some r /\
    0 <= r <= o * d.
Proof.
  intros Ho Hv Hd Hod.
  destruct (product_val o v d Ho Hv Hd Hod) as [F Bd].
  destruct (to_int_units B HB _ _ (o * d) F eq_refl Bd) as [E R]; [nia|].
  eexists. split; [exact E|exact R].
Qed.

(** The comparison [offset > 0] on a converted integer. *)
Lemma positive_offset o :
  Z.abs o <= 2 ^ 972 -> Dbl.ltb Dbl.zero (Dbl.of_Z o) = (0 <? o).
Proof.
  intros Ho.
  assert (PB : 0 < 2 ^ B) by (apply Z.pow_pos_nonneg; lia).
  assert (Ht : 0 <= B - 1074) by lia.
  destruct (of_Z_val B HB o Ho) as [F V].
  destruct (Z.ltb_spec 0 o) as [Hp|Hn].
  - replace (o <? 0) with false in F by (symmetry; apply Z.ltb_ge; lia).
    assert (P : 0 < uval B (Dbl.of_Z o)).
    { rewrite V. rewrite Z.abs_eq by lia.
      apply Z.lt_le_trans with (2 ^ B); [exact PB|].
      pose proof (RN_pow2 (B - 1074) B 1 Ht ltac:(lia) ltac:(lia)) as X.
      rewrite Z.mul_1_r in X. rewrite <- X at 1.
      apply RN_mono; [lia|nia|lia|lia|nia]. }
    destruct (Dbl.of_Z o) as [s| | |s m e]; simpl in F, P; try contradiction; try lia.
    destruct F as [-> _]. reflexivity.
  - destruct (Z.eq_dec o 0) as [->|Hne]; [reflexivity|].
    replace (o <? 0) with true in F by (symmetry; apply Z.ltb_lt; lia).
    destruct (Dbl.of_Z o) as [s| | |s m e]; simpl in F; try contradiction.
    + subst s. reflexivity.
    + destruct F as [-> _]. reflexivity.
Qed.

End Units.

Lemma estimate_defined o v d :
  0 < o < 2 ^ 53 -> 0 < v < 2 ^ 63 -> 0 <= d -> o * d <= Mach.INT_MAX ->
  exists r,
    Dbl.to_int (Dbl.mul (Dbl.div (Dbl.of_Z o) (Dbl.of_Z v)) (Dbl.of_Z d)) = Some r /\
    0 <= r <= o * d.
Proof. apply (estimate FloatApi.unit_exp FloatApi.unit_exp_ok). Qed.

Lemma offset_positive o :
  Z.abs o <= 2 ^ 972 -> Dbl.ltb Dbl.zero (Dbl.of_Z o) = (0 <? o).
Proof. apply (positive_offset FloatApi.unit_exp FloatApi.unit_exp_ok). Qed.

(** The estimate of a steps-mode bar, by cases on the clock and the
    value. *)
Lemma remaining_steps b now :
  0 <= max b -> is_long (max b) -> value b <= max b ->
  - 2 ^ 62 <= now - start b < 2 ^ 53 ->
  (now - start b) * (max b - value b) <= Mach.INT_MAX ->
  exists secs,
    Run.remaining_at b now = Some secs /\
    (value b <= 0 \/ now <= start b -> secs = 0) /\
    0 <= secs /\
    (0 < value b -> 0 < now - start b ->
     secs <= (now - start b) * (max b - value b)).
Proof.
  unfold is_long. intros Hm Hl Hv Ho Hod.
  unfold Run.remaining_at, difftime.
  assert (L62 : 2 ^ 62 <= 2 ^ 972) by (apply Z.pow_le_mono_r; lia).
  rewrite offset_positive by lia.
  replace (max b <? 0) with false by (symmetry; apply Z.ltb_ge; lia).
  destruct (Z.ltb_spec 0 (value b)) as [Hpv|Hnv];
    destruct (Z.ltb_spec 0 (now - start b)) as [Hpo|Hno]; simpl andb; cbv iota.
  - rewrite (to_long_id (max b - value b)) by lia.
    destruct (estimate_defined (now - start b) (value b) (max b - value b))
      as (r & E & R); try lia.
    exists r. split; [exact E|]. split; [lia|]. split; [lia|]. intros _ _. lia.
  - exists 0. split; [reflexivity|]. split; [reflexivity|]. split; lia.
  - exists 0. split; [reflexivity|]. split; [reflexivity|]. split; lia.
  - exists 0. split; [reflexivity|]. split; [reflexivity|]. split; lia.
Qed.

End Eta.

(** X18.  In steps mode the remaining-time estimate of a bar that is
    not past its maximum is defined whenever the elapsed time times
    the steps still to do fits an [int]: it is 0 before the first step
    and within the first second, never negative, and never more than
    the elapsed seconds times the steps still to do. *)
Theorem steps_estimate_is_bounded (b : progressbar) (now : Z) :
  0 <= max b -> is_long (max b) -> value b <= max b ->
  - 2 ^ 62 <= now - start b < 2 ^ 53 ->
  (now - start b) * (max b - value b) <= Mach.INT_MAX ->
  exists secs,
    Run.remaining_at b now = Some secs /\
    (value b <= 0 \/ now <= start b -> secs = 0) /\
    0 <= secs /\
    (0 < value b -> 0 < now - start b ->
     secs <= (now - start b) * (max b - value b)).
Proof. exact (Eta.remaining_steps b now). Qed.

Lemma steps_estimate_is_bounded_witness :
  exists secs,
    Run.remaining_at (sample_steps_bar 10 4 NULL 0) 10 = Some secs /\
    0 <= secs /\ secs <= (10 - 0) * (10 - 4).
Proof.
  destruct (steps_estimate_is_bounded (sample_steps_bar 10 4 NULL 0) 10)
    as (secs & E & _ & P & Hb).
  - simpl; lia.
  - unfold is_long; simpl; lia.
  - vm_compute; discriminate.
  - simpl; lia.
  - vm_compute; discriminate.
  - exists secs. split; [exact E|]. split; [exact P|].
    apply Hb; vm_compute; reflexivity.
Defined.

(** ** When a draw returns *)

Module Total.
Import MachFacts Run.

(** The tumbler of a bar is usable: there is none, or the bar holds
    the length of a readable string and a cursor inside it. *)
Definition tumbler_ok (w : world) (b : progressbar) : Prop :=
  tumbler_length b = 0 \/
  exists t, strings w !! tumbler_format b = Some t /\
            tumbler_length b = strlen t /\
            0 <= tumbler_pos b < tumbler_length b.

Lemma tumbler_step_defined w b bar_piece_count cur :
  tumbler_ok w b ->
  exists part b', tumbler_step (strings w) b bar_piece_count cur = Some (part, b').
Proof.
  intros Hok. unfold tumbler_step.
  destruct (draw_tumbler b bar_piece_count cur) eqn:Hdt;
    [|eexists; eexists; reflexivity].
  unfold draw_tumbler in Hdt. apply andb_prop in Hdt. destruct Hdt as [Hlen _].
  apply Z.ltb_lt in Hlen.
  destruct Hok as [Hz|(t & Hs & Ht & Hp)]; [lia|].
  rewrite Hs.
  destruct (Tumbler.char_at_in_range t (tumbler_pos b) ltac:(lia)) as (ch & Hch & _).
  rewrite Hch. eexists. eexists. reflexivity.
Qed.

(** The seconds of the time field of a steps-mode bar. *)
Lemma eta_steps_defined b now :
  0 <= max b -> is_long (max b) -> 0 <= value b <= max b ->
  0 <= now - start b <= Mach.INT_MAX ->
  (now - start b) * max b <= Mach.INT_MAX ->
  exists secs, eta_seconds b now = Some secs /\ 0 <= secs <= Mach.INT_MAX.
Proof.
  intros Hm Hl Hv Ho Hod. unfold eta_seconds.
  destruct (draw_completed b).
  - exists (now - start b). split; [|lia].
    unfold difftime. apply FloatApi.to_int_of_int.
    unfold Mach.INT_MIN, Mach.INT_MAX in *. lia.
  - unfold Mach.INT_MAX in *.
    assert (Hod2 : (now - start b) * (max b - value b) <= 2 ^ 31 - 1) by nia.
    destruct (Eta.remaining_steps b now Hm Hl ltac:(lia) ltac:(lia) Hod2)
      as (secs & E & Z0 & P & Bd).
    exists secs. split; [exact E|].
    split; [exact P|].
    destruct (Z.le_gt_cases (value b) 0) as [Hle|Hgt];
      [rewrite Z0 by (left; exact Hle); lia|].
    destruct (Z.le_gt_cases (now - start b) 0) as [Hle|Hgt2];
      [rewrite Z0 by (right; lia); lia|].
    specialize (Bd Hgt Hgt2). lia.
Qed.

End Total.

(** X19.  A draw of a steps-mode bar returns whenever the bar and its
    label can be read, the value is between 0 and the maximum, the
    tumbler (when there is one) is a readable string with the cursor
    inside it, the clock has not gone back, and the elapsed seconds
    times the maximum fit an [int].  Under these conditions no
    conversion is undefined and no string is read past its end. *)
Theorem steps_draw_returns (w : world) (bar : ptr) (b : progressbar) (lbl : string) :
  heap w !! bar = Some b -> strings w !! label b = Some lbl ->
  strlen lbl <= 2 ^ 29 ->
  - 2 ^ 30 <= Mach.to_int (Run.screen_width_of w) <= 2 ^ 30 ->
  0 <= max b -> is_long (max b) -> 0 <= value b <= max b ->
  Total.tumbler_ok w b ->
  0 <= clock w (ticks w) - start b <= Mach.INT_MAX ->
  (clock w (ticks w) - start b) * max b <= Mach.INT_MAX ->
  exists w2 line,
    progressbar_draw bar w = Ok tt w2 /\
    stderr w2 = stderr w ++ line ++ ["013"%char].
Proof.
  intros Hb Hl HL HW Hm Hlong Hv Htum Ho Hod.
  assert (HL0 : 0 <= strlen lbl) by (unfold strlen; lia).
  assert (EL : Mach.to_int (strlen lbl) = strlen lbl)
    by (apply LayoutFacts.int_id; lia).
  pose proof (Layout.piece_count_bounds
                (Mach.to_int (Run.screen_width_of w)) (Mach.to_int (strlen lbl))) as Hn.
  rewrite <- DrawFacts.piece_count_of_eq in Hn.
  assert (Hn0 : 0 <= Run.piece_count_of w lbl <= Mach.INT_MAX) by lia.
  assert (Hr : in_range b).
  { unfold in_range.
    replace (max b <? 0) with false by (symmetry; apply Z.ltb_ge; lia). exact Hv. }
  destruct (Cells.raw_of_in_range b _ Hlong Hr Hn0) as (raw & Eraw & _).
  destruct (Total.eta_steps_defined b (clock w (ticks w)) Hm Hlong Hv Ho Hod)
    as (secs & Esecs & _).
  destruct (planned_line_fits_the_screen_aux
              (Mach.to_int (Run.screen_width_of w)) (Mach.to_int (strlen lbl)) HW
              ltac:(lia)) as (Hlw & _).
  rewrite <- DrawFacts.label_width_of_eq in Hlw.
  destruct (DrawFacts.label_bytes_defined lbl (Run.label_width_of w lbl)
              ltac:(lia) ltac:(lia)) as (label_part & Elab).
  destruct (Total.tumbler_step_defined w b (Run.piece_count_of w lbl)
              (draw_piece_current b raw) Htum) as (tumbler_part & b' & Ets).
  pose proof (Run.draw_ok bar w b lbl raw secs label_part tumbler_part b'
                Hb Hl Eraw Esecs Elab Ets) as Hd.
  destruct (Run.after_draw_stderr bar w b lbl raw secs label_part tumbler_part b')
    as (line & Hline).
  eexists. exists line. split; [exact Hd|exact Hline].
Qed.

Lemma steps_draw_returns_witness :
  exists w2 line,
    progressbar_draw 1 (later_world (sample_steps_bar 10 4 NULL 0)) = Ok tt w2 /\
    stderr w2 = stderr (later_world (sample_steps_bar 10 4 NULL 0))
                  ++ line ++ ["013"%char].
Proof.
  apply (steps_draw_returns _ 1 (sample_steps_bar 10 4 NULL 0) "Emerging").
  - vm_compute; reflexivity.
  - vm_compute; reflexivity.
  - vm_compute; discriminate.
  - vm_compute; split; discriminate.
  - simpl; lia.
  - unfold is_long; simpl; lia.
  - vm_compute; split; discriminate.
  - left; reflexivity.
  - vm_compute; split; discriminate.
  - vm_compute; discriminate.
Defined.

(** ** The emission loop and the probe *)

(** X20.  [progressbar_write_char] always returns, having appended
    exactly [times] copies of the glyph to the output and changed
    nothing else; two calls in a row write what one call with the sum
    of the counts writes. *)
Theorem write_char_repeats (ch : ascii) (times more : Z) (w : world) :
  progressbar_write_char ch times w
    = Ok tt (with_stderr (stderr w ++ repeat ch (Z.to_nat times)) w) /\
  (0 <= times -> 0 <= more ->
   bind (progressbar_write_char ch times) (fun _ => progressbar_write_char ch more) w
   = progressbar_write_char ch (times + more) w).
Proof.
  split; [exact (Run.progressbar_write_char_run ch times w)|].
  intros Ht Hm.
  rewrite (Run.bind_ok _ _ _ _ _ (Run.progressbar_write_char_run ch times w)).
  rewrite !Run.progressbar_write_char_run, Run.emit_emit.
  rewrite Z2Nat.inj_add by lia. rewrite repeat_app. reflexivity.
Qed.

Lemma write_char_repeats_witness :
  bind (progressbar_write_char "=" 2) (fun _ => progressbar_write_char "=" 3) sample_world
  = progressbar_write_char "=" (2 + 3) sample_world.
Proof. apply (write_char_repeats "=" 2 3 sample_world); lia. Defined.

Module Probe.
Import MachFacts.

(** An [int] survives the trip through [unsigned int]. *)
Lemma int_through_unsigned z :
  Mach.INT_MIN <= z <= Mach.INT_MAX -> Mach.to_int (Mach.to_uint z) = z.
Proof.
  unfold Mach.INT_MIN, Mach.INT_MAX. intros Hz.
  unfold Mach.to_int, Mach.to_uint, Mach.wrap_signed, Mach.wrap_unsigned.
  change (32 - 1) with 31.
  rewrite Z.add_mod_idemp_l by lia.
  rewrite Z.mod_small by lia. lia.
Qed.

End Probe.

(** X21.  [get_screen_width] returns an [unsigned int] which the draw
    assigns to an [int]; the two conversions cancel, so the layout
    works with exactly the number [tgetnum] answered, a negative one
    included, whenever [tgetent] did not answer a negative value, and
    with [DEFAULT_SCREEN_WIDTH] otherwise.  The probe itself writes
    nothing and changes nothing. *)
Theorem probe_value_reaches_the_layout (w : world) :
  Mach.INT_MIN <= tgetnum_co w <= Mach.INT_MAX ->
  exists sw,
    get_screen_width w = Ok sw w /\
    0 <= sw < 2 ^ 32 /\
    Mach.to_int sw =
      if 0 <=? tgetent_result w then tgetnum_co w else DEFAULT_SCREEN_WIDTH.
Proof.
  intros Hn. unfold get_screen_width.
  destruct (0 <=? tgetent_result w).
  - eexists. split; [reflexivity|]. split.
    + apply Z.mod_pos_bound. lia.
    + apply Probe.int_through_unsigned. exact Hn.
  - eexists. split; [reflexivity|]. split.
    + apply Z.mod_pos_bound. lia.
    + reflexivity.
Qed.

Lemma probe_value_reaches_the_layout_witness :
  exists sw,
    get_screen_width unknown_terminal_world = Ok sw unknown_terminal_world /\
    0 <= sw < 2 ^ 32 /\
    Mach.to_int sw = -1.
Proof.
  apply (probe_value_reaches_the_layout unknown_terminal_world).
  vm_compute. split; discriminate.
Defined.

(** ** The line of a complete bar *)

(** X22.  A draw of a complete bar writes the gauge filled from border
    to border, without a tumbler glyph and without unfilled glyphs,
    and a time field in the elapsed-time format showing exactly the
    seconds between the start of the bar and the clock reading; the
    bar itself is not written to. *)
Theorem complete_bar_line
    (w w2 : world) (bar : ptr) (u : unit) (b : progressbar) (lbl : string) :
  progressbar_draw bar w = Ok u w2 ->
  heap w !! bar = Some b -> strings w !! label b = Some lbl ->
  draw_completed b = true ->
  Mach.INT_MIN <= clock w (ticks w) - start b <= Mach.INT_MAX ->
  let eta := progressbar_calc_time_components (clock w (ticks w) - start b) in
  (exists label_part,
     Run.label_bytes lbl (Run.label_width_of w lbl) = Some label_part /\
     stderr w2 =
       stderr w ++ label_part ++ [fmt_begin (format b)]
         ++ repeat (fmt_fill (format b)) (Z.to_nat (Run.piece_count_of w lbl))
         ++ [fmt_end (format b)] ++ [" "%char]
         ++ format_bytes (list_ascii_of_string ELAPSED_FORMAT)
              [hours eta; minutes eta; seconds eta]
         ++ ["013"%char]) /\
  heap w2 = heap w.
Proof.
  intros Hd Hb Hl Hc Ho eta.
  destruct (Run.draw_inv bar w u w2 Hd)
    as (b0 & lbl0 & raw & secs & label_part & tumbler_part & b' &
        Hb0 & Hl0 & Hraw & Heta & Hlab & Hts & ->).
  rewrite Hb in Hb0. injection Hb0 as <-.
  rewrite Hl in Hl0. injection Hl0 as <-.
  pose proof (Layout.piece_count_bounds
                (Mach.to_int (Run.screen_width_of w)) (Mach.to_int (strlen lbl))) as Hn.
  rewrite <- DrawFacts.piece_count_of_eq in Hn.
  assert (Hn0 : 0 <= Run.piece_count_of w lbl <= Mach.INT_MAX) by lia.
  rewrite (Gauge.raw_complete b _ Hc Hn0) in Hraw. injection Hraw as <-.
  destruct (Gauge.complete_counts b _ Hc Hn0) as (Ecur & Etum & Eunf).
  unfold Run.eta_seconds in Heta. rewrite Hc in Heta.
  unfold difftime in Heta. rewrite (FloatApi.to_int_of_int _ Ho) in Heta.
  injection Heta as <-.
  unfold Run.tumbler_step in Hts. rewrite Ecur, Etum in Hts.
  injection Hts as <- <-.
  split.
  - exists label_part. split; [exact Hlab|].
    rewrite DrawFacts.stderr_after_draw. unfold Run.draw_bytes.
    rewrite Ecur, Eunf, Hc.
    rewrite (MachFacts.to_size_t_id (Run.piece_count_of w lbl))
      by (unfold Mach.INT_MAX in Hn0; lia).
    rewrite (MachFacts.to_size_t_id 0) by lia.
    change (Z.to_nat 0) with O.
    change (repeat (fmt_unfilled (format b)) 0) with (@nil ascii).
    rewrite !app_nil_l. reflexivity.
  - rewrite DrawFacts.heap_after_draw, Ecur, Etum. reflexivity.
Qed.

Lemma complete_bar_line_witness :
  match progressbar_draw 1 (later_world (sample_steps_bar 10 10 300 4)) with
  | Ok _ w2 => heap w2 = heap (later_world (sample_steps_bar 10 10 300 4))
  | Fault _ => False
  end.
Proof.
  destruct (progressbar_draw 1 (later_world (sample_steps_bar 10 10 300 4)))
    as [u w2|f] eqn:E.
  - destruct (complete_bar_line _ _ 1 u (sample_steps_bar 10 10 300 4) "Emerging" E)
      as (_ & H).
    + vm_compute; reflexivity.
    + vm_compute; reflexivity.
    + vm_compute; reflexivity.
    + vm_compute; split; discriminate.
    + exact H.
  - vm_compute in E. discriminate E.
Defined.

(** ** The fill of a percent-mode bar *)

Module PercentOrder.
Import Round SFacts DblFacts MachFacts.

(** The floats that a 64-bit pattern can denote: the exponent is at
    least the smallest one, and the mantissa has 53 digits unless the
    exponent is the smallest. *)
Definition canonical (x : spec_float) : Prop :=
  match x with
  | S754_finite _ m e =>
      -1074 <= e /\ Z.pos m < 2 ^ 53 /\ (e = -1074 \/ 2 ^ 52 <= Z.pos m)
  | _ => True
  end.

Lemma of_bits_canonical w : canonical (Dbl.of_bits w).
Proof.
  unfold Dbl.of_bits.
  set (E := (w / 2 ^ 52) mod 2 ^ 11). set (F := w mod 2 ^ 52).
  assert (HE : 0 <= E < 2 ^ 11) by (apply Z.mod_pos_bound; lia).
  assert (HF : 0 <= F < 2 ^ 52) by (apply Z.mod_pos_bound; lia).
  destruct (Z.eqb_spec E 0) as [E0|E0].
  - destruct (Z.eqb_spec F 0) as [F0|F0]; [exact I|].
    simpl. rewrite Z2Pos.id by lia. lia.
  - destruct (Z.eqb_spec E 2047) as [E1|E1].
    + destruct (F =? 0); exact I.
    + simpl. rewrite Z2Pos.id by lia. lia.
Qed.

Lemma one_canonical : canonical Dbl.one.
Proof. unfold Dbl.one, canonical. rewrite Z2Pos.id by lia. lia. Qed.

Section Units.

Variable B : Z.
Hypothesis HB : 2148 <= B.

(** On canonical floats from zero up, the comparison is the order of
    the values. *)
Lemma leb_uval x y :
  canonical x -> canonical y ->
  Dbl.leb Dbl.zero x = true -> Dbl.leb x y = true ->
  y = S754_infinity false \/
  (Dbl.leb Dbl.zero y = true /\ uval B x <= uval B y).
Proof.
  intros Cx Cy H0 Hle.
  destruct x as [sx|sx| |sx mx ex]; try discriminate H0.
  - (* zero *)
    destruct y as [sy|sy| |sy my ey]; try discriminate Hle.
    + right. split; [reflexivity|simpl; lia].
    + destruct sy; [discriminate Hle|left; reflexivity].
    + destruct sy; [discriminate Hle|].
      right. split; [reflexivity|]. apply uval_nonneg.
  - (* infinity *)
    destruct sx; [discriminate H0|].
    destruct y as [sy|sy| |sy my ey]; try discriminate Hle.
    destruct sy; [discriminate Hle|left; reflexivity].
  - (* finite *)
    destruct sx; [discriminate H0|].
    destruct y as [sy|sy| |sy my ey]; try discriminate Hle.
    + destruct sy; [discriminate Hle|left; reflexivity].
    + destruct sy; [discriminate Hle|].
      right. split; [reflexivity|].
      simpl in Cx, Cy. destruct Cx as (Ex & Mx & Nx). destruct Cy as (Ey & My & Ny).
      unfold Dbl.leb, SFleb, SFcompare in Hle.
      unfold uval.
      destruct (Z.compare_spec ex ey) as [Q|Q|Q]; try discriminate Hle.
      * subst ey.
        assert (P : 0 < 2 ^ (ex + B)) by (apply Z.pow_pos_nonneg; lia).
        apply Z.mul_le_mono_nonneg_r; [lia|].
        rewrite Pos.compare_cont_spec in Hle.
        destruct (mx ?= my)%positive eqn:C; simpl in Hle; try discriminate Hle.
        -- apply Pos.compare_eq in C. subst. lia.
        -- apply Pos.compare_lt_iff, Pos2Z.pos_lt_pos in C. lia.
      * assert (N2 : 2 ^ 52 <= Z.pos my) by lia.
        assert (P : 0 < 2 ^ (ex + B)) by (apply Z.pow_pos_nonneg; lia).
        apply Z.le_trans with (2 ^ 53 * 2 ^ (ex + B)).
        { apply Z.mul_le_mono_nonneg_r; lia. }
        apply Z.le_trans with (2 ^ 52 * 2 ^ (ey + B)).
        { replace (2 ^ 53) with (2 ^ 52 * 2 ^ 1) by reflexivity.
          rewrite <- Z.mul_assoc, <- Z.pow_add_r by lia.
          apply Z.mul_le_mono_nonneg_l; [lia|].
          apply Z.pow_le_mono_r; lia. }
        assert (P2 : 0 < 2 ^ (ey + B)) by (apply Z.pow_pos_nonneg; lia).
        apply Z.mul_le_mono_nonneg_r; lia.
Qed.

Lemma uval_one : uval B Dbl.one = 2 ^ B.
Proof.
  unfold Dbl.one, uval. rewrite Z2Pos.id by lia.
  rewrite <- Z.pow_add_r by lia. f_equal. lia.
Qed.

(** The fill count of a fraction in [[0, 1)], in units. *)
Lemma percent_fill_units c w :
  0 <= c <= Mach.INT_MAX ->
  Dbl.leb Dbl.zero (Dbl.of_bits w) = true ->
  Dbl.leb Dbl.one (Dbl.of_bits w) = false ->
  Dbl.to_int (Dbl.mul (Dbl.of_Z c) (Dbl.of_bits w))
  = Some (pieces_units B c (uval B (Dbl.of_bits w)) / 2 ^ B) /\
  uval B (Dbl.of_bits w) < 2 ^ B.
Proof.
  intros Hc H0 H1.
  assert (PB : 0 < 2 ^ B) by (apply Z.pow_pos_nonneg; lia).
  assert (Ht : 0 <= B - 1074) by lia.
  destruct (of_bits_unit B HB w H0 H1) as (s & Ff & Vf).
  split; [|exact Vf].
  assert (Hc' : Z.abs c < 2 ^ 53) by (unfold Mach.INT_MAX in Hc; lia).
  destruct (of_Z_exact B HB c Hc') as [Fc Vc].
  replace (c <? 0) with false in Fc by (symmetry; apply Z.ltb_ge; lia).
  rewrite Z.abs_eq in Vc by lia.
  pose proof (uval_nonneg B (Dbl.of_bits w)) as Nf.
  destruct (mul_val B HB false s _ _ Fc Ff) as [Fp Vp].
  { rewrite Vc.
    apply Z.le_lt_trans with (2 ^ 53 * 2 ^ B * 2 ^ B).
    - apply Z.mul_le_mono_nonneg; nia.
    - rewrite <- !Z.pow_add_r by lia. apply Z.pow_lt_mono_r; lia. }
  rewrite Vc in Vp. fold (pieces_units B c (uval B (Dbl.of_bits w))) in Vp.
  pose proof (pieces_units_le B HB c (uval B (Dbl.of_bits w)) ltac:(lia) ltac:(lia))
    as Bp.
  assert (Hr : 0 <= pieces_units B c (uval B (Dbl.of_bits w)) / 2 ^ B <= c).
  { split; [apply Z.div_pos; lia|].
    apply Z.div_le_upper_bound; [lia|]. lia. }
  unfold Dbl.to_int.
  change (Dbl.mul (Dbl.of_Z c) (Dbl.of_bits w))
    with (SFmul 53 1024 (Dbl.of_Z c) (Dbl.of_bits w)).
  rewrite (trunc_val B HB (xorb false s) _ Fp), Vp.
  simpl xorb.
  assert (Hz : (if s then - (pieces_units B c (uval B (Dbl.of_bits w)) / 2 ^ B)
                else pieces_units B c (uval B (Dbl.of_bits w)) / 2 ^ B) =
               pieces_units B c (uval B (Dbl.of_bits w)) / 2 ^ B).
  { destruct s; [|reflexivity].
    assert (Z0 : uval B (Dbl.of_bits w) = 0).
    { destruct (Dbl.of_bits w) as [| | |s' m e]; simpl in Ff; try contradiction;
        try reflexivity.
      destruct Ff as [-> _]. simpl in H0. discriminate H0. }
    rewrite Z0. unfold pieces_units. rewrite Z.mul_0_r, RN_0 by lia.
    reflexivity. }
  rewrite Hz.
  unfold Mach.INT_MIN, Mach.INT_MAX in *.
  destruct (Z.leb_spec (- 2 ^ 31) (pieces_units B c (uval B (Dbl.of_bits w)) / 2 ^ B)),
    (Z.leb_spec (pieces_units B c (uval B (Dbl.of_bits w)) / 2 ^ B) (2 ^ 31 - 1));
    try lia.
  reflexivity.
Qed.

(** The fill count does not decrease with the fraction. *)
Lemma percent_fill_mono c w1 w2 r1 r2 :
  0 <= c <= Mach.INT_MAX ->
  Dbl.leb Dbl.zero (Dbl.of_bits w1) = true ->
  Dbl.leb (Dbl.of_bits w1) (Dbl.of_bits w2) = true ->
  Dbl.leb Dbl.one (Dbl.of_bits w2) = false ->
  Dbl.to_int (Dbl.mul (Dbl.of_Z c) (Dbl.of_bits w1)) = Some r1 ->
  Dbl.to_int (Dbl.mul (Dbl.of_Z c) (Dbl.of_bits w2)) = Some r2 ->
  Dbl.leb Dbl.one (Dbl.of_bits w1) = false /\
  Dbl.leb Dbl.zero (Dbl.of_bits w2) = true /\ r1 <= r2.
Proof.
  intros Hc H0 Hle H1 E1 E2.
  assert (PB : 0 < 2 ^ B) by (apply Z.pow_pos_nonneg; lia).
  destruct (leb_uval _ _ (of_bits_canonical w1) (of_bits_canonical w2) H0 Hle)
    as [Hinf|[H02 Hu]].
  { rewrite Hinf in H1. discriminate H1. }
  destruct (percent_fill_units c w2 Hc H02 H1) as [F2 U2].
  assert (H11 : Dbl.leb Dbl.one (Dbl.of_bits w1) = false).
  { destruct (Dbl.leb Dbl.one (Dbl.of_bits w1)) eqn:Hone; [|reflexivity].
    exfalso.
    destruct (leb_uval _ _ one_canonical (of_bits_canonical w1) eq_refl Hone)
      as [Hinf|[_ Hu1]].
    - rewrite Hinf in Hle.
      destruct (Dbl.of_bits w2) as [s|s| |s m e]; try discriminate Hle.
      destruct s; [discriminate Hle|discriminate H1].
    - rewrite uval_one in Hu1. lia. }
  split; [exact H11|]. split; [exact H02|].
  destruct (percent_fill_units c w1 Hc H0 H11) as [F1 U1].
  rewrite F1 in E1. rewrite F2 in E2.
  injection E1 as <-. injection E2 as <-.
  apply Z.div_le_mono; [lia|].
  apply (pieces_units_mono B HB); [lia|].
  split; [apply uval_nonneg|exact Hu].
Qed.

End Units.

Lemma fill_mono c w1 w2 r1 r2 :
  0 <= c <= Mach.INT_MAX ->
  Dbl.leb Dbl.zero (Dbl.of_bits w1) = true ->
  Dbl.leb (Dbl.of_bits w1) (Dbl.of_bits w2) = true ->
  Dbl.leb Dbl.one (Dbl.of_bits w2) = false ->
  Dbl.to_int (Dbl.mul (Dbl.of_Z c) (Dbl.of_bits w1)) = Some r1 ->
  Dbl.to_int (Dbl.mul (Dbl.of_Z c) (Dbl.of_bits w2)) = Some r2 ->
  Dbl.leb Dbl.one (Dbl.of_bits w1) = false /\
  Dbl.leb Dbl.zero (Dbl.of_bits w2) = true /\ r1 <= r2.
Proof. apply (percent_fill_mono FloatApi.unit_exp FloatApi.unit_exp_ok). Qed.

(** The advanced cells as a function of the fill count. *)
Lemma advanced_running b bar_piece_count raw :
  draw_completed b = false -> 0 <= raw <= bar_piece_count ->
  bar_piece_count <= Mach.INT_MAX -> 0 <= tumbler_length b ->
  advanced_cells b bar_piece_count raw =
  if tumbler_length b =? 0 then raw else Z.max raw (Z.min 1 bar_piece_count).
Proof.
  intros Hc Hr Hn Ht. unfold advanced_cells.
  destruct (Gauge.running_counts b bar_piece_count raw Hc Hr Hn) as (K0 & K1 & K2).
  unfold Mach.INT_MAX in Hn.
  destruct (Z.eqb_spec (tumbler_length b) 0) as [T|T].
  - destruct (K0 T) as (-> & -> & _). rewrite to_size_t_id by lia. lia.
  - destruct (Z.eq_dec raw 0) as [Z0|Z0].
    + destruct (K1 T Z0) as (-> & -> & _). subst raw.
      rewrite to_size_t_id by lia.
      replace (0 <? tumbler_length b) with true by (symmetry; apply Z.ltb_lt; lia).
      destruct (Z.ltb_spec 0 bar_piece_count); simpl; lia.
    + destruct (K2 T ltac:(lia)) as (-> & -> & _).
      rewrite to_size_t_id by lia.
      replace (0 <? tumbler_length b) with true by (symmetry; apply Z.ltb_lt; lia).
      lia.
Qed.

Lemma advanced_complete b bar_piece_count :
  draw_completed b = true -> 0 <= bar_piece_count <= Mach.INT_MAX ->
  advanced_cells b bar_piece_count bar_piece_count = bar_piece_count.
Proof.
  intros Hc Hn. unfold advanced_cells.
  destruct (Gauge.complete_counts b bar_piece_count Hc Hn) as (-> & -> & _).
  unfold Mach.INT_MAX in Hn. rewrite to_size_t_id by lia. lia.
Qed.

End PercentOrder.

(** X23.  In percent mode, with the tumbler and the piece count fixed,
    the number of advanced cells (fill glyphs, plus the tumbler cell
    when it is drawn) does not decrease when the fraction grows, over
    all fractions from zero on, those of one and more included. *)
Theorem percent_advanced_cells_monotone (b1 b2 : progressbar) (bar_piece_count : Z) :
  max b1 < 0 -> max b2 < 0 ->
  tumbler_length b2 = tumbler_length b1 -> 0 <= tumbler_length b1 ->
  0 <= bar_piece_count <= Mach.INT_MAX ->
  Dbl.leb Dbl.zero (percent b1) = true ->
  Dbl.leb (percent b1) (percent b2) = true ->
  exists raw1 raw2,
    draw_piece_raw b1 bar_piece_count = Some raw1 /\
    draw_piece_raw b2 bar_piece_count = Some raw2 /\
    advanced_cells b1 bar_piece_count raw1 <= advanced_cells b2 bar_piece_count raw2.
Proof.
  intros M1 M2 Et Ht Hn H0 Hle.
  assert (Hm1 : (max b1 <? 0) = true) by (apply Z.ltb_lt; exact M1).
  assert (Hm2 : (max b2 <? 0) = true) by (apply Z.ltb_lt; exact M2).
  assert (Adv1 : exists raw1,
            draw_piece_raw b1 bar_piece_count = Some raw1 /\
            0 <= raw1 <= bar_piece_count /\
            advanced_cells b1 bar_piece_count raw1 <= bar_piece_count /\
            (draw_completed b1 = false ->
             Dbl.to_int (Dbl.mul (Dbl.of_Z bar_piece_count) (percent b1)) = Some raw1)).
  { destruct (draw_completed b1) eqn:C1.
    - exists bar_piece_count.
      split; [apply Gauge.raw_complete; assumption|]. split; [lia|].
      split; [rewrite PercentOrder.advanced_complete by assumption; lia|discriminate].
    - assert (C1' := C1). unfold draw_completed in C1'. rewrite Hm1 in C1'.
      destruct (FloatApi.percent_fill_defined bar_piece_count (slot b1) Hn H0 C1')
        as (raw1 & E & R).
      exists raw1. unfold draw_piece_raw. rewrite C1, Hm1.
      split; [exact E|]. split; [exact R|]. split; [|intros _; exact E].
      rewrite (PercentOrder.advanced_running b1 _ raw1 C1 R (proj2 Hn) Ht).
      destruct (tumbler_length b1 =? 0); lia. }
  destruct Adv1 as (raw1 & E1 & R1 & A1 & F1).
  destruct (draw_completed b2) eqn:C2.
  - exists raw1, bar_piece_count.
    split; [exact E1|]. split; [apply Gauge.raw_complete; assumption|].
    rewrite (PercentOrder.advanced_complete b2 _ C2 Hn). exact A1.
  - assert (C2' := C2). unfold draw_completed in C2'. rewrite Hm2 in C2'.
    assert (C1 : draw_completed b1 = false).
    { unfold draw_completed. rewrite Hm1.
      destruct (Dbl.leb Dbl.one (percent b1)) eqn:Hone; [|reflexivity].
      exfalso.
      assert (Cm : draw_completed b1 = true)
        by (unfold draw_completed; rewrite Hm1; exact Hone).
      (* a fraction of one or more below a fraction under one *)
      destruct (PercentOrder.leb_uval FloatApi.unit_exp FloatApi.unit_exp_ok _ _
                  (PercentOrder.of_bits_canonical (slot b1))
                  (PercentOrder.of_bits_canonical (slot b2)) H0 Hle)
        as [Hinf|[H02 Hu]].
      - unfold percent in C2'. rewrite Hinf in C2'. discriminate C2'.
      - destruct (PercentOrder.leb_uval FloatApi.unit_exp FloatApi.unit_exp_ok _ _
                    PercentOrder.one_canonical
                    (PercentOrder.of_bits_canonical (slot b1)) eq_refl Hone)
          as [Hinf|[_ Hu1]].
        + unfold percent in Hle. rewrite Hinf in Hle.
          destruct (Dbl.of_bits (slot b2)) as [s|s| |s m e] eqn:Hp2;
            try discriminate Hle.
          destruct s; [discriminate Hle|].
          unfold percent in C2'. rewrite Hp2 in C2'. discriminate C2'.
        + rewrite (PercentOrder.uval_one FloatApi.unit_exp) in Hu1
            by exact FloatApi.unit_exp_ok.
          destruct (PercentOrder.percent_fill_units FloatApi.unit_exp
                      FloatApi.unit_exp_ok bar_piece_count (slot b2) Hn H02 C2')
            as [_ U2].
          lia. }
    specialize (F1 C1).
    assert (H02 : Dbl.leb Dbl.zero (percent b2) = true).
    { destruct (PercentOrder.leb_uval FloatApi.unit_exp FloatApi.unit_exp_ok _ _
                  (PercentOrder.of_bits_canonical (slot b1))
                  (PercentOrder.of_bits_canonical (slot b2)) H0 Hle)
        as [Hinf|[H02 _]]; [|exact H02].
      unfold percent in C2'. rewrite Hinf in C2'. discriminate C2'. }
    destruct (FloatApi.percent_fill_defined bar_piece_count (slot b2) Hn H02 C2')
      as (raw2 & E2 & R2).
    exists raw1, raw2. split; [exact E1|].
    split; [unfold draw_piece_raw; rewrite C2, Hm2; exact E2|].
    destruct (PercentOrder.fill_mono bar_piece_count (slot b1) (slot b2) raw1 raw2
                Hn H0 Hle C2' F1 E2) as (_ & _ & Hmono).
    rewrite (PercentOrder.advanced_running b1 _ raw1 C1 R1 (proj2 Hn) Ht).
    rewrite (PercentOrder.advanced_running b2 _ raw2 C2 R2 (proj2 Hn)) by lia.
    rewrite Et. destruct (tumbler_length b1 =? 0); lia.
Qed.

Lemma percent_advanced_cells_monotone_witness :
  exists raw1 raw2,
    draw_piece_raw (sample_percent_bar (1021 * 2 ^ 52)) 55 = Some raw1 /\
    draw_piece_raw (sample_percent_bar (1022 * 2 ^ 52)) 55 = Some raw2 /\
    advanced_cells (sample_percent_bar (1021 * 2 ^ 52)) 55 raw1
      <= advanced_cells (sample_percent_bar (1022 * 2 ^ 52)) 55 raw2.
Proof.
  apply (percent_advanced_cells_monotone (sample_percent_bar (1021 * 2 ^ 52))
           (sample_percent_bar (1022 * 2 ^ 52)) 55).
  - simpl; lia.
  - simpl; lia.
  - reflexivity.
  - simpl; lia.
  - unfold Mach.INT_MAX; lia.
  - vm_compute; reflexivity.
  - vm_compute; reflexivity.
Defined.

(** ** The life of a bar *)

(** X24.  A bar that is built by a steps-mode constructor and later
    finished leaves the heap as it found it: the block it lived in is
    released, and every other bar is as it was before the constructor
    was called, whatever was drawn in between. *)
Theorem built_and_finished_leaves_no_block
    (w w1 w2 w3 : world) (new_label format_p tumbler_p : ptr) (mx : Z)
    (c0 c1 c2 c3 : ascii) (len : Z) (r : returned) (u : unit) :
  malloc_ok w = true ->
  strings w !! format_p
    = Some (String c0 (String c1 (String c2 (String c3 EmptyString)))) ->
  Construct.tumbler_length_of w tumbler_p = Some len ->
  progressbar_new_with_format_and_tumbler new_label mx format_p tumbler_p w = Ok r w1 ->
  (forall q, q <> Construct.fresh w -> heap w2 !! q = heap w1 !! q) ->
  is_Some (heap w2 !! Construct.fresh w) ->
  progressbar_finish (Construct.fresh w) w2 = Ok u w3 ->
  r = Return (Construct.fresh w) /\
  heap w3 !! Construct.fresh w = None /\
  (forall q, q <> Construct.fresh w -> heap w3 !! q = heap w !! q).
Proof.
  intros Hok Hf Ht Hnew Hmid [b2 Hb2] Hfin.
  unfold progressbar_new_with_format_and_tumbler in Hnew.
  rewrite (Run.bind_ok _ _ _ _ _ (Construct.malloc_run w Hok)) in Hnew.
  rewrite Construct.fresh_not_null in Hnew.
  destruct (Construct.built w (set_max mx) (set_value 0) new_label format_p tumbler_p
              c0 c1 c2 c3 len _ r w1 Hf Ht Hnew)
    as (-> & _ & Hframe & _).
  assert (Hnn : Construct.fresh w <> NULL)
    by (apply Z.eqb_neq; apply Construct.fresh_not_null).
  destruct (finish_post w2 w3 _ u b2 Hb2 Hnn Hfin) as (Hnone & Hother & _).
  split; [reflexivity|]. split; [exact Hnone|].
  intros q Hq. rewrite (Hother q Hq), (Hmid q Hq). exact (Hframe q Hq).
Qed.

Lemma built_and_finished_leaves_no_block_witness :
  match progressbar_new_with_format_and_tumbler 100 10 200 300 sample_world with
  | Ok r w1 =>
      match progressbar_finish 1 w1 with
      | Ok _ w3 => heap w3 !! 1 = None
      | Fault _ => False
      end
  | Fault _ => False
  end.
Proof.
  destruct (progressbar_new_with_format_and_tumbler 100 10 200 300 sample_world)
    as [r w1|f] eqn:E1; [|vm_compute in E1; discriminate E1].
  destruct (progressbar_finish 1 w1) as [u w3|f] eqn:E2.
  - assert (Hs : is_Some (heap w1 !! Construct.fresh sample_world)).
    { vm_compute in E1. injection E1 as _ <-. eexists. vm_compute. reflexivity. }
    destruct (built_and_finished_leaves_no_block sample_world w1 w1 w3 100 200 300 10
                "|" "=" " " "|" 4 r u) as (_ & H & _).
    + reflexivity.
    + vm_compute; reflexivity.
    + vm_compute; reflexivity.
    + exact E1.
    + intros q _. reflexivity.
    + exact Hs.
    + exact E2.
    + exact H.
  - vm_compute in E1. injection E1 as _ <-. vm_compute in E2. discriminate E2.
Defined.

(** X25.  When [progressbar_new_percent_with_format] gets its block,
    it builds and draws the bar exactly as its sibling with a tumbler
    argument does for a [NULL] tumbler, and then ends without a
    [return]: the initialised bar stays in the fresh block, and the
    caller is handed no pointer to it. *)
Theorem percent_format_constructor_keeps_the_bar
    (w w2 : world) (new_label format_p : ptr)
    (c0 c1 c2 c3 : ascii) (r : returned) :
  malloc_ok w = true ->
  strings w !! format_p
    = Some (String c0 (String c1 (String c2 (String c3 EmptyString)))) ->
  progressbar_new_percent_with_format new_label format_p w = Ok r w2 ->
  r = NoReturn /\
  progressbar_new_percent_with_format_and_tumbler new_label format_p NULL w
    = Ok (Return (Construct.fresh w)) w2 /\
  exists b2,
    heap w2 !! Construct.fresh w = Some b2 /\
    max b2 = -1 /\ percent b2 = Dbl.zero /\
    start b2 = clock w (ticks w) /\ label b2 = new_label /\
    format b2 = {| fmt_begin := c0; fmt_fill := c1; fmt_unfilled := c2; fmt_end := c3 |} /\
    tumbler_format b2 = NULL /\ tumbler_length b2 = 0.
Proof.
  intros Hok Hf Hrun.
  assert (Ht : Construct.tumbler_length_of w NULL = Some 0) by reflexivity.
  unfold progressbar_new_percent_with_format in Hrun.
  rewrite (Run.bind_ok _ _ _ _ _ (Construct.malloc_run w Hok)) in Hrun.
  rewrite Construct.fresh_not_null in Hrun.
  assert (Hb : heap (Construct.allocated w) !! Construct.fresh w = Some (junk w))
    by apply lookup_insert_eq.
  pose proof Hrun as Hrun0.
  rewrite (Construct.build_run (Construct.fresh w) (Construct.allocated w) (junk w)
             (set_max (-1)) (set_percent_bits Dbl.bits_zero) new_label format_p NULL
             c0 c1 c2 c3 0 _ Hb Hf Ht) in Hrun0.
  destruct (Construct.built w (set_max (-1)) (set_percent_bits Dbl.bits_zero)
              new_label format_p NULL c0 c1 c2 c3 0 _ r w2 Hf Ht Hrun)
    as (-> & (b2 & Hb2 & E1 & E2 & E3 & E4 & E5 & E6 & E7 & _) & _).
  split; [reflexivity|]. split.
  - unfold progressbar_new_percent_with_format_and_tumbler.
    rewrite (Run.bind_ok _ _ _ _ _ (Construct.malloc_run w Hok)).
    rewrite Construct.fresh_not_null.
    rewrite (Construct.build_run (Construct.fresh w) (Construct.allocated w) (junk w)
               (set_max (-1)) (set_percent_bits Dbl.bits_zero) new_label format_p NULL
               c0 c1 c2 c3 0 _ Hb Hf Ht).
    unfold bind in Hrun0 |- *.
    match goal with
    | |- match progressbar_draw ?p ?w0 with _ => _ end = _ =>
        destruct (progressbar_draw p w0) as [u1 w1|f]; [|discriminate Hrun0]
    end.
    injection Hrun0 as <-. reflexivity.
  - exists b2. split; [exact Hb2|]. split; [exact E1|].
    split; [unfold percent; rewrite E2; reflexivity|].
    split; [exact E3|]. split; [exact E4|]. split; [exact E5|].
    split; [exact E6|exact E7].
Qed.

Lemma percent_format_constructor_keeps_the_bar_witness :
  match progressbar_new_percent_with_format 100 200 sample_world with
  | Ok r w2 => r = NoReturn /\ exists b2, heap w2 !! 1 = Some b2 /\ max b2 = -1
  | Fault _ => False
  end.
Proof.
  destruct (progressbar_new_percent_with_format 100 200 sample_world)
    as [r w2|f] eqn:E.
  - destruct (percent_format_constructor_keeps_the_bar sample_world w2 100 200
                "|" "=" " " "|" r) as (Hr & _ & b2 & Hb2 & E1 & _).
    + reflexivity.
    + vm_compute; reflexivity.
    + exact E.
    + split; [exact Hr|]. exists b2. split; [exact Hb2|exact E1].
  - vm_compute in E. discriminate E.
Defined.
